(** * vaxee-autoswitch: HID discovery, control-path selection and feature reports

    A shallow embedding of [hid_windows.go] (device enumeration, control-path
    selection, report construction, setting application) and of the
    polling-rate table of the configuration file, followed by the properties
    proved about them.

    Conventions.
    - Go's [byte] is [Byte.byte]; Go's [int], [uint16], [uint32] and [uintptr]
      are [Z], with truncation written out where the source converts.
    - Go's [string] is [string] (a sequence of bytes).
    - Go's [(value, error)] results are pairs [(value, option error)]: a
      failing call still returns the zero value, which the caller may read.
    - The operating system is an explicit capability record [OSLayer W] over
      an arbitrary world state [W], threaded through every call in program
      order.  Calls to [getFeature], [sendFeatureReport] and [time.Sleep] are
      recorded, in order, in the list of events a computation emits. *)

From Stdlib Require Import ZArith List Bool String Ascii Lia.
From Stdlib.Strings Require Import Byte.
Import ListNotations.
Local Open Scope Z_scope.

Set Implicit Arguments.

(** ** Go strings *)

Module GoStrings.

(** [strings.HasPrefix(s, prefix)]. *)
Definition HasPrefix (s prefix : string) : bool := String.prefix prefix s.

(** [strings.HasSuffix(s, suffix)]:
    [len(s) >= len(suffix) && s[len(s)-len(suffix):] == suffix]. *)
Definition HasSuffix (s suffix : string) : bool :=
  (String.length suffix <=? String.length s)%nat &&
  String.eqb
    (String.substring (String.length s - String.length suffix)
                      (String.length suffix) s)
    suffix.

(** [strings.Contains(s, substr)], that is [strings.Index(s, substr) >= 0]:
    some offset of [s] starts with [substr]. *)
Fixpoint Contains (s substr : string) : bool :=
  HasPrefix s substr ||
  match s with
  | EmptyString => false
  | String _ s' => Contains s' substr
  end.

(** [syscall.UTF16PtrFromString] rejects a string with a NUL byte. *)
Fixpoint has_nul (s : string) : bool :=
  match s with
  | EmptyString => false
  | String c s' => Ascii.eqb c Ascii.zero || has_nul s'
  end.

(** ASCII lower-casing, the restriction of [strings.ToLower] to ASCII
    strings; used to instantiate the development on concrete inputs. *)
Definition ascii_lower (c : ascii) : ascii :=
  let n := nat_of_ascii c in
  if ((65 <=? n) && (n <=? 90))%nat then ascii_of_nat (n + 32) else c.

Fixpoint ascii_ToLower (s : string) : string :=
  match s with
  | EmptyString => EmptyString
  | String c s' => String (ascii_lower c) (ascii_ToLower s')
  end.

End GoStrings.
Import GoStrings.

(** ** Errors

    The source builds its errors with [fmt.Errorf]; each format string is a
    constructor here, with the values it interpolates. *)

Definition PollingRate := Z.
Definition PerfMode := byte.

Inductive error : Type :=
| ErrEmptyReport                                  (* "empty report" *)
| ErrInvalidLength                                (* "invalid length" *)
| ErrEINVAL                                       (* UTF16PtrFromString *)
| ErrCreateFileW (path : string) (errno : Z)      (* "CreateFileW failed: ..." *)
| ErrCreateFileWQuery (path : string) (errno : Z) (* "CreateFileW(query) failed: ..." *)
| ErrSetFeature (errno : Z)                       (* "HidD_SetFeature failed: ..." *)
| ErrGetFeature (errno : Z)                       (* "HidD_GetFeature failed: ..." *)
| ErrGetPreparsedData (errno : Z)                 (* "HidD_GetPreparsedData failed: ..." *)
| ErrGetCaps (status : Z)                         (* "HidP_GetCaps failed: ..." *)
| ErrClassDevs (errno : Z)                        (* "SetupDiGetClassDevsW failed: ..." *)
| ErrNoDevice                                     (* "no VAXEE HID device found" *)
| ErrNoControlChannel                             (* "no VAXEE top-level collection accepts ..." *)
| ErrUnsupportedRate (p : PollingRate)            (* "unsupported polling rate: ..." *)
| ErrPerfReport (cause : error)                   (* "perf feature report failed: %w" *)
| ErrPollReport (cause : error).                  (* "poll feature report failed: %w" *)

(** ** Configuration constants (performance modes and polling rates) *)

Definition PerfCompetitiveMSOff : PerfMode := x01.
Definition PerfStandardMSOff    : PerfMode := x02.
Definition PerfCompetitiveMSOn  : PerfMode := x03.
Definition PerfStandardMSOn     : PerfMode := x04.

Definition Poll1000 : PollingRate := 1000.
Definition Poll2000 : PollingRate := 2000.
Definition Poll4000 : PollingRate := 4000.

(** [pollingToYY]: the protocol byte of a polling rate. *)
Definition pollingToYY (p : PollingRate) : byte * option error :=
  if p =? Poll1000 then (x02, None)
  else if p =? Poll2000 then (x03, None)
  else if p =? Poll4000 then (x04, None)
  else (x00, Some (ErrUnsupportedRate p)).

(** ** Report codec *)

(** [make([]byte, n)]: [n] zero bytes. *)
Definition make (n : Z) : list byte := repeat x00 (Z.to_nat n).

(** [buf[i] = v].  Go panics when [i] is out of range; every store of this
    program is in range, and the model leaves the buffer unchanged there. *)
Fixpoint store (i : nat) (v : byte) (buf : list byte) : list byte :=
  match buf, i with
  | [], _ => []
  | _ :: tl, O => v :: tl
  | b :: tl, S i' => b :: store i' v tl
  end.

Definition ReportID : byte := x0e.

Definition buildReportSized (total : Z) (cmd val : byte) : list byte :=
  let total := if total <? 6 then 6 else total in
  let buf := make total in
  let buf := store 0 ReportID buf in
  let buf := store 1 xa5 buf in
  let buf := store 2 cmd buf in
  let buf := store 3 x02 buf in
  let buf := store 4 x01 buf in
  let buf := store 5 val buf in
  buf.

(** ** Windows structures and constants *)

Record HIDD_ATTRIBUTES : Type := {
  attr_Size : Z;
  VendorID  : Z;
  ProductID : Z;
  Version   : Z
}.

(** The leading fields of [HIDP_CAPS]; the counters after them are never read. *)
Record HIDP_CAPS : Type := {
  caps_Usage              : Z;
  caps_UsagePage          : Z;
  InputReportByteLength   : Z;
  OutputReportByteLength  : Z;
  FeatureReportByteLength : Z
}.

Definition zeroCaps : HIDP_CAPS :=
  {| caps_Usage := 0; caps_UsagePage := 0; InputReportByteLength := 0;
     OutputReportByteLength := 0; FeatureReportByteLength := 0 |}.

Record VaxeeDeviceInfo : Type := {
  Path         : string;
  VID          : Z;
  PID          : Z;
  Manufacturer : string;
  Product      : string;
  UsagePage    : Z;
  Usage        : Z;
  FeatureLen   : Z
}.

(** [VaxeeDeviceInfo{}], the zero value returned next to an error. *)
Definition zeroDeviceInfo : VaxeeDeviceInfo :=
  {| Path := EmptyString; VID := 0; PID := 0;
     Manufacturer := EmptyString; Product := EmptyString;
     UsagePage := 0; Usage := 0; FeatureLen := 0 |}.

Definition ERROR_NO_MORE_ITEMS : Z := 259.
Definition HIDP_STATUS_SUCCESS : Z := 0x00110000.
Definition DIGCF_PRESENT : Z := 0x00000002.
Definition DIGCF_DEVICEINTERFACE : Z := 0x00000010.
Definition GENERIC_READ : Z := 0x80000000.
Definition GENERIC_WRITE : Z := 0x40000000.
Definition FILE_SHARE_READ : Z := 0x00000001.
Definition FILE_SHARE_WRITE : Z := 0x00000002.
Definition OPEN_EXISTING : Z := 3.
Definition Millisecond : Z := 1000000.

(** One member of the device-information set that [SetupDiGetClassDevsW]
    builds: what [SetupDiEnumDeviceInterfaces] answers at that index, and what
    the two calls of [SetupDiGetDeviceInterfaceDetailW] answer for it.  The set
    is a snapshot, so it is a finite list; past its end the enumeration call
    returns 0 with [ERROR_NO_MORE_ITEMS]. *)
Record DeviceInterface : Type := {
  enum_r1         : Z;       (* SetupDiEnumDeviceInterfaces; 0 is a failure *)
  enum_errno      : Z;
  detail_required : Z;       (* size reported by the first detail call *)
  detail_r2       : Z;       (* second detail call; 0 is a failure *)
  DevicePath      : string   (* utf16FromPtr of the DevicePath field *)
}.

(** The entry points of setupapi.dll, hid.dll and kernel32.dll that the
    program binds, over a world state [W].  Integer results are the raw
    [r1] values the source tests against 0. *)
Record OSLayer (W : Type) : Type := {
  CreateFileW : string -> Z -> Z -> Z -> W -> Z * W;
  CloseHandle : Z -> W -> W;
  GetLastError : W -> Z * W;
  Sleep : Z -> W -> W;
  HidD_GetHidGuid : W -> Z * W;
  HidD_GetAttributes : Z -> W -> (Z * HIDD_ATTRIBUTES) * W;
  HidD_GetManufacturerString : Z -> W -> (Z * string) * W;
  HidD_GetProductString : Z -> W -> (Z * string) * W;
  HidD_SetFeature : Z -> list byte -> W -> Z * W;
  HidD_GetFeature : Z -> list byte -> W -> (Z * list byte) * W;
  HidD_GetPreparsedData : Z -> W -> (Z * Z) * W;
  HidD_FreePreparsedData : Z -> W -> W;
  HidP_GetCaps : Z -> W -> (Z * HIDP_CAPS) * W;
  SetupDiGetClassDevsW : Z -> Z -> W -> (Z * list DeviceInterface) * W;
  SetupDiDestroyDeviceInfoList : Z -> W -> W
}.

(** ** Events *)

Inductive event : Type :=
| EvGetFeature (path : string) (reportID : byte) (length : Z) (err : option error)
| EvSendFeatureReport (path : string) (report : list byte) (err : option error)
| EvSleep (d : Z).

(** ** The computation monad: world state in, value, world state and emitted
    events out *)

Section Computation.
Variable W : Type.

Record outcome (A : Type) : Type := Out {
  value   : A;
  world   : W;
  emitted : list event
}.

Definition M (A : Type) : Type := W -> outcome A.

Definition ret {A} (a : A) : M A := fun w => Out a w [].

Definition bind {A B} (m : M A) (k : A -> M B) : M B :=
  fun w =>
    let r := m w in
    let r' := k (value r) (world r) in
    Out (value r') (world r') (emitted r ++ emitted r').

(** A call into the OS that returns a result. *)
Definition call {A} (f : W -> A * W) : M A :=
  fun w => Out (fst (f w)) (snd (f w)) [].

(** A call into the OS whose result is dropped. *)
Definition call_ (f : W -> W) : M unit := fun w => Out tt (f w) [].

Definition emit (e : event) : M unit := fun w => Out tt w [e].
End Computation.

Arguments ret {W A} a.
Arguments bind {W A B} m k.
Arguments call {W A} f.
Arguments call_ {W} f.
Arguments emit {W} e.

Notation "x <- m ;; k" := (bind m (fun x => k))
  (at level 100, m at next level, right associativity).
Notation "m ;;; k" := (bind m (fun _ => k))
  (at level 100, right associativity).

Definition is_nil (e : option error) : bool :=
  match e with None => true | Some _ => false end.

(** ** hid_windows.go *)

Module Hid.
Section HidWindows.
Variable W : Type.
Variable os : OSLayer W.
(** [strings.ToLower], left abstract: nothing below depends on how it
    treats any particular character. *)
Variable ToLower : string -> string.
(** Width of [uintptr] on the build target (32 or 64). *)
Variable uintptr_bits : Z.

(** [syscall.InvalidHandle], that is [^uintptr(0)]. *)
Definition InvalidHandle : Z := 2 ^ uintptr_bits - 1.

Definition valid_handle (h : Z) : bool :=
  negb (h =? 0) && negb (h =? InvalidHandle).

Definition lastErrno : M W Z := call (GetLastError os).

Definition closeHandle (h : Z) : M W unit := call_ (CloseHandle os h).

Definition openHIDPath (path : string) : M W (Z * option error) :=
  if has_nul path then ret (0, Some ErrEINVAL)
  else
    (* read-write *)
    h <- call (CreateFileW os path (Z.lor GENERIC_READ GENERIC_WRITE)
                 (Z.lor FILE_SHARE_READ FILE_SHARE_WRITE) OPEN_EXISTING) ;;
    if valid_handle h then ret (h, None)
    else
      (* write only *)
      h2 <- call (CreateFileW os path GENERIC_WRITE
                    (Z.lor FILE_SHARE_READ FILE_SHARE_WRITE) OPEN_EXISTING) ;;
      if valid_handle h2 then ret (h2, None)
      else
        e <- lastErrno ;;
        ret (0, Some (ErrCreateFileW path e)).

Definition openHIDPathForQuery (path : string) : M W (Z * option error) :=
  if has_nul path then ret (0, Some ErrEINVAL)
  else
    h <- call (CreateFileW os path 0
                 (Z.lor FILE_SHARE_READ FILE_SHARE_WRITE) OPEN_EXISTING) ;;
    if valid_handle h then ret (h, None)
    else
      e <- lastErrno ;;
      ret (0, Some (ErrCreateFileWQuery path e)).

(** The body of [sendFeatureReport]; the deferred [closeHandle] runs last. *)
Definition sendFeatureReport_body (path : string) (report : list byte)
  : M W (option error) :=
  if (List.length report =? 0)%nat then ret (Some ErrEmptyReport)
  else
    r <- openHIDPath path ;;
    match snd r with
    | Some err => ret (Some err)
    | None =>
        let h := fst r in
        r1 <- call (HidD_SetFeature os h report) ;;
        res <- (if r1 =? 0
                then e <- lastErrno ;; ret (Some (ErrSetFeature e))
                else ret None) ;;
        closeHandle h ;;;
        ret res
    end.

(** [sendFeatureReport], recording the call and its result. *)
Definition sendFeatureReport (path : string) (report : list byte)
  : M W (option error) :=
  res <- sendFeatureReport_body path report ;;
  emit (EvSendFeatureReport path report res) ;;;
  ret res.

Definition getFeature_body (path : string) (reportID : byte) (length : Z)
  : M W (list byte * option error) :=
  if length <=? 0 then ret ([], Some ErrInvalidLength)
  else
    r <- openHIDPath path ;;
    match snd r with
    | Some err => ret ([], Some err)
    | None =>
        let h := fst r in
        let buf := store 0 reportID (make length) in
        g <- call (HidD_GetFeature os h buf) ;;
        res <- (if fst g =? 0
                then e <- lastErrno ;; ret ([], Some (ErrGetFeature e))
                else ret (snd g, None)) ;;
        closeHandle h ;;;
        ret res
    end.

(** [getFeature], recording the call and its result. *)
Definition getFeature (path : string) (reportID : byte) (length : Z)
  : M W (list byte * option error) :=
  res <- getFeature_body path reportID length ;;
  emit (EvGetFeature path reportID length (snd res)) ;;;
  ret res.

(** [hidGetString]: the empty string when the request fails. *)
Definition hidGetString (h : Z) (proc : Z -> W -> (Z * string) * W)
  : M W string :=
  g <- call (proc h) ;;
  if fst g =? 0 then ret EmptyString else ret (snd g).

Definition queryCaps (h : Z) : M W (HIDP_CAPS * option error) :=
  g <- call (HidD_GetPreparsedData os h) ;;
  let r1 := fst g in
  let pp := snd g in
  if (r1 =? 0) || (pp =? 0) then
    e <- lastErrno ;;
    ret (zeroCaps, Some (ErrGetPreparsedData e))
  else
    c <- call (HidP_GetCaps os pp) ;;
    let st := fst c mod 2 ^ 32 in            (* uint32(st) *)
    let res := if st =? HIDP_STATUS_SUCCESS
               then (snd c, None)
               else (zeroCaps, Some (ErrGetCaps st)) in
    call_ (HidD_FreePreparsedData os pp) ;;;
    ret res.

Definition queryDeviceInfo (path : string) : M W (VaxeeDeviceInfo * bool) :=
  r <- openHIDPathForQuery path ;;
  match snd r with
  | Some _ => ret (zeroDeviceInfo, false)
  | None =>
      let h := fst r in
      a <- call (HidD_GetAttributes os h) ;;
      let attr := snd a in
      res <- (if fst a =? 0 then ret (zeroDeviceInfo, false)
              else
                manu <- hidGetString h (HidD_GetManufacturerString os) ;;
                prod <- hidGetString h (HidD_GetProductString os) ;;
                c <- queryCaps h ;;
                match snd c with
                | Some _ =>
                    ret ({| Path := path; VID := VendorID attr;
                            PID := ProductID attr;
                            Manufacturer := manu; Product := prod;
                            UsagePage := 0; Usage := 0; FeatureLen := 0 |},
                         true)
                | None =>
                    let caps := fst c in
                    ret ({| Path := path; VID := VendorID attr;
                            PID := ProductID attr;
                            Manufacturer := manu; Product := prod;
                            UsagePage := caps_UsagePage caps;
                            Usage := caps_Usage caps;
                            FeatureLen := FeatureReportByteLength caps |},
                         true)
                end) ;;
      closeHandle h ;;;
      ret res
  end.

(** The vendor filter of [EnumerateVaxeeDevices]. *)
Definition vendor_match (info : VaxeeDeviceInfo) : bool :=
  let m := ToLower (Manufacturer info) in
  let p := ToLower (Product info) in
  Contains m "vaxee" || Contains p "vaxee".

(** The loop [for idx := 0; ; idx++] of [EnumerateVaxeeDevices], entered at
    index [idx] with [rest] the members of the set from [idx] on. *)
Fixpoint enum_loop (rest : list DeviceInterface) (out : list VaxeeDeviceInfo)
  : M W (list VaxeeDeviceInfo) :=
  match rest with
  | [] => ret out                              (* ERROR_NO_MORE_ITEMS *)
  | ifData :: rest' =>
      if enum_r1 ifData =? 0 then ret out      (* any other error: break *)
      else if detail_required ifData =? 0 then enum_loop rest' out
      else if detail_r2 ifData =? 0 then enum_loop rest' out
      else
        let path := DevicePath ifData in
        if String.eqb path EmptyString then enum_loop rest' out
        else
          q <- queryDeviceInfo path ;;
          if negb (snd q) then enum_loop rest' out
          else if vendor_match (fst q)
               then enum_loop rest' (out ++ [fst q])
               else enum_loop rest' out
  end.

Definition EnumerateVaxeeDevices : M W (list VaxeeDeviceInfo * option error) :=
  g <- call (HidD_GetHidGuid os) ;;
  s <- call (SetupDiGetClassDevsW os g
               (Z.lor DIGCF_PRESENT DIGCF_DEVICEINTERFACE)) ;;
  let hDevInfo := fst s in
  if (hDevInfo =? 0) || (hDevInfo =? InvalidHandle) then
    e <- lastErrno ;;
    ret ([], Some (ErrClassDevs e))
  else
    out <- enum_loop (snd s) [] ;;
    call_ (SetupDiDestroyDeviceInfoList os hDevInfo) ;;;
    ret (out, None).

(** A path of the keyboard collection: [strings.HasSuffix(strings.ToLower(d.Path), `\kbd`)]. *)
Definition is_kbd (d : VaxeeDeviceInfo) : bool :=
  HasSuffix (ToLower (Path d)) "\kbd".

(** First loop of [SelectVaxeeControlPath]: append what is not a keyboard path. *)
Fixpoint order_others (ds order : list VaxeeDeviceInfo) : list VaxeeDeviceInfo :=
  match ds with
  | [] => order
  | d :: ds' =>
      if is_kbd d then order_others ds' order
      else order_others ds' (order ++ [d])
  end.

(** Second loop: append the keyboard paths. *)
Fixpoint order_kbd (ds order : list VaxeeDeviceInfo) : list VaxeeDeviceInfo :=
  match ds with
  | [] => order
  | d :: ds' =>
      if is_kbd d then order_kbd ds' (order ++ [d])
      else order_kbd ds' order
  end.

Definition probe_order (ds : list VaxeeDeviceInfo) : list VaxeeDeviceInfo :=
  order_kbd ds (order_others ds []).

(** The report length a candidate is probed with. *)
Definition probe_length (d : VaxeeDeviceInfo) : Z :=
  let flen := FeatureLen d in                 (* int(d.FeatureLen) *)
  if flen <=? 0 then 64 else flen.

(** Third loop: probe in order, return at the first success. *)
Fixpoint probe_loop (order : list VaxeeDeviceInfo)
  : M W (VaxeeDeviceInfo * option error) :=
  match order with
  | [] => ret (zeroDeviceInfo, Some ErrNoControlChannel)
  | d :: order' =>
      g <- getFeature (Path d) ReportID (probe_length d) ;;
      if is_nil (snd g) then ret (d, None)
      else probe_loop order'
  end.

Definition SelectVaxeeControlPath : M W (VaxeeDeviceInfo * option error) :=
  r <- EnumerateVaxeeDevices ;;
  let ds := fst r in
  match snd r with
  | Some err => ret (zeroDeviceInfo, Some err)
  | None =>
      if (List.length ds =? 0)%nat then ret (zeroDeviceInfo, Some ErrNoDevice)
      else probe_loop (probe_order ds)
  end.

Definition FindOneVaxeeDevice : M W (VaxeeDeviceInfo * option error) :=
  SelectVaxeeControlPath.

Definition sleep (d : Z) : M W unit :=
  call_ (Sleep os d) ;;;
  emit (EvSleep d).

Definition ApplyVaxeeSetting (path : string) (perf : PerfMode) (poll : PollingRate)
  : M W (option error) :=
  r <- FindOneVaxeeDevice ;;
  let dev := fst r in
  let path := if is_nil (snd r) && negb (String.eqb (Path dev) EmptyString)
              then Path dev else path in
  let flen := FeatureLen dev in               (* int(dev.FeatureLen) *)
  let flen := if flen <=? 0 then 64 else flen in
  (* 1) performance mode, cmd = 0x08 *)
  e1 <- sendFeatureReport path (buildReportSized flen x08 perf) ;;
  match e1 with
  | Some err => ret (Some (ErrPerfReport err))
  | None =>
      sleep (25 * Millisecond) ;;;
      (* 2) polling rate, cmd = 0x07 *)
      let yy := pollingToYY poll in
      match snd yy with
      | Some err => ret (Some err)
      | None =>
          e2 <- sendFeatureReport path (buildReportSized flen x07 (fst yy)) ;;
          match e2 with
          | Some err => ret (Some (ErrPollReport err))
          | None => ret None
          end
      end
  end.

End HidWindows.
End Hid.

Arguments Hid.InvalidHandle uintptr_bits : simpl never.
Arguments Hid.getFeature : simpl never.
Arguments Hid.sendFeatureReport : simpl never.
Arguments Hid.queryDeviceInfo : simpl never.
Arguments Hid.EnumerateVaxeeDevices : simpl never.
Arguments Hid.sleep : simpl never.

(** ** A simulated OS layer

    A table of HID collections, each with the answers it gives.  The world
    state counts the [HidD_SetFeature] calls made so far, so that a device may
    accept one report and refuse the next.  Used to run the model on concrete
    systems. *)

Module Sim.

Record Device : Type := {
  dev_path     : string;
  open_query   : bool;               (* CreateFileW with no access *)
  open_rw      : bool;               (* CreateFileW read-write *)
  open_w       : bool;               (* CreateFileW write only *)
  attributes   : option (Z * Z);     (* VendorID, ProductID *)
  manufacturer : option string;
  product      : option string;
  caps         : option HIDP_CAPS;
  get_feature  : bool;               (* answers HidD_GetFeature *)
  set_feature  : nat -> bool         (* answers the n-th HidD_SetFeature *)
}.

Record System : Type := {
  class_devs : Z;                    (* handle SetupDiGetClassDevsW returns *)
  members    : list DeviceInterface;
  devices    : list Device
}.

Definition bits : Z := 64.
Definition INVALID_HANDLE_VALUE : Z := 2 ^ bits - 1.
Definition ERROR_INVALID_FUNCTION : Z := 1.

(** Handle [n + 1] is the [n]-th device of the table. *)
Definition device_of (sys : System) (h : Z) : option Device :=
  if h <=? 0 then None else nth_error (devices sys) (Z.to_nat (h - 1)).

Fixpoint find_path (path : string) (ds : list Device) (n : Z) : option (Z * Device) :=
  match ds with
  | [] => None
  | d :: ds' =>
      if String.eqb (dev_path d) path then Some (n, d)
      else find_path path ds' (n + 1)
  end.

Definition create_file (sys : System) (path : string) (access : Z) : Z :=
  match find_path path (devices sys) 1 with
  | None => INVALID_HANDLE_VALUE
  | Some (h, d) =>
      let allowed :=
        if access =? 0 then open_query d
        else if access =? Z.lor GENERIC_READ GENERIC_WRITE then open_rw d
        else if access =? GENERIC_WRITE then open_w d
        else false in
      if allowed then h else INVALID_HANDLE_VALUE
  end.

Definition answer {A} (sys : System) (h : Z) (f : Device -> option A) (dflt : A)
  : Z * A :=
  match device_of sys h with
  | None => (0, dflt)
  | Some d => match f d with None => (0, dflt) | Some a => (1, a) end
  end.

Definition attr_of (va : Z * Z) : HIDD_ATTRIBUTES :=
  {| attr_Size := 12; VendorID := fst va; ProductID := snd va; Version := 0 |}.

Definition os (sys : System) : OSLayer nat := {|
  CreateFileW := fun path access _ _ n => (create_file sys path access, n);
  CloseHandle := fun _ n => n;
  GetLastError := fun n => (ERROR_INVALID_FUNCTION, n);
  Sleep := fun _ n => n;
  HidD_GetHidGuid := fun n => (0x4D1E55B2, n);
  HidD_GetAttributes := fun h n =>
    (answer sys h (fun d => option_map attr_of (attributes d)) (attr_of (0, 0)), n);
  HidD_GetManufacturerString := fun h n =>
    (answer sys h manufacturer EmptyString, n);
  HidD_GetProductString := fun h n =>
    (answer sys h product EmptyString, n);
  HidD_SetFeature := fun h _ n =>
    (match device_of sys h with
     | Some d => if set_feature d n then 1 else 0
     | None => 0
     end, S n);
  HidD_GetFeature := fun h buf n =>
    (match device_of sys h with
     | Some d => if get_feature d then (1, buf) else (0, buf)
     | None => (0, buf)
     end, n);
  HidD_GetPreparsedData := fun h n =>
    (match device_of sys h with
     | Some d => match caps d with Some _ => (1, h) | None => (0, 0) end
     | None => (0, 0)
     end, n);
  HidD_FreePreparsedData := fun _ n => n;
  HidP_GetCaps := fun pp n =>
    (match device_of sys pp with
     | Some d => match caps d with
                 | Some c => (HIDP_STATUS_SUCCESS, c)
                 | None => (0xC0110001, zeroCaps)
                 end
     | None => (0xC0110001, zeroCaps)
     end, n);
  SetupDiGetClassDevsW := fun _ _ n => ((class_devs sys, members sys), n);
  SetupDiDestroyDeviceInfoList := fun _ n => n
|}.

(** The device-information set member for a path. *)
Definition member (path : string) : DeviceInterface :=
  {| enum_r1 := 1; enum_errno := 0; detail_required := 128; detail_r2 := 1;
     DevicePath := path |}.

(** A VAXEE collection that opens in every mode. *)
Definition vaxee (path : string) (flen : Z) (get : bool) (set : nat -> bool) : Device :=
  {| dev_path := path; open_query := true; open_rw := true; open_w := true;
     attributes := Some (0x3057, 0x0001);
     manufacturer := Some "VAXEE"%string; product := Some "VAXEE Mouse"%string;
     caps := Some {| caps_Usage := 1; caps_UsagePage := 0xFF00;
                     InputReportByteLength := 0; OutputReportByteLength := 0;
                     FeatureReportByteLength := flen |};
     get_feature := get; set_feature := set |}.

Definition system_of (ds : list Device) : System :=
  {| class_devs := 0x1000; members := map (fun d => member (dev_path d)) ds;
     devices := ds |}.

Definition Enumerate (sys : System) := Hid.EnumerateVaxeeDevices (os sys) ascii_ToLower bits.
Definition Select (sys : System) := Hid.SelectVaxeeControlPath (os sys) ascii_ToLower bits.
Definition Apply (sys : System) := Hid.ApplyVaxeeSetting (os sys) ascii_ToLower bits.

End Sim.

(** ** Example systems *)

Module Systems.

Definition accept (_ : nat) : bool := true.
Definition accept_first (n : nat) : bool := (n =? 0)%nat.

(** The descriptor the enumeration builds for a fully answering device. *)
Definition descriptor (path : string) (flen : Z) : VaxeeDeviceInfo :=
  {| Path := path; VID := 0x3057; PID := 0x0001;
     Manufacturer := "VAXEE"; Product := "VAXEE Mouse";
     UsagePage := 0xFF00; Usage := 1; FeatureLen := flen |}.

(** Three collections of one mouse: A refuses the probe, B and C answer it. *)
Definition dev_a : Sim.Device := Sim.vaxee "hid#vid_3057&col01" 20 false accept.
Definition dev_b : Sim.Device := Sim.vaxee "hid#vid_3057&col02" 20 true accept.
Definition dev_c : Sim.Device := Sim.vaxee "hid#vid_3057&col03" 20 true accept.
Definition info_a := descriptor "hid#vid_3057&col01" 20.
Definition info_b := descriptor "hid#vid_3057&col02" 20.
Definition sys_abc : Sim.System := Sim.system_of [dev_a; dev_b; dev_c].

(** The keyboard collection enumerated first; its capabilities declare no
    feature report. *)
Definition dev_kbd : Sim.Device := Sim.vaxee "hid#vid_3057&col04\KBD" 0 true accept.
Definition info_kbd := descriptor "hid#vid_3057&col04\KBD" 0.
Definition sys_kbd_first : Sim.System := Sim.system_of [dev_kbd; dev_a].

(** A control collection that declares a 3-byte feature report. *)
Definition dev_short : Sim.Device := Sim.vaxee "hid#vid_3057&col05" 3 true accept.
Definition info_short := descriptor "hid#vid_3057&col05" 3.
Definition sys_short : Sim.System := Sim.system_of [dev_short].

(** A control collection that accepts the first report and refuses the next. *)
Definition dev_once : Sim.Device := Sim.vaxee "hid#vid_3057&col06" 20 true accept_first.
Definition sys_once : Sim.System := Sim.system_of [dev_once].

(** The device-class query fails. *)
Definition sys_no_class : Sim.System :=
  {| Sim.class_devs := 0; Sim.members := []; Sim.devices := [] |}.

(** Only collection A is present: nothing answers the probe, yet A accepts
    feature reports. *)
Definition sys_no_channel : Sim.System := Sim.system_of [dev_a].

(** Devices of other vendors, some of which fail their queries. *)
Definition foreign (path : string) (manu prod : option string) : Sim.Device :=
  {| Sim.dev_path := path; Sim.open_query := true; Sim.open_rw := true;
     Sim.open_w := true; Sim.attributes := Some (0x046D, 0xC52B);
     Sim.manufacturer := manu; Sim.product := prod;
     Sim.caps := None; Sim.get_feature := false; Sim.set_feature := accept |}.

Definition dev_locked : Sim.Device :=
  {| Sim.dev_path := "hid#vid_045e&col01"; Sim.open_query := false;
     Sim.open_rw := false; Sim.open_w := false; Sim.attributes := None;
     Sim.manufacturer := None; Sim.product := None;
     Sim.caps := None; Sim.get_feature := false; Sim.set_feature := accept |}.

Definition sys_foreign : Sim.System :=
  Sim.system_of
    [foreign "hid#vid_046d&col01" (Some "Logitech"%string) (Some "USB Receiver"%string);
     dev_locked;
     foreign "hid#vid_046d&col02" None None].

(** A VAXEE collection that answers neither the manufacturer string nor the
    capability query, between a locked device and collection B. *)
Definition dev_degraded : Sim.Device :=
  {| Sim.dev_path := "hid#vid_3057&col07"; Sim.open_query := true;
     Sim.open_rw := true; Sim.open_w := true;
     Sim.attributes := Some (0x3057, 0x0001);
     Sim.manufacturer := None; Sim.product := Some "Vaxee Mouse"%string;
     Sim.caps := None; Sim.get_feature := false; Sim.set_feature := accept |}.

Definition info_degraded : VaxeeDeviceInfo :=
  {| Path := "hid#vid_3057&col07"; VID := 0x3057; PID := 0x0001;
     Manufacturer := EmptyString; Product := "Vaxee Mouse";
     UsagePage := 0; Usage := 0; FeatureLen := 0 |}.

Definition sys_degraded : Sim.System :=
  Sim.system_of [dev_locked; dev_degraded; dev_b].

End Systems.
Import Systems.

(** ** Vocabulary of the statements *)

(** The event that probing candidate [d] records, with the probe's result. *)
Definition probe_event (d : VaxeeDeviceInfo) (e : option error) : event :=
  EvGetFeature (Path d) ReportID (Hid.probe_length d) e.

(** The events of a sequence of probes, each candidate with its result. *)
Definition probes (tried : list (VaxeeDeviceInfo * option error)) : list event :=
  map (fun x => probe_event (fst x) (snd x)) tried.

(** A probe that did not succeed. *)
Definition failed (x : VaxeeDeviceInfo * option error) : Prop := snd x <> None.

(** Where the fields of an enumerated descriptor come from: each is either
    what the OS answered to a request that succeeded, or the empty or zero
    value the program substitutes when the request failed. *)
Section Provenance.
Variable W : Type.
Variable os : OSLayer W.

Definition string_field (proc : Z -> W -> (Z * string) * W) (s : string) : Prop :=
  s = EmptyString \/
  exists h w, fst (fst (proc h w)) <> 0 /\ s = snd (fst (proc h w)).

Definition caps_fields (d : VaxeeDeviceInfo) : Prop :=
  (UsagePage d = 0 /\ Usage d = 0 /\ FeatureLen d = 0) \/
  exists pp w,
    fst (fst (HidP_GetCaps os pp w)) mod 2 ^ 32 = HIDP_STATUS_SUCCESS /\
    UsagePage d = caps_UsagePage (snd (fst (HidP_GetCaps os pp w))) /\
    Usage d = caps_Usage (snd (fst (HidP_GetCaps os pp w))) /\
    FeatureLen d = FeatureReportByteLength (snd (fst (HidP_GetCaps os pp w))).

Definition described (path : string) (d : VaxeeDeviceInfo) : Prop :=
  Path d = path /\
  string_field (HidD_GetManufacturerString os) (Manufacturer d) /\
  string_field (HidD_GetProductString os) (Product d) /\
  caps_fields d.
End Provenance.

(** The device-class query as [EnumerateVaxeeDevices] issues it from world
    state [w], and the test the program applies to the handle it returns. *)
Definition class_query {W} (os : OSLayer W) (w : W) : (Z * list DeviceInterface) * W :=
  SetupDiGetClassDevsW os (fst (HidD_GetHidGuid os w))
    (Z.lor DIGCF_PRESENT DIGCF_DEVICEINTERFACE) (snd (HidD_GetHidGuid os w)).

Definition class_query_failed {W} (os : OSLayer W) (uintptr_bits : Z) (w : W) : bool :=
  let h := fst (fst (class_query os w)) in
  (h =? 0) || (h =? Hid.InvalidHandle uintptr_bits).

(** The runs of the send sequence of [ApplyVaxeeSetting] on path [p] with
    report length [flen]: the events recorded after the control path was
    re-resolved, and the result returned. *)
Inductive send_run (p : string) (flen : Z) (perf : PerfMode) (poll : PollingRate)
  : list event -> option error -> Prop :=
| run_perf_failed err :
    send_run p flen perf poll
      [EvSendFeatureReport p (buildReportSized flen x08 perf) (Some err)]
      (Some (ErrPerfReport err))
| run_rate_rejected yy err :
    pollingToYY poll = (yy, Some err) ->
    send_run p flen perf poll
      [EvSendFeatureReport p (buildReportSized flen x08 perf) None;
       EvSleep (25 * Millisecond)]
      (Some err)
| run_poll_failed yy err :
    pollingToYY poll = (yy, None) ->
    send_run p flen perf poll
      [EvSendFeatureReport p (buildReportSized flen x08 perf) None;
       EvSleep (25 * Millisecond);
       EvSendFeatureReport p (buildReportSized flen x07 yy) (Some err)]
      (Some (ErrPollReport err))
| run_done yy :
    pollingToYY poll = (yy, None) ->
    send_run p flen perf poll
      [EvSendFeatureReport p (buildReportSized flen x08 perf) None;
       EvSleep (25 * Millisecond);
       EvSendFeatureReport p (buildReportSized flen x07 yy) None]
      None.

(** The feature-report sends among recorded events. *)
Definition is_send (ev : event) : bool :=
  match ev with EvSendFeatureReport _ _ _ => true | _ => false end.

Definition sends (t : list event) : list event := filter is_send t.

(** The lengths of the reports sent, in order. *)
Definition report_lengths (t : list event) : list Z :=
  flat_map (fun ev => match ev with
                      | EvSendFeatureReport _ report _ => [Z.of_nat (List.length report)]
                      | _ => []
                      end) t.

(** ** The configuration file (parsing and loading) *)

(** Errors of the configuration loader: the [fmt.Errorf] messages of
    [parseInt], [parsePerf] and [loadConfig], the error of [pollingToYY]
    passed on, and the errors of the file system, kept as opaque codes. *)
Inductive config_error : Type :=
| ErrEmptyInt                                (* "empty int" *)
| ErrNotInt (s : string)                     (* "not int: %s" *)
| ErrUnknownPerf (s : string)                (* "unknown perf mode: %s" *)
| ErrInvalidInterval (val : string)          (* "invalid interval_seconds: %s" *)
| ErrPolling (e : error)                     (* what pollingToYY returned *)
| ErrFile (code : Z).                        (* os.Stat, os.Open, Scanner, os.WriteFile *)

Record Config : Type := {
  Interval     : Z;                          (* time.Duration, nanoseconds *)
  HitMode      : PerfMode;
  HitPoll      : PollingRate;
  DefaultMode  : PerfMode;
  DefaultPoll  : PollingRate;
  Whitelist    : list string;
  WhitelistSet : list string;                (* the keys of map[string]struct{} *)
  ConfigPath   : string
}.

Definition Second : Z := 1000000000.

(** [m[k] = struct{}{}] and [_, ok := m[k]] on the key set of the map. *)
Definition map_insert (k : string) (m : list string) : list string :=
  if existsb (String.eqb k) m then m else m ++ [k].

Definition map_has (k : string) (m : list string) : bool :=
  existsb (String.eqb k) m.

(** [strings.IndexByte(s, c)]: the first index of [c], or -1. *)
Fixpoint IndexByte (s : string) (c : ascii) : Z :=
  match s with
  | EmptyString => -1
  | String ch s' =>
      if Ascii.eqb ch c then 0
      else let r := IndexByte s' c in if r <? 0 then -1 else r + 1
  end.

(** [s[i:j]] and [s[i:]] for in-range indices. *)
Definition slice (s : string) (i j : Z) : string :=
  String.substring (Z.to_nat i) (Z.to_nat (j - i)) s.

Definition slice_from (s : string) (i : Z) : string :=
  slice s i (Z.of_nat (String.length s)).

(** [fmt.Sprintf("0x%02x", b)]. *)
Definition hex_digit (n : N) : ascii :=
  if (n <? 10)%N then ascii_of_N (48 + n) else ascii_of_N (87 + n).

Definition hex02 (b : byte) : string :=
  let n := Byte.to_N b in
  String "0" (String "x" (String (hex_digit (n / 16)) (String (hex_digit (n mod 16)) EmptyString))).

Definition is_nil_cfg (e : option config_error) : bool :=
  match e with None => true | Some _ => false end.

Module Cfg.
Section ConfigFile.
(** [strings.TrimSpace], [strings.ToLower] and [filepath.Base], left abstract. *)
Variable TrimSpace : string -> string.
Variable ToLower : string -> string.
Variable Base : string -> string.
(** Width of Go's [int] on the build target (32 or 64). *)
Variable int_bits : Z.

(** Two's-complement wrap-around of [int] and of [int64]. *)
Definition wrap_int (z : Z) : Z :=
  (z + 2 ^ (int_bits - 1)) mod 2 ^ int_bits - 2 ^ (int_bits - 1).

Definition wrap_int64 (z : Z) : Z := (z + 2 ^ 63) mod 2 ^ 64 - 2 ^ 63.

Definition rune (ch : ascii) : Z := Z.of_nat (nat_of_ascii ch).

(** The loop of [parseInt] over the runes of [s].  A byte of a multi-byte
    rune is not a digit, and neither is the rune it belongs to, so the loop
    over bytes stops where the loop over runes does, with the same error. *)
Fixpoint parseInt_loop (s rest : string) (n : Z) : Z * option config_error :=
  match rest with
  | EmptyString => (n, None)
  | String ch rest' =>
      if (rune ch <? 48) || (57 <? rune ch) then (0, Some (ErrNotInt s))
      else parseInt_loop s rest' (wrap_int (wrap_int (n * 10) + (rune ch - 48)))
  end.

Definition parseInt (s : string) : Z * option config_error :=
  let s := TrimSpace s in
  if String.eqb s EmptyString then (0, Some ErrEmptyInt)
  else parseInt_loop s s 0.

Definition parsePerf (s : string) : PerfMode * option config_error :=
  let k := ToLower (TrimSpace s) in
  if String.eqb k "standard_ms_off" then (PerfStandardMSOff, None)
  else if String.eqb k "competitive_ms_off" then (PerfCompetitiveMSOff, None)
  else if String.eqb k "competitive_ms_on" then (PerfCompetitiveMSOn, None)
  else if String.eqb k "standard_ms_on" then (PerfStandardMSOn, None)
  else (x00, Some (ErrUnknownPerf s)).

Definition perfName (p : PerfMode) : string :=
  if Byte.eqb p PerfStandardMSOff then "standard_ms_off"
  else if Byte.eqb p PerfCompetitiveMSOff then "competitive_ms_off"
  else if Byte.eqb p PerfCompetitiveMSOn then "competitive_ms_on"
  else if Byte.eqb p PerfStandardMSOn then "standard_ms_on"
  else hex02 p.

(** The configuration [loadConfig] starts from. *)
Definition defaultConfig (path : string) : Config :=
  {| Interval := 60 * Second;
     HitMode := PerfCompetitiveMSOff; HitPoll := Poll1000;
     DefaultMode := PerfStandardMSOff; DefaultPoll := Poll1000;
     Whitelist := []; WhitelistSet := []; ConfigPath := path |}.

Definition set_Interval (cfg : Config) (v : Z) : Config :=
  {| Interval := v; HitMode := HitMode cfg; HitPoll := HitPoll cfg;
     DefaultMode := DefaultMode cfg; DefaultPoll := DefaultPoll cfg;
     Whitelist := Whitelist cfg; WhitelistSet := WhitelistSet cfg;
     ConfigPath := ConfigPath cfg |}.

Definition set_HitMode (cfg : Config) (v : PerfMode) : Config :=
  {| Interval := Interval cfg; HitMode := v; HitPoll := HitPoll cfg;
     DefaultMode := DefaultMode cfg; DefaultPoll := DefaultPoll cfg;
     Whitelist := Whitelist cfg; WhitelistSet := WhitelistSet cfg;
     ConfigPath := ConfigPath cfg |}.

Definition set_HitPoll (cfg : Config) (v : PollingRate) : Config :=
  {| Interval := Interval cfg; HitMode := HitMode cfg; HitPoll := v;
     DefaultMode := DefaultMode cfg; DefaultPoll := DefaultPoll cfg;
     Whitelist := Whitelist cfg; WhitelistSet := WhitelistSet cfg;
     ConfigPath := ConfigPath cfg |}.

Definition set_DefaultMode (cfg : Config) (v : PerfMode) : Config :=
  {| Interval := Interval cfg; HitMode := HitMode cfg; HitPoll := HitPoll cfg;
     DefaultMode := v; DefaultPoll := DefaultPoll cfg;
     Whitelist := Whitelist cfg; WhitelistSet := WhitelistSet cfg;
     ConfigPath := ConfigPath cfg |}.

Definition set_DefaultPoll (cfg : Config) (v : PollingRate) : Config :=
  {| Interval := Interval cfg; HitMode := HitMode cfg; HitPoll := HitPoll cfg;
     DefaultMode := DefaultMode cfg; DefaultPoll := v;
     Whitelist := Whitelist cfg; WhitelistSet := WhitelistSet cfg;
     ConfigPath := ConfigPath cfg |}.

Definition add_Whitelist (cfg : Config) (proc : string) : Config :=
  {| Interval := Interval cfg; HitMode := HitMode cfg; HitPoll := HitPoll cfg;
     DefaultMode := DefaultMode cfg; DefaultPoll := DefaultPoll cfg;
     Whitelist := Whitelist cfg ++ [proc];
     WhitelistSet := map_insert proc (WhitelistSet cfg);
     ConfigPath := ConfigPath cfg |}.

(** The [switch key] of [loadConfig]; an unknown key is ignored. *)
Definition config_key (cfg : Config) (key val : string) : Config * option config_error :=
  if String.eqb key "interval_seconds" then
    let r := parseInt val in
    if negb (is_nil_cfg (snd r)) || (fst r <=? 0)
    then (cfg, Some (ErrInvalidInterval val))
    else (set_Interval cfg (wrap_int64 (fst r * Second)), None)
  else if String.eqb key "hit_mode" then
    let r := parsePerf val in
    match snd r with
    | Some e => (cfg, Some e)
    | None => (set_HitMode cfg (fst r), None)
    end
  else if String.eqb key "hit_poll" then
    let r := parseInt val in
    match snd r with
    | Some e => (cfg, Some e)
    | None =>
        let cfg := set_HitPoll cfg (fst r) in
        match snd (pollingToYY (HitPoll cfg)) with
        | Some e => (cfg, Some (ErrPolling e))
        | None => (cfg, None)
        end
    end
  else if String.eqb key "default_mode" then
    let r := parsePerf val in
    match snd r with
    | Some e => (cfg, Some e)
    | None => (set_DefaultMode cfg (fst r), None)
    end
  else if String.eqb key "default_poll" then
    let r := parseInt val in
    match snd r with
    | Some e => (cfg, Some e)
    | None =>
        let cfg := set_DefaultPoll cfg (fst r) in
        match snd (pollingToYY (DefaultPoll cfg)) with
        | Some e => (cfg, Some (ErrPolling e))
        | None => (cfg, None)
        end
    end
  else (cfg, None).

(** The body of the scanning loop of [loadConfig] on one line of the file. *)
Definition config_line (cfg : Config) (text : string) : Config * option config_error :=
  let line := TrimSpace text in
  if String.eqb line EmptyString || HasPrefix line "#" then (cfg, None)
  else
    let i := IndexByte line "=" in
    if 0 <? i then
      let key := ToLower (TrimSpace (slice line 0 i)) in
      let val := TrimSpace (slice_from line (i + 1)) in
      config_key cfg key val
    else
      (* a whitelist line: base name, lower-cased *)
      let proc := ToLower (Base line) in
      (add_Whitelist cfg proc, None).

(** The scanning loop: the first failing line ends it. *)
Fixpoint config_lines (lines : list string) (cfg : Config) : Config * option config_error :=
  match lines with
  | [] => (cfg, None)
  | text :: lines' =>
      let r := config_line cfg text in
      match snd r with
      | Some e => (fst r, Some e)
      | None => config_lines lines' (fst r)
      end
  end.

End ConfigFile.
End Cfg.

(** ** The file system, the foreground window, and the program around the
    device code *)

(** [os.Stat], [os.Open] with the [bufio.Scanner] reading the file to its end
    (the lines it delivers and its final [Err()]; the deferred [Close] is part
    of it) and [os.IsNotExist].  Errors are opaque codes; times are instants
    counted from the zero [time.Time]. *)
Record FSLayer (W : Type) : Type := {
  os_Stat : string -> W -> (Z * option Z) * W;
  os_Open_Scan : string -> W -> ((list string * option Z) * option Z) * W;
  os_IsNotExist : Z -> bool
}.

(** The entry points of user32.dll and kernel32.dll behind
    [ForegroundProcessName]. *)
Record UserLayer (W : Type) : Type := {
  GetForegroundWindow : W -> Z * W;
  GetWindowThreadProcessId : Z -> W -> Z * W;            (* the pid written *)
  OpenProcess : Z -> Z -> Z -> W -> (Z * Z) * W;         (* handle, errno *)
  CloseHandleFG : Z -> W -> W;
  QueryFullProcessImageNameW :
    Z -> Z -> W -> ((Z * string) * Z) * W   (* r1, UTF16ToString(buf[:size]), errno *)
}.

Inductive fg_error : Type :=
| FgEINVAL                                   (* syscall.EINVAL *)
| FgErrno (errno : Z).                       (* the error of the failed call *)

Definition PROCESS_QUERY_LIMITED_INFORMATION : Z := 0x1000.

(** [time.Time{}]. *)
Definition zeroTime : Z := 0.

(** What [reloadConfigIfChanged] logs. *)
Inductive reload_outcome : Type :=
| ReloadNone
| Reloaded
| ReloadFailed (e : config_error).

Record Applied : Type := {
  perf : PerfMode;
  poll : PollingRate;
  ok   : bool
}.

(** [var last Applied]. *)
Definition zeroApplied : Applied := {| perf := x00; poll := 0; ok := false |}.

(** The two strings [tickOnce] returns: both empty, an error text, or a
    switch message. *)
Inductive tick_result : Type :=
| TickIdle
| TickFindFailed (e : error)
| TickApplyFailed (e : error)
| TickSwitched (hit : bool) (proc : string) (wantPerf : PerfMode) (wantPoll : PollingRate).

(** [handleError]: the new [*lastErr], and the line logged if any. *)
Definition handleError (lastErr errStr : string) : string * option string :=
  if negb (String.eqb errStr EmptyString) && negb (String.eqb errStr lastErr)
  then (errStr, Some errStr)
  else if String.eqb errStr EmptyString then (EmptyString, None)
  else (lastErr, None).

(** [u32ptrFromI32]: [uintptr(uint32(v))] for an [int32] value [v]. *)
Definition u32ptrFromI32 (v : Z) : Z := v mod 2 ^ 32.

Definition THREAD_PRIORITY_LOWEST : Z := -2.
Definition THREAD_PRIORITY_IDLE : Z := -15.

Definition is_none {A} (o : option A) : bool :=
  match o with None => true | Some _ => false end.

Module App.
Section Program.
Variable W : Type.
Variable os : OSLayer W.
Variable fs : FSLayer W.
Variable user : UserLayer W.
Variable TrimSpace : string -> string.
Variable ToLower : string -> string.
Variable Base : string -> string.
(** [error.Error()], the text of a device error. *)
Variable Error : error -> string.
Variable int_bits : Z.
Variable uintptr_bits : Z.

Definition loadConfig (path : string)
  : M W (option Config * Z * option config_error) :=
  st <- call (os_Stat fs path) ;;
  match snd st with
  | Some code => ret (None, zeroTime, Some (ErrFile code))
  | None =>
      f <- call (os_Open_Scan fs path) ;;
      match snd f with
      | Some code => ret (None, zeroTime, Some (ErrFile code))
      | None =>
          let r := Cfg.config_lines TrimSpace ToLower Base int_bits
                     (fst (fst f)) (Cfg.defaultConfig path) in
          match snd r with
          | Some e => ret (None, zeroTime, Some e)
          | None =>
              match snd (fst f) with                    (* sc.Err() *)
              | Some code => ret (None, zeroTime, Some (ErrFile code))
              | None => ret (Some (fst r), fst st, None)
              end
          end
      end
  end.

(** [reloadConfigIfChanged]: the configuration and modification time in
    force afterwards. *)
Definition reloadConfigIfChanged (cfgPath : string) (cfg : Config) (modTime : Z)
  : M W (Config * Z * reload_outcome) :=
  st <- call (os_Stat fs cfgPath) ;;
  if is_none (snd st) && (modTime <? fst st) then
    r <- loadConfig cfgPath ;;
    match r with
    | (Some nc, mt, None) => ret (nc, mt, Reloaded)
    | (None, mt, None) => ret (cfg, modTime, ReloadNone)   (* loadConfig has no such result *)
    | (_, _, Some e2) => ret (cfg, modTime, ReloadFailed e2)
    end
  else ret (cfg, modTime, ReloadNone).

Definition ForegroundProcessName : M W (string * option fg_error) :=
  hwnd <- call (GetForegroundWindow user) ;;
  if hwnd =? 0 then ret (EmptyString, Some FgEINVAL)
  else
    pid <- call (GetWindowThreadProcessId user hwnd) ;;
    if pid =? 0 then ret (EmptyString, Some FgEINVAL)
    else
      p <- call (OpenProcess user PROCESS_QUERY_LIMITED_INFORMATION 0 pid) ;;
      let hProc := fst p in
      if hProc =? 0 then ret (EmptyString, Some (FgErrno (snd p)))
      else
        q <- call (QueryFullProcessImageNameW user hProc 0) ;;
        let res := if fst (fst q) =? 0
                   then (EmptyString, Some (FgErrno (snd q)))
                   else (ToLower (Base (snd (fst q))), None) in
        call_ (CloseHandleFG user hProc) ;;;
        ret res.

(** [tickOnce]: the result and the [*last] in force afterwards. *)
Definition tickOnce (cfg : Config) (last : Applied) : M W (tick_result * Applied) :=
  fg <- ForegroundProcessName ;;
  match snd fg with
  | Some _ => ret (TickIdle, last)
  | None =>
      let proc := ToLower (Base (fst fg)) in
      let hit := map_has proc (WhitelistSet cfg) in
      let wantPerf := if hit then HitMode cfg else DefaultMode cfg in
      let wantPoll := if hit then HitPoll cfg else DefaultPoll cfg in
      if ok last && Byte.eqb (perf last) wantPerf && (poll last =? wantPoll)
      then ret (TickIdle, last)
      else
        d <- Hid.FindOneVaxeeDevice os ToLower uintptr_bits ;;
        match snd d with
        | Some findErr => ret (TickFindFailed findErr, last)
        | None =>
            a <- Hid.ApplyVaxeeSetting os ToLower uintptr_bits
                   (Path (fst d)) wantPerf wantPoll ;;
            match a with
            | Some err => ret (TickApplyFailed err, last)
            | None =>
                ret (TickSwitched hit proc wantPerf wantPoll,
                     {| perf := wantPerf; poll := wantPoll; ok := true |})
            end
        end
  end.

(** The second string of [tickOnce]. *)
Definition errStr (t : tick_result) : string :=
  match t with
  | TickFindFailed e => String.append "未找到可用 VAXEE 设备：" (Error e)
  | TickApplyFailed e => String.append "应用设置失败：" (Error e)
  | _ => EmptyString
  end.

Record MainState : Type := {
  st_cfg     : Config;
  st_modTime : Z;
  st_last    : Applied;
  st_lastErr : string
}.

(** One turn of the [for] loop of [main]; what it logs is left out. *)
Definition mainTurn (cfgPath : string) (s : MainState) : M W MainState :=
  r <- reloadConfigIfChanged cfgPath (st_cfg s) (st_modTime s) ;;
  let cfg := fst (fst r) in
  let modTime := snd (fst r) in
  t <- tickOnce cfg (st_last s) ;;
  let h := handleError (st_lastErr s) (errStr (fst t)) in
  Hid.sleep os (Interval cfg) ;;;
  ret {| st_cfg := cfg; st_modTime := modTime;
         st_last := snd t; st_lastErr := fst h |}.

(** The loop of [EnumerateAllHidDevices]: that of [EnumerateVaxeeDevices]
    without the vendor filter. *)
Fixpoint enum_all_loop (rest : list DeviceInterface) (out : list VaxeeDeviceInfo)
  : M W (list VaxeeDeviceInfo) :=
  match rest with
  | [] => ret out
  | ifData :: rest' =>
      if enum_r1 ifData =? 0 then ret out
      else if detail_required ifData =? 0 then enum_all_loop rest' out
      else if detail_r2 ifData =? 0 then enum_all_loop rest' out
      else
        let path := DevicePath ifData in
        if String.eqb path EmptyString then enum_all_loop rest' out
        else
          q <- Hid.queryDeviceInfo os uintptr_bits path ;;
          if negb (snd q) then enum_all_loop rest' out
          else enum_all_loop rest' (out ++ [fst q])
  end.

Definition EnumerateAllHidDevices : M W (list VaxeeDeviceInfo * option error) :=
  g <- call (HidD_GetHidGuid os) ;;
  s <- call (SetupDiGetClassDevsW os g
               (Z.lor DIGCF_PRESENT DIGCF_DEVICEINTERFACE)) ;;
  let hDevInfo := fst s in
  if (hDevInfo =? 0) || (hDevInfo =? Hid.InvalidHandle uintptr_bits) then
    e <- Hid.lastErrno os ;;
    ret ([], Some (ErrClassDevs e))
  else
    out <- enum_all_loop (snd s) [] ;;
    call_ (SetupDiDestroyDeviceInfoList os hDevInfo) ;;;
    ret (out, None).

End Program.
End App.

(** ** Recording the calls into the OS

    [traced os] answers every call as [os] does and appends the call to a
    list kept beside the world state.  Running the program on [traced os]
    shows which entry points it calls, with what, and in which order. *)

Inductive oscall : Type :=
| CallCreateFileW (path : string) (access : Z) (h : Z)
| CallCloseHandle (h : Z)
| CallGetLastError
| CallSleep (d : Z)
| CallGetHidGuid
| CallGetAttributes (h : Z)
| CallGetManufacturerString (h : Z)
| CallGetProductString (h : Z)
| CallSetFeature (h : Z) (report : list byte) (r1 : Z)
| CallGetFeature (h : Z) (buf : list byte) (r1 : Z)
| CallGetPreparsedData (h : Z) (r1 pp : Z)
| CallFreePreparsedData (pp : Z)
| CallGetCaps (pp : Z)
| CallGetClassDevs (hDevInfo : Z)
| CallDestroyDeviceInfoList (hDevInfo : Z).

Section Traced.
Variable W : Type.
Variable os : OSLayer W.

(** A call that returns a result: answer as [os], record [c]. *)
Definition record {A} (f : W -> A * W) (c : A -> oscall)
  : W * list oscall -> A * (W * list oscall) :=
  fun s => (fst (f (fst s)), (snd (f (fst s)), snd s ++ [c (fst (f (fst s)))])).

(** A call whose result is dropped. *)
Definition record_ (f : W -> W) (c : oscall)
  : W * list oscall -> W * list oscall :=
  fun s => (f (fst s), snd s ++ [c]).

Definition traced : OSLayer (W * list oscall) := {|
  CreateFileW := fun path access share disp =>
    record (CreateFileW os path access share disp) (CallCreateFileW path access);
  CloseHandle := fun h => record_ (CloseHandle os h) (CallCloseHandle h);
  GetLastError := record (GetLastError os) (fun _ => CallGetLastError);
  Sleep := fun d => record_ (Sleep os d) (CallSleep d);
  HidD_GetHidGuid := record (HidD_GetHidGuid os) (fun _ => CallGetHidGuid);
  HidD_GetAttributes := fun h =>
    record (HidD_GetAttributes os h) (fun _ => CallGetAttributes h);
  HidD_GetManufacturerString := fun h =>
    record (HidD_GetManufacturerString os h) (fun _ => CallGetManufacturerString h);
  HidD_GetProductString := fun h =>
    record (HidD_GetProductString os h) (fun _ => CallGetProductString h);
  HidD_SetFeature := fun h report =>
    record (HidD_SetFeature os h report) (CallSetFeature h report);
  HidD_GetFeature := fun h buf =>
    record (HidD_GetFeature os h buf) (fun r => CallGetFeature h buf (fst r));
  HidD_GetPreparsedData := fun h =>
    record (HidD_GetPreparsedData os h) (fun r => CallGetPreparsedData h (fst r) (snd r));
  HidD_FreePreparsedData := fun pp =>
    record_ (HidD_FreePreparsedData os pp) (CallFreePreparsedData pp);
  HidP_GetCaps := fun pp => record (HidP_GetCaps os pp) (fun _ => CallGetCaps pp);
  SetupDiGetClassDevsW := fun g flags =>
    record (SetupDiGetClassDevsW os g flags) (fun r => CallGetClassDevs (fst r));
  SetupDiDestroyDeviceInfoList := fun h =>
    record_ (SetupDiDestroyDeviceInfoList os h) (CallDestroyDeviceInfoList h)
|}.
End Traced.

(** The calls a computation on a traced OS makes, and a property of its
    result and of those calls. *)
Definition makes {W A} (m : M (W * list oscall) A)
  (P : A -> list oscall -> Prop) : Prop :=
  forall s, exists l, snd (world (m s)) = snd s ++ l /\ P (value (m s)) l.

(** The kinds of resource the program acquires from the OS. *)
Inductive resource : Type := ResHandle | ResPreparsed | ResDevInfo.

Section Ledger.
Variable uintptr_bits : Z.

(** What a call acquires: a device handle the program accepts as valid,
    preparsed data it accepts, a device-information set it accepts. *)
Definition acquires (k : resource) (c : oscall) : list Z :=
  match k, c with
  | ResHandle, CallCreateFileW _ _ h =>
      if Hid.valid_handle uintptr_bits h then [h] else []
  | ResPreparsed, CallGetPreparsedData _ r1 pp =>
      if (r1 =? 0) || (pp =? 0) then [] else [pp]
  | ResDevInfo, CallGetClassDevs h =>
      if (h =? 0) || (h =? Hid.InvalidHandle uintptr_bits) then [] else [h]
  | _, _ => []
  end.

(** What a call releases. *)
Definition releases (k : resource) (c : oscall) : list Z :=
  match k, c with
  | ResHandle, CallCloseHandle h => [h]
  | ResPreparsed, CallFreePreparsedData pp => [pp]
  | ResDevInfo, CallDestroyDeviceInfoList h => [h]
  | _, _ => []
  end.

Definition acquired (k : resource) (l : list oscall) : list Z :=
  flat_map (acquires k) l.

Definition released (k : resource) (l : list oscall) : list Z :=
  flat_map (releases k) l.

(** Everything acquired is released, kind by kind and in the same order. *)
Definition balanced (l : list oscall) : Prop :=
  forall k, acquired k l = released k l.

(** Balanced, with no device-information set acquired: what holds of the
    calls made between [SetupDiGetClassDevsW] and
    [SetupDiDestroyDeviceInfoList]. *)
Definition balanced_inside (l : list oscall) : Prop :=
  balanced l /\ acquired ResDevInfo l = [].
End Ledger.

(** A call the enumeration may make: a device is opened with no access
    right, and no feature report is read or written. *)
Definition query_only (c : oscall) : Prop :=
  match c with
  | CallCreateFileW _ access _ => access = 0
  | CallSetFeature _ _ _ | CallGetFeature _ _ _ | CallSleep _ => False
  | _ => True
  end.

(** A call the selection may make: no feature report is written. *)
Definition no_write (c : oscall) : Prop :=
  match c with
  | CallSetFeature _ _ _ => False
  | _ => True
  end.

(** ** Vocabulary of the statements about the configuration file *)

(** A string of decimal digits, and the number it denotes. *)
Fixpoint digits_only (s : string) : bool :=
  match s with
  | EmptyString => true
  | String ch s' =>
      (48 <=? Z.of_nat (nat_of_ascii ch)) && (Z.of_nat (nat_of_ascii ch) <=? 57)
      && digits_only s'
  end.

Fixpoint decimal_from (s : string) (n : Z) : Z :=
  match s with
  | EmptyString => n
  | String ch s' => decimal_from s' (n * 10 + (Z.of_nat (nat_of_ascii ch) - 48))
  end.

Definition decimal_value (s : string) : Z := decimal_from s 0.

Definition supported_rate (p : PollingRate) : Prop :=
  p = 1000 \/ p = 2000 \/ p = 4000.

Definition known_mode (m : PerfMode) : Prop :=
  m = PerfCompetitiveMSOff \/ m = PerfStandardMSOff \/
  m = PerfCompetitiveMSOn \/ m = PerfStandardMSOn.

(** What [loadConfig] guarantees of a configuration. *)
Definition valid_config (cfg : Config) : Prop :=
  supported_rate (HitPoll cfg) /\ supported_rate (DefaultPoll cfg) /\
  known_mode (HitMode cfg) /\ known_mode (DefaultMode cfg) /\
  (forall k, map_has k (WhitelistSet cfg) = true <-> In k (Whitelist cfg)).

Module Lines.
Section LineKinds.
Variable TrimSpace : string -> string.
Variable ToLower : string -> string.

(** A blank line or a comment. *)
Definition skipped_line (text : string) : bool :=
  String.eqb (TrimSpace text) EmptyString || HasPrefix (TrimSpace text) "#".

(** A [key=value] line: the key and the value [loadConfig] reads from it. *)
Definition setting_of (text : string) : option (string * string) :=
  let line := TrimSpace text in
  if skipped_line text then None
  else if 0 <? IndexByte line "=" then
    Some (ToLower (TrimSpace (slice line 0 (IndexByte line "="))),
          TrimSpace (slice_from line (IndexByte line "=" + 1)))
  else None.

(** A whitelist line: not skipped and with no [=] after its first byte. *)
Definition whitelist_line (text : string) : bool :=
  negb (skipped_line text) && negb (0 <? IndexByte (TrimSpace text) "=").

(** A line that sets [key]. *)
Definition sets_key (key : string) (text : string) : bool :=
  match setting_of text with
  | Some (k, _) => String.eqb k key
  | None => false
  end.
End LineKinds.
End Lines.

(** ASCII white space trimmed at both ends: the restriction of
    [strings.TrimSpace] to ASCII strings. *)
Definition ascii_space (c : ascii) : bool :=
  let n := nat_of_ascii c in
  ((9 <=? n) && (n <=? 13))%nat || (n =? 32)%nat.

Fixpoint trim_left (s : string) : string :=
  match s with
  | EmptyString => EmptyString
  | String c s' => if ascii_space c then trim_left s' else s
  end.

Fixpoint trim_right (s : string) : string :=
  match s with
  | EmptyString => EmptyString
  | String c s' =>
      match trim_right s' with
      | EmptyString => if ascii_space c then EmptyString else String c EmptyString
      | t => String c t
      end
  end.

Definition ascii_TrimSpace (s : string) : string := trim_right (trim_left s).

(** [filepath.Base] on Windows, for a path with a drive-letter volume or
    none: trailing separators are dropped, then the volume, then everything
    up to the last separator. *)
Definition is_separator (c : ascii) : bool :=
  Ascii.eqb c "\" || Ascii.eqb c "/".

Fixpoint strip_trailing_separators (s : string) : string :=
  match s with
  | EmptyString => EmptyString
  | String c s' =>
      match strip_trailing_separators s' with
      | EmptyString => if is_separator c then EmptyString else String c EmptyString
      | t => String c t
      end
  end.

Definition is_letter (c : ascii) : bool :=
  let n := nat_of_ascii c in
  ((65 <=? n) && (n <=? 90))%nat || ((97 <=? n) && (n <=? 122))%nat.

Definition strip_volume (s : string) : string :=
  match s with
  | String d (String colon rest) =>
      if is_letter d && Ascii.eqb colon ":" then rest else s
  | _ => s
  end.

Fixpoint last_element (s acc : string) : string :=
  match s with
  | EmptyString => acc
  | String c s' =>
      if is_separator c then last_element s' EmptyString
      else last_element s' (String.append acc (String c EmptyString))
  end.

Definition win_Base (path : string) : string :=
  if String.eqb path EmptyString then "."
  else
    let path := last_element (strip_volume (strip_trailing_separators path)) EmptyString in
    if String.eqb path EmptyString then "\" else path.

(** The keys [loadConfig] knows. *)
Definition known_key (k : string) : bool :=
  String.eqb k "interval_seconds" || String.eqb k "hit_mode" ||
  String.eqb k "hit_poll" || String.eqb k "default_mode" ||
  String.eqb k "default_poll".

(** A line [loadConfig] passes over: blank, a comment, or a setting with a
    key it does not know. *)
Definition ignored_line (TrimSpace ToLower : string -> string) (text : string) : bool :=
  Lines.skipped_line TrimSpace text ||
  match Lines.setting_of TrimSpace ToLower text with
  | Some (k, _) => negb (known_key k)
  | None => false
  end.

(** The five settings of the file: the key of each, the field it is kept in
    (modes as their protocol byte), and the value [loadConfig] stores for the
    text after the [=]. *)
Inductive setting : Type :=
| SInterval | SHitMode | SHitPoll | SDefaultMode | SDefaultPoll.

Definition setting_key (st : setting) : string :=
  match st with
  | SInterval => "interval_seconds"
  | SHitMode => "hit_mode"
  | SHitPoll => "hit_poll"
  | SDefaultMode => "default_mode"
  | SDefaultPoll => "default_poll"
  end.

Definition mode_code (m : PerfMode) : Z := Z.of_N (Byte.to_N m).

Definition setting_field (st : setting) (cfg : Config) : Z :=
  match st with
  | SInterval => Interval cfg
  | SHitMode => mode_code (HitMode cfg)
  | SHitPoll => HitPoll cfg
  | SDefaultMode => mode_code (DefaultMode cfg)
  | SDefaultPoll => DefaultPoll cfg
  end.

Definition setting_stored (TrimSpace ToLower : string -> string) (int_bits : Z)
  (st : setting) (val : string) : Z :=
  match st with
  | SInterval => Cfg.wrap_int64 (fst (Cfg.parseInt TrimSpace int_bits val) * Second)
  | SHitMode | SDefaultMode => mode_code (fst (Cfg.parsePerf TrimSpace ToLower val))
  | SHitPoll | SDefaultPoll => fst (Cfg.parseInt TrimSpace int_bits val)
  end.

(** The settings [tickOnce] wants for a foreground process name. *)
Definition wanted (cfg : Config) (proc : string) : PerfMode * PollingRate :=
  if map_has proc (WhitelistSet cfg)
  then (HitMode cfg, HitPoll cfg)
  else (DefaultMode cfg, DefaultPoll cfg).

(** A simulated file system and foreground window, beside the simulated
    devices. *)
Module SimApp.

Record Desktop : Type := {
  files      : list (string * (Z * list string));   (* path, mtime, lines *)
  foreground : option string                        (* image path of the foreground process *)
}.

Definition ENOENT : Z := 2.

Fixpoint lookup_file (path : string) (fs : list (string * (Z * list string)))
  : option (Z * list string) :=
  match fs with
  | [] => None
  | (p, f) :: fs' => if String.eqb p path then Some f else lookup_file path fs'
  end.

Definition fs (d : Desktop) : FSLayer nat := {|
  os_Stat := fun path n =>
    (match lookup_file path (files d) with
     | Some f => (fst f, None)
     | None => (0, Some ENOENT)
     end, n);
  os_Open_Scan := fun path n =>
    (match lookup_file path (files d) with
     | Some f => ((snd f, None), None)
     | None => (([], None), Some ENOENT)
     end, n);
  os_IsNotExist := fun code => code =? ENOENT
|}.

Definition user (d : Desktop) : UserLayer nat := {|
  GetForegroundWindow := fun n =>
    (match foreground d with Some _ => 0x10A2 | None => 0 end, n);
  GetWindowThreadProcessId := fun _ n => (4242, n);
  OpenProcess := fun _ _ _ n => ((0x2C8, 0), n);
  CloseHandleFG := fun _ n => n;
  QueryFullProcessImageNameW := fun _ _ n =>
    (match foreground d with
     | Some name => ((1, name), 0)
     | None => ((0, EmptyString), 6)
     end, n)
|}.

Definition int_bits : Z := 64.

(** The text of a device error, as far as the examples need it. *)
Definition Error (e : error) : string :=
  match e with
  | ErrNoDevice => "no VAXEE HID device found"
  | ErrNoControlChannel => "no VAXEE top-level collection accepts Feature ReportID=0x0e"
  | _ => "device error"
  end.

Definition parseInt := Cfg.parseInt ascii_TrimSpace int_bits.
Definition parsePerf := Cfg.parsePerf ascii_TrimSpace ascii_ToLower.
Definition config_lines := Cfg.config_lines ascii_TrimSpace ascii_ToLower win_Base int_bits.

Definition loadConfig (d : Desktop) :=
  App.loadConfig (fs d) ascii_TrimSpace ascii_ToLower win_Base int_bits.
Definition reloadConfigIfChanged (d : Desktop) :=
  App.reloadConfigIfChanged (fs d) ascii_TrimSpace ascii_ToLower win_Base int_bits.
Definition tickOnce (sys : Sim.System) (d : Desktop) :=
  App.tickOnce (Sim.os sys) (user d) ascii_ToLower win_Base Sim.bits.
Definition mainTurn (sys : Sim.System) (d : Desktop) :=
  App.mainTurn (Sim.os sys) (fs d) (user d) ascii_TrimSpace ascii_ToLower win_Base
    Error int_bits Sim.bits.

(** A configuration file: 30 seconds, whitelisted games at 4000 Hz. *)
Definition conf_lines : list string :=
  ["# VAXEE AutoSwitch"; "";
   "interval_seconds = 30";
   "hit_mode=Competitive_MS_On";
   "hit_poll=2000";
   "hit_poll=4000";
   "volume=11";
   "cs2.exe";
   "C:\Games\Valorant.EXE"]%string.

Definition conf_path : string := "C:\vaxee\vaxee_autoswitch.conf".

Definition conf : Config :=
  {| Interval := 30 * Second;
     HitMode := PerfCompetitiveMSOn; HitPoll := 4000;
     DefaultMode := PerfStandardMSOff; DefaultPoll := 1000;
     Whitelist := ["cs2.exe"; "valorant.exe"]%string;
     WhitelistSet := ["cs2.exe"; "valorant.exe"]%string;
     ConfigPath := conf_path |}.

Definition desk_game : Desktop :=
  {| files := [(conf_path, (1700, conf_lines))];
     foreground := Some "C:\Program Files\Steam\CS2.exe"%string |}.

Definition desk_idle : Desktop :=
  {| files := [(conf_path, (1700, conf_lines))]; foreground := None |}.

(** The configuration file replaced by one with an unsupported rate. *)
Definition desk_bad : Desktop :=
  {| files := [(conf_path, (1800, ["hit_poll=500"]%string))];
     foreground := Some "C:\Windows\explorer.exe"%string |}.

End SimApp.

(** A property [I] of call lists that the calls of a computation keep. *)
Definition keeps {W A} (I : list oscall -> Prop) (m : M (W * list oscall) A) : Prop :=
  makes m (fun _ l => I l).

(** * Properties *)

(** ** Go strings: what the boolean tests decide *)

Section StringFacts.
Local Open Scope string_scope.

Lemma HasPrefix_iff (s p : string) :
  HasPrefix s p = true <-> exists post, s = p ++ post.
Proof.
  unfold HasPrefix. revert s.
  induction p as [|c p IH]; intro s; cbn.
  - split; [intros _; exists s; reflexivity|]. now destruct s.
  - destruct s as [|c' s]; cbn.
    + split; [discriminate | intros (post & H); discriminate].
    + destruct (ascii_dec c c') as [->|N].
      * rewrite IH. split; intros (post & H); exists post; congruence.
      * split; [discriminate | intros (post & H); congruence].
Qed.

(** [Contains s sub] holds exactly when [sub] occurs in [s]. *)
Lemma Contains_iff (s sub : string) :
  Contains s sub = true <-> exists pre post, s = pre ++ sub ++ post.
Proof.
  induction s as [|c s IH]; cbn [Contains]; rewrite orb_true_iff, HasPrefix_iff.
  - split.
    + intros [(post & H) | H]; [|discriminate]. exists EmptyString, post. exact H.
    + intros (pre & post & H). left. destruct pre; [exists post; exact H|discriminate].
  - rewrite IH. split.
    + intros [(post & H) | (pre & post & H)].
      * exists EmptyString, post. exact H.
      * exists (String c pre), post. cbn. now rewrite H.
    + intros (pre & post & H). destruct pre as [|c' pre].
      * left. exists post. exact H.
      * right. exists pre, post. cbn in H. congruence.
Qed.

Lemma substring_all (s : string) : substring 0 (String.length s) s = s.
Proof. induction s as [|c s IH]; cbn; [reflexivity | now rewrite IH]. Qed.

Lemma substring_after (pre suf : string) :
  substring (String.length pre) (String.length suf) (pre ++ suf) = suf.
Proof. induction pre as [|c pre IH]; cbn; [apply substring_all | exact IH]. Qed.

Lemma substring_split (s : string) : forall n,
  (n <= String.length s)%nat ->
  s = substring 0 n s ++ substring n (String.length s - n) s.
Proof.
  induction s as [|c s IH]; intros [|n] H; cbn in *; try reflexivity; try lia.
  - now rewrite substring_all.
  - f_equal. apply IH. lia.
Qed.

Lemma length_append (a b : string) :
  String.length (a ++ b) = (String.length a + String.length b)%nat.
Proof. induction a as [|c a IH]; cbn; [reflexivity | now rewrite IH]. Qed.

(** [HasSuffix s suf] holds exactly when [s] ends with [suf]. *)
Lemma HasSuffix_iff (s suf : string) :
  HasSuffix s suf = true <-> exists pre, s = pre ++ suf.
Proof.
  unfold HasSuffix. rewrite andb_true_iff, Nat.leb_le, String.eqb_eq. split.
  - intros (L & E).
    exists (substring 0 (String.length s - String.length suf) s).
    pose proof (@substring_split s (String.length s - String.length suf)) as S.
    replace (String.length s - (String.length s - String.length suf))%nat
      with (String.length suf) in S by lia.
    rewrite E in S. apply S. lia.
  - intros (pre & ->). rewrite length_append. split; [lia|].
    replace (String.length pre + String.length suf - String.length suf)%nat
      with (String.length pre) by lia.
    apply substring_after.
Qed.

Lemma ascii_ToLower_app (a b : string) :
  ascii_ToLower (a ++ b) = ascii_ToLower a ++ ascii_ToLower b.
Proof. induction a as [|c a IH]; cbn; [reflexivity | now rewrite IH]. Qed.

Lemma ascii_ToLower_split (s : string) : forall a b,
  ascii_ToLower s = a ++ b ->
  exists sa sb, s = sa ++ sb /\ ascii_ToLower sa = a /\ ascii_ToLower sb = b.
Proof.
  induction s as [|c s IH]; intros a b H.
  - destruct a; [|discriminate]. cbn in H. subst b.
    exists EmptyString, EmptyString. auto.
  - destruct a as [|c' a]; cbn in H.
    + exists EmptyString, (String c s). subst b. auto.
    + injection H as Hc H. destruct (IH _ _ H) as (sa & sb & -> & Ha & Hb).
      exists (String c sa), sb. cbn. rewrite Ha, Hc. auto.
Qed.

(** On ASCII strings the filter is containment up to letter case: the
    lower-cased string contains [sub] exactly when the string has a piece
    whose lower-casing is [sub]. *)
Lemma ascii_fold_Contains (s sub : string) :
  Contains (ascii_ToLower s) sub = true <->
  exists pre u post, s = pre ++ u ++ post /\ ascii_ToLower u = sub.
Proof.
  rewrite Contains_iff. split.
  - intros (pre & post & H).
    apply ascii_ToLower_split in H. destruct H as (sa & sb & -> & _ & H).
    apply ascii_ToLower_split in H. destruct H as (u & sc & -> & Hu & _).
    exists sa, u, sc. auto.
  - intros (pre & u & post & -> & <-).
    exists (ascii_ToLower pre), (ascii_ToLower post).
    now rewrite !ascii_ToLower_app.
Qed.
End StringFacts.

(** ** Report codec *)

Lemma store_length (i : nat) (v : byte) (buf : list byte) :
  List.length (store i v buf) = List.length buf.
Proof.
  revert i; induction buf as [|b tl IH]; intros [|i]; simpl; auto.
Qed.

Lemma make_length (n : Z) : List.length (make n) = Z.to_nat n.
Proof. apply repeat_length. Qed.

(** The six stores fill the head of the buffer; the rest stays zero. *)
Lemma buildReportSized_eq (total : Z) (cmd val : byte) :
  buildReportSized total cmd val =
  [ReportID; xa5; cmd; x02; x01; val] ++ repeat x00 (Z.to_nat (Z.max total 6) - 6).
Proof.
  unfold buildReportSized, make.
  assert (E : (if total <? 6 then 6 else total) = Z.max total 6).
  { destruct (Z.ltb_spec total 6); lia. }
  rewrite E.
  assert (H : exists k, Z.to_nat (Z.max total 6) = (6 + k)%nat).
  { exists (Z.to_nat (Z.max total 6) - 6)%nat. lia. }
  destruct H as [k Hk]. rewrite Hk.
  replace (6 + k - 6)%nat with k by lia.
  reflexivity.
Qed.

Lemma buildReportSized_length (total : Z) (cmd val : byte) :
  List.length (buildReportSized total cmd val) = Z.to_nat (Z.max total 6).
Proof.
  rewrite buildReportSized_eq, length_app, repeat_length. simpl. lia.
Qed.

(** C2, as the code has it: [buildReportSized total cmd val] has length
    [max total 6]; byte 0 is the report ID 0x0e, bytes 1, 3 and 4 are the
    constants 0xa5, 0x02 and 0x01, byte 2 is [cmd], byte 5 is [val], and every
    byte beyond index 5 is zero. *)
Theorem buildReportSized_layout (total : Z) (cmd val : byte) :
  let buf := buildReportSized total cmd val in
  List.length buf = Z.to_nat (Z.max total 6) /\
  nth_error buf 0 = Some x0e /\
  nth_error buf 1 = Some xa5 /\
  nth_error buf 2 = Some cmd /\
  nth_error buf 3 = Some x02 /\
  nth_error buf 4 = Some x01 /\
  nth_error buf 5 = Some val /\
  forall i : nat, (5 < i < List.length buf)%nat -> nth_error buf i = Some x00.
Proof.
  intro buf. split; [apply buildReportSized_length|].
  pose proof (buildReportSized_length total cmd val) as L. fold buf in L.
  subst buf. rewrite buildReportSized_eq in *.
  repeat (split; [reflexivity|]).
  intros i [Hlo Hhi].
  rewrite length_app, repeat_length in Hhi. simpl in Hhi.
  rewrite nth_error_app2 by (simpl; lia). simpl List.length.
  rewrite nth_error_repeat; [reflexivity | lia].
Qed.

Lemma buildReportSized_layout_witness :
  List.length (buildReportSized 20 x08 x01) = 20%nat /\
  nth_error (buildReportSized 20 x08 x01) 2 = Some x08 /\
  nth_error (buildReportSized 20 x08 x01) 19 = Some x00.
Proof.
  pose proof (buildReportSized_layout 20 x08 x01) as H. cbv zeta in H.
  destruct H as (HL & _ & _ & H2 & _ & _ & _ & Hz).
  split; [exact HL|]. split; [exact H2|].
  apply Hz. rewrite HL. simpl. lia.
Defined.

(** C2, as stated, fails: bytes 1 through 4 are not the same for every
    command, since byte 2 carries the command. *)
Lemma buildReportSized_header_not_constant :
  ~ (exists h1 h2 h3 h4 : byte,
       forall (total : Z) (cmd val : byte),
         let buf := buildReportSized total cmd val in
         nth_error buf 1 = Some h1 /\ nth_error buf 2 = Some h2 /\
         nth_error buf 3 = Some h3 /\ nth_error buf 4 = Some h4).
Proof.
  intros (h1 & h2 & h3 & h4 & H).
  destruct (H 6 x08 x00) as (_ & A & _).
  destruct (H 6 x07 x00) as (_ & B & _).
  simpl in A, B. congruence.
Qed.

(** ** Polling-rate table *)

(** C4: [pollingToYY] maps 1000 to 0x02, 2000 to 0x03 and 4000 to 0x04, fails
    with the unsupported-rate error on every other integer, and so succeeds
    exactly on the three rates. *)
Theorem pollingToYY_table :
  pollingToYY 1000 = (x02, None) /\
  pollingToYY 2000 = (x03, None) /\
  pollingToYY 4000 = (x04, None) /\
  (forall p : PollingRate,
      p <> 1000 -> p <> 2000 -> p <> 4000 ->
      pollingToYY p = (x00, Some (ErrUnsupportedRate p))) /\
  (forall p : PollingRate,
      snd (pollingToYY p) = None <-> p = 1000 \/ p = 2000 \/ p = 4000).
Proof.
  repeat (split; [reflexivity|]).
  assert (U : forall p, p <> 1000 -> p <> 2000 -> p <> 4000 ->
                        pollingToYY p = (x00, Some (ErrUnsupportedRate p))).
  { intros p H1 H2 H3. unfold pollingToYY, Poll1000, Poll2000, Poll4000.
    destruct (Z.eqb_spec p 1000); [contradiction|].
    destruct (Z.eqb_spec p 2000); [contradiction|].
    destruct (Z.eqb_spec p 4000); [contradiction|]. reflexivity. }
  split; [exact U|].
  intros p. split.
  - intros H.
    destruct (Z.eq_dec p 1000); [auto|].
    destruct (Z.eq_dec p 2000); [auto|].
    destruct (Z.eq_dec p 4000); [auto|].
    rewrite U in H by assumption. discriminate.
  - intros [-> | [-> | ->]]; reflexivity.
Qed.

Lemma pollingToYY_table_witness :
  pollingToYY 500 = (x00, Some (ErrUnsupportedRate 500)) /\
  snd (pollingToYY 2000) = None.
Proof.
  destruct pollingToYY_table as (_ & _ & _ & U & S).
  split.
  - apply U; discriminate.
  - apply S. right. left. reflexivity.
Defined.

(** ** Which computations emit events *)

Section Silent.
Variable W : Type.

(** A computation that records nothing. *)
Definition silent {A} (m : M W A) : Prop := forall w, emitted (m w) = [].

Lemma value_bind {A B} (m : M W A) (k : A -> M W B) w :
  value (bind m k w) = value (k (value (m w)) (world (m w))).
Proof. reflexivity. Qed.

Lemma world_bind {A B} (m : M W A) (k : A -> M W B) w :
  world (bind m k w) = world (k (value (m w)) (world (m w))).
Proof. reflexivity. Qed.

Lemma emitted_bind {A B} (m : M W A) (k : A -> M W B) w :
  emitted (bind m k w) = emitted (m w) ++ emitted (k (value (m w)) (world (m w))).
Proof. reflexivity. Qed.

Lemma silent_ret {A} (a : A) : silent (ret a).
Proof. intro w; reflexivity. Qed.

Lemma silent_call {A} (f : W -> A * W) : silent (call f).
Proof. intro w; reflexivity. Qed.

Lemma silent_call_ (f : W -> W) : silent (call_ f).
Proof. intro w; reflexivity. Qed.

Lemma silent_bind {A B} (m : M W A) (k : A -> M W B) :
  silent m -> (forall a, silent (k a)) -> silent (bind m k).
Proof.
  intros Hm Hk w. unfold bind; simpl. rewrite Hm, Hk. reflexivity.
Qed.

Lemma silent_if {A} (b : bool) (m1 m2 : M W A) :
  silent m1 -> silent m2 -> silent (if b then m1 else m2).
Proof. destruct b; auto. Qed.

Lemma silent_match_err {A} (e : option error) (k : error -> M W A) (m : M W A) :
  (forall err, silent (k err)) -> silent m ->
  silent (match e with Some err => k err | None => m end).
Proof. destruct e; auto. Qed.
End Silent.

Create HintDb silent.
#[local] Hint Resolve silent_ret silent_call silent_call_ silent_if
  silent_match_err : silent.
#[local] Hint Extern 2 (silent (bind _ _)) =>
  apply silent_bind; [ | intro ] : silent.

Ltac silence := unfold Hid.lastErrno, Hid.closeHandle; auto 20 with silent.

Section Traces.
Variable W : Type.
Variable os : OSLayer W.
Variable ToLower : string -> string.
Variable uintptr_bits : Z.

Abbreviation openHIDPath := (Hid.openHIDPath os uintptr_bits).
Abbreviation openHIDPathForQuery := (Hid.openHIDPathForQuery os uintptr_bits).
Abbreviation getFeature := (Hid.getFeature os uintptr_bits).
Abbreviation sendFeatureReport := (Hid.sendFeatureReport os uintptr_bits).
Abbreviation queryDeviceInfo := (Hid.queryDeviceInfo os uintptr_bits).
Abbreviation enum_loop := (Hid.enum_loop os ToLower uintptr_bits).
Abbreviation EnumerateVaxeeDevices := (Hid.EnumerateVaxeeDevices os ToLower uintptr_bits).
Abbreviation probe_loop := (Hid.probe_loop os uintptr_bits).
Abbreviation SelectVaxeeControlPath := (Hid.SelectVaxeeControlPath os ToLower uintptr_bits).
Abbreviation FindOneVaxeeDevice := (Hid.FindOneVaxeeDevice os ToLower uintptr_bits).
Abbreviation ApplyVaxeeSetting := (Hid.ApplyVaxeeSetting os ToLower uintptr_bits).

Lemma openHIDPath_silent path : silent (openHIDPath path).
Proof. unfold Hid.openHIDPath. silence. Qed.

Lemma openHIDPathForQuery_silent path : silent (openHIDPathForQuery path).
Proof. unfold Hid.openHIDPathForQuery. silence. Qed.

Lemma sendFeatureReport_body_silent path report :
  silent (Hid.sendFeatureReport_body os uintptr_bits path report).
Proof.
  unfold Hid.sendFeatureReport_body.
  pose proof (openHIDPath_silent path). silence.
Qed.

Lemma getFeature_body_silent path rid len :
  silent (Hid.getFeature_body os uintptr_bits path rid len).
Proof.
  unfold Hid.getFeature_body.
  pose proof (openHIDPath_silent path). silence.
Qed.

Lemma hidGetString_silent h proc : silent (Hid.hidGetString (W:=W) h proc).
Proof. unfold Hid.hidGetString. silence. Qed.

Lemma queryCaps_silent h : silent (Hid.queryCaps os h).
Proof. unfold Hid.queryCaps. silence. Qed.

Lemma queryDeviceInfo_silent path : silent (queryDeviceInfo path).
Proof.
  unfold Hid.queryDeviceInfo.
  pose proof (openHIDPathForQuery_silent path).
  pose proof hidGetString_silent. pose proof queryCaps_silent.
  silence.
Qed.

Lemma enum_loop_silent rest : forall out, silent (enum_loop rest out).
Proof.
  induction rest as [|i rest IH]; intro out; simpl.
  - silence.
  - pose proof (queryDeviceInfo_silent (DevicePath i)). silence.
Qed.

Lemma EnumerateVaxeeDevices_silent : silent EnumerateVaxeeDevices.
Proof.
  unfold Hid.EnumerateVaxeeDevices.
  pose proof enum_loop_silent. silence.
Qed.

(** Each call of [getFeature] records exactly one event, with its result. *)
Lemma getFeature_emitted path rid len w :
  emitted (getFeature path rid len w) =
  [EvGetFeature path rid len (snd (value (getFeature path rid len w)))].
Proof.
  unfold Hid.getFeature, bind, emit, ret; cbn.
  rewrite getFeature_body_silent. reflexivity.
Qed.

(** Each call of [sendFeatureReport] records exactly one event, with its result. *)
Lemma sendFeatureReport_emitted path report w :
  emitted (sendFeatureReport path report w) =
  [EvSendFeatureReport path report (value (sendFeatureReport path report w))].
Proof.
  unfold Hid.sendFeatureReport, bind, emit, ret; cbn.
  rewrite sendFeatureReport_body_silent. reflexivity.
Qed.

(** *** Probe order *)

Abbreviation is_kbd := (Hid.is_kbd ToLower).
Abbreviation probe_order := (Hid.probe_order ToLower).

Lemma order_others_filter ds : forall acc,
  Hid.order_others ToLower ds acc = acc ++ filter (fun d => negb (is_kbd d)) ds.
Proof.
  induction ds as [|d ds IH]; intro acc; simpl.
  - now rewrite app_nil_r.
  - destruct (is_kbd d); simpl; rewrite IH; [reflexivity|].
    now rewrite <- app_assoc.
Qed.

Lemma order_kbd_filter ds : forall acc,
  Hid.order_kbd ToLower ds acc = acc ++ filter is_kbd ds.
Proof.
  induction ds as [|d ds IH]; intro acc; simpl.
  - now rewrite app_nil_r.
  - destruct (is_kbd d); simpl; rewrite IH; [|reflexivity].
    now rewrite <- app_assoc.
Qed.

(** The probe order is every non-keyboard candidate, then every keyboard one,
    each group in enumeration order. *)
Lemma probe_order_partition ds :
  probe_order ds = filter (fun d => negb (is_kbd d)) ds ++ filter is_kbd ds.
Proof.
  unfold Hid.probe_order. now rewrite order_kbd_filter, order_others_filter.
Qed.

Lemma probe_order_In ds d : In d (probe_order ds) <-> In d ds.
Proof.
  rewrite probe_order_partition, in_app_iff, !filter_In.
  destruct (is_kbd d); simpl; intuition congruence.
Qed.

Lemma probe_order_nil ds : probe_order ds = [] -> ds = [].
Proof.
  intro H. destruct ds as [|d ds]; [reflexivity|].
  assert (I : In d (probe_order (d :: ds))) by (apply probe_order_In; now left).
  rewrite H in I. destruct I.
Qed.

(** *** The probe loop *)

(** The loop probes a prefix of its candidates, in order; it either stops at
    the first probe that succeeds and returns that candidate, or probes them
    all without success. *)
Lemma probe_loop_spec order : forall w,
  exists tried rest,
    order = map fst tried ++ rest /\
    emitted (probe_loop order w) = probes tried /\
    ((exists fails d,
         tried = fails ++ [(d, None)] /\ Forall failed fails /\
         value (probe_loop order w) = (d, None))
     \/
     (rest = [] /\ Forall failed tried /\
      value (probe_loop order w) = (zeroDeviceInfo, Some ErrNoControlChannel))).
Proof.
  induction order as [|d order IH]; intro w.
  - exists [], []. repeat split. right. repeat split. constructor.
  - cbn [Hid.probe_loop]. rewrite emitted_bind, value_bind, getFeature_emitted.
    remember (getFeature (Path d) ReportID (Hid.probe_length d) w) as g eqn:Hg.
    destruct (snd (value g)) as [err|] eqn:E; simpl.
    + destruct (IH (world g)) as (tried & rest & Ho & Ht & Hr).
      exists ((d, Some err) :: tried), rest. split; [simpl; now rewrite Ho|].
      split; [simpl; now rewrite Ht|].
      destruct Hr as [(fails & d' & Htr & Hf & Hv) | (Hrest & Hf & Hv)].
      * left. exists ((d, Some err) :: fails), d'. rewrite Htr. repeat split; auto.
        constructor; [unfold failed; simpl; discriminate | assumption].
      * right. repeat split; auto.
        constructor; [unfold failed; simpl; discriminate | assumption].
    + exists [(d, None)], order. repeat split.
      left. exists [], d. repeat split. constructor.
Qed.

(** *** Device queries *)

Lemma hidGetString_field h (proc : Z -> W -> (Z * string) * W) w :
  string_field proc (value (Hid.hidGetString h proc w)).
Proof.
  unfold Hid.hidGetString. rewrite value_bind. cbn [call value world].
  destruct (fst (fst (proc h w)) =? 0) eqn:E.
  - left. reflexivity.
  - right. exists h, w. split; [now apply Z.eqb_neq | reflexivity].
Qed.

Lemma queryCaps_cases h w :
  (snd (value (Hid.queryCaps os h w)) <> None) \/
  (snd (value (Hid.queryCaps os h w)) = None /\
   exists pp w0,
     fst (fst (HidP_GetCaps os pp w0)) mod 2 ^ 32 = HIDP_STATUS_SUCCESS /\
     fst (value (Hid.queryCaps os h w)) = snd (fst (HidP_GetCaps os pp w0))).
Proof.
  unfold Hid.queryCaps. rewrite value_bind. cbn [call value world].
  destruct ((fst (fst (HidD_GetPreparsedData os h w)) =? 0)
            || (snd (fst (HidD_GetPreparsedData os h w)) =? 0)).
  - left. cbn. discriminate.
  - rewrite !value_bind. cbn [call call_ ret value world].
    match goal with
    | |- context [HidP_GetCaps os ?pp ?w0] =>
        destruct (fst (fst (HidP_GetCaps os pp w0)) mod 2 ^ 32 =? HIDP_STATUS_SUCCESS) eqn:E;
        [right; split; [reflexivity|]; exists pp, w0;
         split; [now apply Z.eqb_eq | reflexivity]
        | left; cbn; discriminate]
    end.
Qed.

(** A descriptor that [queryDeviceInfo] delivers carries the path it was
    asked about, and fields that the OS answered or that are empty or zero. *)
Lemma queryDeviceInfo_described path w :
  snd (value (queryDeviceInfo path w)) = true ->
  described os path (fst (value (queryDeviceInfo path w))).
Proof.
  unfold Hid.queryDeviceInfo. rewrite value_bind.
  destruct (snd (value (openHIDPathForQuery path w))); [cbn; discriminate|].
  rewrite !value_bind. cbn [call call_ ret value world Hid.closeHandle].
  match goal with
  | |- context [if ?c then _ else _] => destruct c; [cbn; discriminate|]
  end.
  rewrite !value_bind, ?world_bind.
  match goal with
  | |- context [Hid.queryCaps os ?h ?w0] =>
      pose proof (queryCaps_cases h w0) as HC;
      destruct (snd (value (Hid.queryCaps os h w0))) eqn:EC
  end.
  - intros _. cbn [ret value fst]. unfold described, caps_fields.
    cbn [Path Manufacturer Product UsagePage Usage FeatureLen fst snd].
    repeat split; try apply hidGetString_field. left. auto.
  - intros _. cbn [ret value fst]. unfold described, caps_fields.
    cbn [Path Manufacturer Product UsagePage Usage FeatureLen fst snd].
    repeat split; try apply hidGetString_field.
    destruct HC as [HC | (_ & pp & w0 & Hst & Hc)]; [congruence|].
    right. exists pp, w0. rewrite Hc. auto.
Qed.

(** *** The enumeration loop *)

Lemma bind_silent {A B} (m : M W A) (k : A -> M W B) w :
  silent m -> bind m k w = k (value (m w)) (world (m w)).
Proof.
  intro Hm. unfold bind. rewrite Hm. simpl.
  now destruct (k (value (m w)) (world (m w))).
Qed.

(** The loop by index: at index [idx] it sees the members from [idx] on; past
    the end of the set it returns, and otherwise it handles member [idx] and
    goes on from [idx + 1]. *)
Lemma enum_loop_index (set : list DeviceInterface) (idx : nat) out w :
  match nth_error set idx with
  | None => enum_loop (skipn idx set) out w = ret out w
  | Some i => skipn idx set = i :: skipn (S idx) set
  end.
Proof.
  revert idx. induction set as [|i set IH]; intros [|idx]; cbn [nth_error skipn];
    try reflexivity.
  apply IH.
Qed.

(** One turn of the loop on a member the OS enumerates: whatever the detail
    and device queries answer, the loop goes on with the remaining members,
    with the list unchanged or one descriptor longer. *)
Lemma enum_loop_turn i rest out w :
  enum_r1 i <> 0 ->
  exists out' w',
    enum_loop (i :: rest) out w = enum_loop rest out' w' /\
    (out' = out \/
     exists d, out' = out ++ [d] /\ Hid.vendor_match ToLower d = true /\
               DevicePath i <> EmptyString /\ described os (DevicePath i) d).
Proof.
  intro Hr. cbn [Hid.enum_loop].
  destruct (enum_r1 i =? 0) eqn:E1; [apply Z.eqb_eq in E1; contradiction|].
  destruct (detail_required i =? 0); [exists out, w; auto|].
  destruct (detail_r2 i =? 0); [exists out, w; auto|].
  destruct (String.eqb_spec (DevicePath i) EmptyString) as [|Hp];
    [exists out, w; auto|].
  rewrite bind_silent by apply queryDeviceInfo_silent.
  set (q := queryDeviceInfo (DevicePath i) w).
  pose proof (queryDeviceInfo_described (DevicePath i) w) as D. fold q in D.
  destruct (snd (value q)); cbn [negb].
  - destruct (Hid.vendor_match ToLower (fst (value q))) eqn:V.
    + exists (out ++ [fst (value q)]), (world q). split; [reflexivity|].
      right. exists (fst (value q)). auto.
    + exists out, (world q). auto.
  - exists out, (world q). auto.
Qed.

(** No failure while handling the members of [l1] keeps the loop from
    handling the members of [l2] after them. *)
Lemma enum_loop_app l1 l2 : forall out w,
  Forall (fun i => enum_r1 i <> 0) l1 ->
  enum_loop (l1 ++ l2) out w =
  enum_loop l2 (value (enum_loop l1 out w)) (world (enum_loop l1 out w)).
Proof.
  induction l1 as [|i l1 IH]; intros out w H.
  - reflexivity.
  - inversion H as [|? ? Hi Hl]; subst.
    cbn [Hid.enum_loop app].
    destruct (enum_r1 i =? 0) eqn:Er; [apply Z.eqb_eq in Er; contradiction|].
    destruct (detail_required i =? 0); [now apply IH|].
    destruct (detail_r2 i =? 0); [now apply IH|].
    destruct (String.eqb (DevicePath i) EmptyString); [now apply IH|].
    rewrite !bind_silent by apply queryDeviceInfo_silent.
    destruct (negb (snd (value (queryDeviceInfo (DevicePath i) w))));
      [now apply IH|].
    destruct (Hid.vendor_match ToLower (fst (value (queryDeviceInfo (DevicePath i) w))));
      now apply IH.
Qed.

(** What the loop adds to its list: descriptors that pass the vendor filter,
    each describing a member of the set with a non-empty path. *)
Lemma enum_loop_added rest : forall out w,
  exists added,
    value (enum_loop rest out w) = out ++ added /\
    Forall (fun d => Hid.vendor_match ToLower d = true /\
                     Path d <> EmptyString /\
                     exists i, In i rest /\ described os (DevicePath i) d) added.
Proof.
  induction rest as [|i rest IH]; intros out w.
  - exists []. split; [cbn; now rewrite app_nil_r | constructor].
  - destruct (Z.eq_dec (enum_r1 i) 0) as [Hz|Hnz].
    + exists []. cbn [Hid.enum_loop]. rewrite Hz. cbn.
      split; [now rewrite app_nil_r | constructor].
    + destruct (@enum_loop_turn i rest out w Hnz) as (o' & w' & E & Ho).
      rewrite E. destruct (IH o' w') as (added & Hv & Hf).
      assert (Hf' : Forall (fun d => Hid.vendor_match ToLower d = true /\
                     Path d <> EmptyString /\
                     exists j, In j (i :: rest) /\ described os (DevicePath j) d) added).
      { eapply Forall_impl; [|exact Hf]. cbn beta.
        intros d (V & P & j & Hj & D). repeat split; auto.
        exists j. split; [now right | assumption]. }
      destruct Ho as [-> | (d & -> & V & Hp & D)].
      * exists added. auto.
      * exists (d :: added). split; [rewrite Hv, <- app_assoc; reflexivity|].
        constructor; [|assumption]. repeat split; auto.
        -- destruct D as (-> & _). assumption.
        -- exists i. split; [now left | assumption].
Qed.

(** *** Enumeration *)

Lemma EnumerateVaxeeDevices_cases w :
  if class_query_failed os uintptr_bits w
  then value (EnumerateVaxeeDevices w) =
       ([], Some (ErrClassDevs (fst (GetLastError os (snd (class_query os w))))))
  else value (EnumerateVaxeeDevices w) =
       (value (enum_loop (snd (fst (class_query os w))) [] (snd (class_query os w))),
        None).
Proof.
  unfold class_query_failed, class_query, Hid.EnumerateVaxeeDevices.
  rewrite !value_bind. cbn [call value world].
  match goal with |- if ?c then _ else _ => destruct c end.
  - reflexivity.
  - rewrite !value_bind. reflexivity.
Qed.

(** Enumerated descriptors pass the vendor filter and have a non-empty path. *)
Lemma EnumerateVaxeeDevices_members w :
  Forall (fun d => Hid.vendor_match ToLower d = true /\ Path d <> EmptyString)
         (fst (value (EnumerateVaxeeDevices w))).
Proof.
  pose proof (EnumerateVaxeeDevices_cases w) as H.
  destruct (class_query_failed os uintptr_bits w); rewrite H; cbn [fst].
  - constructor.
  - destruct (enum_loop_added (snd (fst (class_query os w))) []
                (snd (class_query os w))) as (added & -> & Hf).
    cbn [app]. eapply Forall_impl; [|exact Hf]. cbn beta. tauto.
Qed.

(** *** Selection *)

Lemma SelectVaxeeControlPath_cases w :
  let e := EnumerateVaxeeDevices w in
  match snd (value e) with
  | Some err =>
      SelectVaxeeControlPath w = Out (zeroDeviceInfo, Some err) (world e) []
  | None =>
      match fst (value e) with
      | [] => SelectVaxeeControlPath w =
              Out (zeroDeviceInfo, Some ErrNoDevice) (world e) []
      | _ :: _ => SelectVaxeeControlPath w =
                  probe_loop (probe_order (fst (value e))) (world e)
      end
  end.
Proof.
  intro e. unfold Hid.SelectVaxeeControlPath.
  rewrite bind_silent by apply EnumerateVaxeeDevices_silent. fold e.
  destruct (snd (value e)); [reflexivity|].
  destruct (fst (value e)); reflexivity.
Qed.

(** *** Applying a setting *)

Lemma sleep_emitted d w : emitted (Hid.sleep os d w) = [EvSleep d].
Proof. reflexivity. Qed.

(** [ApplyVaxeeSetting] records the events of the re-resolution, then the
    events of one run of the send sequence, on the resolved path when there is
    one and on the caller's path otherwise, with the resolved descriptor's
    report length or 64. *)
Lemma ApplyVaxeeSetting_run path perf poll w :
  let f := FindOneVaxeeDevice w in
  let dev := fst (value f) in
  let p := if is_nil (snd (value f)) && negb (String.eqb (Path dev) EmptyString)
           then Path dev else path in
  let flen := if FeatureLen dev <=? 0 then 64 else FeatureLen dev in
  exists t,
    emitted (ApplyVaxeeSetting path perf poll w) = emitted f ++ t /\
    send_run p flen perf poll t (value (ApplyVaxeeSetting path perf poll w)).
Proof.
  intros f dev p flen. unfold Hid.ApplyVaxeeSetting.
  rewrite emitted_bind, value_bind. fold f. fold dev. fold p. fold flen.
  eexists. split; [reflexivity|].
  rewrite emitted_bind, value_bind, sendFeatureReport_emitted.
  remember (sendFeatureReport p (buildReportSized flen x08 perf) (world f)) as s1.
  destruct (value s1) as [err|].
  - cbn. constructor.
  - rewrite emitted_bind, value_bind, ?world_bind, sleep_emitted.
    destruct (pollingToYY poll) as [yy [err|]] eqn:Y; cbn [fst snd].
    + cbn. econstructor. exact Y.
    + rewrite emitted_bind, value_bind, sendFeatureReport_emitted.
      match goal with
      | |- context [value ?s] =>
          match s with sendFeatureReport _ (buildReportSized _ x07 _) _ =>
            destruct (value s) as [err|] end
      end; cbn; econstructor; exact Y.
Qed.

(** *** Selection: order, short circuit, outcomes *)

Lemma split_after_prefix {A} (P : A -> bool) (l1 : list A) :
  forall l2 a x b,
    l1 ++ l2 = a ++ x :: b ->
    Forall (fun y => P y = false) l1 -> P x = true ->
    exists c, a = l1 ++ c.
Proof.
  induction l1 as [|y l1 IH]; intros l2 a x b E F Px.
  - exists a. reflexivity.
  - inversion F as [|? ? Py Fl]; subst.
    destruct a as [|y' a]; cbn in E; injection E as Ey El.
    + subst. congruence.
    + subst y'. destruct (IH _ _ _ _ El Fl Px) as (c & ->).
      exists c. reflexivity.
Qed.

Lemma probes_split tried t1 ev t2 :
  probes tried = t1 ++ ev :: t2 ->
  exists tr1 x tr2,
    tried = tr1 ++ x :: tr2 /\ probes tr1 = t1 /\
    probe_event (fst x) (snd x) = ev /\ probes tr2 = t2.
Proof.
  unfold probes. intro H.
  apply map_eq_app in H. destruct H as (tr1 & tr' & -> & H1 & H2).
  apply map_eq_cons in H2. destruct H2 as (x & tr2 & -> & Hx & H2).
  exists tr1, x, tr2. auto.
Qed.

Lemma probe_loop_order ds w t1 t2 p rid len e :
  emitted (probe_loop (probe_order ds) w) = t1 ++ EvGetFeature p rid len e :: t2 ->
  HasSuffix (ToLower p) "\kbd" = true ->
  forall d, In d ds -> is_kbd d = false -> exists e', In (probe_event d e') t1.
Proof.
  intros Ht Hk d Hd Hnk.
  destruct (probe_loop_spec (probe_order ds) w) as (tried & rest & Ho & Hp & _).
  rewrite Hp in Ht. apply probes_split in Ht.
  destruct Ht as (tr1 & x & tr2 & -> & <- & Hx & _).
  injection Hx as Hpath _ _.
  rewrite probe_order_partition, map_app in Ho. cbn [map] in Ho.
  rewrite <- app_assoc in Ho. cbn [app] in Ho.
  apply split_after_prefix with (P := is_kbd) in Ho.
  - destruct Ho as (c & Hc).
    assert (I : In d (map fst tr1)).
    { rewrite Hc. apply in_or_app. left. apply filter_In. now rewrite Hnk. }
    apply in_map_iff in I. destruct I as ((d' & e') & Heq & I). cbn in Heq; subst d'.
    exists e'. unfold probes. apply in_map_iff. exists (d, e'). auto.
  - apply Forall_forall. intros y Hy. apply filter_In in Hy.
    destruct Hy as (_ & Hy). now destruct (is_kbd y).
  - unfold Hid.is_kbd. now rewrite Hpath.
Qed.

(** C5: control-path selection never probes a candidate whose path ends in
    the keyboard-collection suffix before it has probed every candidate whose
    path does not: whenever a probe of a keyboard path is recorded, every
    non-keyboard candidate has a probe recorded before it.  This holds of the
    probing of any candidate list, and so of the selection over the
    enumerated one. *)
Theorem keyboard_paths_probed_last :
  (forall ds w t1 t2 p rid len e,
      emitted (probe_loop (probe_order ds) w) = t1 ++ EvGetFeature p rid len e :: t2 ->
      HasSuffix (ToLower p) "\kbd" = true ->
      forall d, In d ds -> is_kbd d = false ->
                exists e', In (probe_event d e') t1) /\
  (forall w t1 t2 p rid len e,
      emitted (SelectVaxeeControlPath w) = t1 ++ EvGetFeature p rid len e :: t2 ->
      HasSuffix (ToLower p) "\kbd" = true ->
      forall d, In d (fst (value (EnumerateVaxeeDevices w))) -> is_kbd d = false ->
                exists e', In (probe_event d e') t1).
Proof.
  split; [exact probe_loop_order|].
  intros w t1 t2 p rid len e Ht Hk d Hd Hnk.
  pose proof (SelectVaxeeControlPath_cases w) as C. cbv zeta in C.
  destruct (snd (value (EnumerateVaxeeDevices w))).
  - rewrite C in Ht. cbn in Ht. now destruct t1.
  - destruct (fst (value (EnumerateVaxeeDevices w))) as [|d0 ds] eqn:E.
    + destruct Hd.
    + rewrite C in Ht. eapply probe_loop_order; eauto.
Qed.

(** C6: selection short-circuits.  When it returns a descriptor [d], the
    probe order is [fails], then [d], then [post]; every candidate of [fails]
    was probed and failed, the probe of [d] succeeded, and that probe is the
    last event: no candidate of [post] is probed. *)
Theorem select_short_circuits w d :
  value (SelectVaxeeControlPath w) = (d, None) ->
  exists fails post,
    probe_order (fst (value (EnumerateVaxeeDevices w))) = map fst fails ++ d :: post /\
    Forall failed fails /\
    emitted (SelectVaxeeControlPath w) = probes fails ++ [probe_event d None].
Proof.
  intro Hv.
  pose proof (SelectVaxeeControlPath_cases w) as C. cbv zeta in C.
  destruct (snd (value (EnumerateVaxeeDevices w))).
  - rewrite C in Hv. discriminate.
  - destruct (fst (value (EnumerateVaxeeDevices w))) as [|d0 ds].
    + rewrite C in Hv. discriminate.
    + rewrite C in *.
      destruct (probe_loop_spec (probe_order (d0 :: ds))
                  (world (EnumerateVaxeeDevices w)))
        as (tried & rest & Ho & Hp & [(fails & d' & -> & Hf & Hd) | (_ & _ & Hn)]).
      * rewrite Hv in Hd. injection Hd as <-.
        exists fails, rest. split; [|split; [assumption|]].
        -- rewrite Ho, map_app, <- app_assoc. reflexivity.
        -- rewrite Hp. unfold probes. now rewrite map_app.
      * rewrite Hv in Hn. discriminate.
Qed.

Lemma probes_results a : forall b,
  probes a = probes b -> map snd a = map snd b.
Proof.
  induction a as [|x a IH]; intros [|y b] H; try discriminate; [reflexivity|].
  cbn in H. injection H as _ _ Hs Ht. cbn. f_equal; auto.
Qed.

(** The only error of the enumeration is the failed device-class query, and
    it comes with no descriptor. *)
Lemma EnumerateVaxeeDevices_error w err :
  snd (value (EnumerateVaxeeDevices w)) = Some err ->
  class_query_failed os uintptr_bits w = true /\
  fst (value (EnumerateVaxeeDevices w)) = [] /\
  exists errno, err = ErrClassDevs errno.
Proof.
  pose proof (EnumerateVaxeeDevices_cases w) as H.
  destruct (class_query_failed os uintptr_bits w); rewrite H; cbn [fst snd].
  - intro E. injection E as <-. eauto.
  - discriminate.
Qed.

(** C7, as the code has it.  When the enumeration itself fails, selection
    returns that failure.  Selection fails with the no-device error exactly
    when the enumeration succeeds with no descriptor; it fails with the
    no-control-channel error exactly when the enumeration succeeds with
    candidates, every one of which was probed and none answered; in the
    remaining case it returns an enumerated descriptor whose probe succeeded. *)
Theorem select_outcomes w :
  let e := EnumerateVaxeeDevices w in
  let ds := fst (value e) in
  let r := SelectVaxeeControlPath w in
  (forall err, snd (value e) = Some err ->
               value r = (zeroDeviceInfo, Some err) /\ emitted r = []) /\
  (snd (value r) = Some ErrNoDevice <-> snd (value e) = None /\ ds = []) /\
  (snd (value r) = Some ErrNoControlChannel <->
   snd (value e) = None /\ ds <> [] /\
   exists tried, map fst tried = probe_order ds /\ Forall failed tried /\
                 emitted r = probes tried) /\
  (snd (value e) = None -> ds <> [] ->
   snd (value r) <> Some ErrNoControlChannel ->
   exists d, value r = (d, None) /\ In d ds /\
             In (probe_event d None) (emitted r)).
Proof.
  intros e ds r.
  pose proof (SelectVaxeeControlPath_cases w) as C. cbv zeta in C.
  pose proof (EnumerateVaxeeDevices_error w) as EE.
  fold e in C, EE. fold r in C. fold ds in C.
  destruct (snd (value e)) as [err|] eqn:Ee.
  - (* the enumeration failed *)
    destruct (EE err eq_refl) as (_ & _ & errno & ->).
    rewrite C. cbn [value emitted snd].
    split; [intros ? [= <-]; auto|].
    split; [split; [discriminate | intros [? _]; discriminate]|].
    split; [split; [discriminate | intros [? _]; discriminate]|].
    discriminate.
  - split; [discriminate|].
    destruct ds as [|d0 ds'] eqn:Eds.
    + (* no descriptor *)
      rewrite C. cbn [value emitted snd].
      split; [tauto|].
      split; [split; [discriminate | intros (_ & N & _); congruence]|].
      congruence.
    + (* candidates *)
      rewrite <- Eds in *.
      destruct (probe_loop_spec (probe_order ds) (world e))
        as (tried & rest & Ho & Hp & Hr).
      rewrite <- C in Hp, Hr.
      assert (Hne : ds <> []) by (rewrite Eds; discriminate).
      destruct Hr as [(fails & d & -> & Hf & Hd) | (-> & Hf & Hn)].
      * rewrite Hd. cbn [snd].
        split; [split; [discriminate | intros [_ ?]; contradiction]|].
        split.
        -- split; [discriminate|].
           intros (_ & _ & tried' & _ & Hf' & Hp').
           rewrite Hp in Hp'. apply probes_results in Hp'.
           rewrite map_app in Hp'. cbn [map snd] in Hp'.
           assert (I : In None (map snd tried')).
           { rewrite <- Hp'. apply in_or_app. right. now left. }
           apply in_map_iff in I. destruct I as (x & Hx & I).
           rewrite Forall_forall in Hf'. now apply Hf' in I.
        -- intros _ _ _. exists d. split; [reflexivity|]. split.
           ++ apply probe_order_In. rewrite Ho, map_app.
              apply in_or_app. left. apply in_or_app. right. now left.
           ++ rewrite Hp. unfold probes. rewrite map_app.
              apply in_or_app. right. now left.
      * rewrite Hn. cbn [snd].
        split; [split; [discriminate | intros [_ ?]; contradiction]|].
        split; [|congruence].
        split; [|reflexivity]. intros _.
        split; [reflexivity|]. split; [assumption|].
        exists tried. rewrite app_nil_r in Ho. auto.
Qed.

(** *** Enumeration: failures and the vendor filter *)

Lemma hidGetString_failed h (proc : Z -> W -> (Z * string) * W) w :
  fst (fst (proc h w)) = 0 -> value (Hid.hidGetString h proc w) = EmptyString.
Proof.
  intro H. unfold Hid.hidGetString. rewrite value_bind. cbn [call value world].
  rewrite H. reflexivity.
Qed.

(** [queryDeviceInfo], query by query: a failed open or attribute request
    gives up on the device; a failed string request leaves the string empty;
    a failed capability query leaves usage and report length zero. *)
Lemma queryDeviceInfo_steps path w :
  let o := openHIDPathForQuery path w in
  let h := fst (value o) in
  let a := HidD_GetAttributes os h (world o) in
  let m := Hid.hidGetString h (HidD_GetManufacturerString os) (snd a) in
  let p := Hid.hidGetString h (HidD_GetProductString os) (world m) in
  let c := Hid.queryCaps os h (world p) in
  let q := queryDeviceInfo path w in
  (snd (value o) <> None -> value q = (zeroDeviceInfo, false)) /\
  (snd (value o) = None -> fst (fst a) = 0 -> value q = (zeroDeviceInfo, false)) /\
  (snd (value o) = None -> fst (fst a) <> 0 ->
   snd (value q) = true /\
   Path (fst (value q)) = path /\
   Manufacturer (fst (value q)) = value m /\
   Product (fst (value q)) = value p /\
   (snd (value c) <> None ->
    UsagePage (fst (value q)) = 0 /\ Usage (fst (value q)) = 0 /\
    FeatureLen (fst (value q)) = 0)).
Proof.
  intros o h a m p c q. subst q. unfold Hid.queryDeviceInfo.
  rewrite value_bind. fold o.
  destruct (snd (value o)) eqn:Eo.
  - split; [reflexivity|]. split; discriminate.
  - split; [congruence|].
    rewrite !value_bind. cbn [call call_ ret value world Hid.closeHandle].
    fold h. fold a.
    destruct (fst (fst a) =? 0) eqn:Ea.
    + apply Z.eqb_eq in Ea. split; [reflexivity|]. intros _ N. contradiction.
    + split; [intros _ Z0; rewrite Z0 in Ea; discriminate|]. intros _ _.
      rewrite !value_bind, ?world_bind. fold m. fold p. fold c.
      destruct (snd (value c)); cbn; repeat split; auto; congruence.
Qed.

(** With no vendor-matching device on the system the loop adds nothing. *)
Lemma enum_loop_no_match rest : forall out w,
  (forall path w0,
      snd (value (queryDeviceInfo path w0)) = true ->
      Hid.vendor_match ToLower (fst (value (queryDeviceInfo path w0))) = false) ->
  value (enum_loop rest out w) = out.
Proof.
  induction rest as [|i rest IH]; intros out w H; cbn [Hid.enum_loop].
  - reflexivity.
  - destruct (enum_r1 i =? 0); [reflexivity|].
    destruct (detail_required i =? 0); [now apply IH|].
    destruct (detail_r2 i =? 0); [now apply IH|].
    destruct (String.eqb (DevicePath i) EmptyString); [now apply IH|].
    rewrite bind_silent by apply queryDeviceInfo_silent.
    pose proof (H (DevicePath i) w) as Hq.
    destruct (snd (value (queryDeviceInfo (DevicePath i) w))); cbn [negb].
    + rewrite Hq by reflexivity. now apply IH.
    + now apply IH.
Qed.

(** One turn of the loop, exactly.  A member with no detail or an empty path
    is passed over without a device query; otherwise the device is queried
    once, and its descriptor is appended when, and only when, the query
    delivers one that passes the vendor filter.  In every case the loop goes
    on with the remaining members. *)
Lemma enum_loop_turn_exact i rest out w :
  enum_r1 i <> 0 ->
  let q := queryDeviceInfo (DevicePath i) w in
  (detail_required i = 0 \/ detail_r2 i = 0 \/ DevicePath i = EmptyString ->
   enum_loop (i :: rest) out w = enum_loop rest out w) /\
  (detail_required i <> 0 -> detail_r2 i <> 0 -> DevicePath i <> EmptyString ->
   (snd (value q) = false ->
    enum_loop (i :: rest) out w = enum_loop rest out (world q)) /\
   (snd (value q) = true -> Hid.vendor_match ToLower (fst (value q)) = false ->
    enum_loop (i :: rest) out w = enum_loop rest out (world q)) /\
   (snd (value q) = true -> Hid.vendor_match ToLower (fst (value q)) = true ->
    enum_loop (i :: rest) out w = enum_loop rest (out ++ [fst (value q)]) (world q) /\
    described os (DevicePath i) (fst (value q)))).
Proof.
  intros Hr q. cbn [Hid.enum_loop].
  destruct (enum_r1 i =? 0) eqn:E1; [apply Z.eqb_eq in E1; contradiction|].
  destruct (Z.eqb_spec (detail_required i) 0) as [D1|D1].
  { split; [reflexivity | intro N; now contradiction N]. }
  destruct (Z.eqb_spec (detail_r2 i) 0) as [D2|D2].
  { split; [reflexivity | intros _ N; now contradiction N]. }
  destruct (String.eqb_spec (DevicePath i) EmptyString) as [P|P].
  { split; [reflexivity | intros _ _ N; now contradiction N]. }
  split; [intros [N|[N|N]]; contradiction|]. intros _ _ _.
  rewrite bind_silent by apply queryDeviceInfo_silent. fold q.
  pose proof (queryDeviceInfo_described (DevicePath i) w) as D. fold q in D.
  destruct (snd (value q)); cbn [negb].
  - split; [discriminate|].
    destruct (Hid.vendor_match ToLower (fst (value q))).
    + split; [discriminate|]. intros _ _. split; [reflexivity | now apply D].
    + split; [reflexivity | discriminate].
  - split; [reflexivity|]. split; discriminate.
Qed.

(** The enumeration up to a member and past it: when the members before [i]
    and [i] itself are enumerated by the OS, whatever happened on the devices
    before it, [i] is handled, and a descriptor delivered for it that passes
    the vendor filter is in the result, after those of the members before. *)
Lemma EnumerateVaxeeDevices_keeps w l1 i l2 :
  class_query_failed os uintptr_bits w = false ->
  snd (fst (class_query os w)) = l1 ++ i :: l2 ->
  Forall (fun j => enum_r1 j <> 0) (l1 ++ [i]) ->
  detail_required i <> 0 -> detail_r2 i <> 0 -> DevicePath i <> EmptyString ->
  let before := enum_loop l1 [] (snd (class_query os w)) in
  let q := queryDeviceInfo (DevicePath i) (world before) in
  snd (value q) = true -> Hid.vendor_match ToLower (fst (value q)) = true ->
  value (EnumerateVaxeeDevices w) =
    (value (enum_loop l2 (value before ++ [fst (value q)]) (world q)), None) /\
  exists post,
    fst (value (EnumerateVaxeeDevices w)) = value before ++ fst (value q) :: post.
Proof.
  intros Hc Hm Hf D1 D2 P before q Hq Hv.
  pose proof (EnumerateVaxeeDevices_cases w) as C. rewrite Hc in C.
  apply Forall_app in Hf. destruct Hf as [H1 Hi].
  inversion Hi as [|? ? Hr _]; subst.
  rewrite Hm in C. rewrite (enum_loop_app _ _ _ H1) in C. fold before in C.
  destruct (@enum_loop_turn_exact i l2 (value before) (world before) Hr)
    as (_ & T).
  destruct (T D1 D2 P) as (_ & _ & K). fold q in K.
  destruct (K Hq Hv) as (E & _). rewrite E in C.
  split; [exact C|]. rewrite C. cbn [fst].
  destruct (enum_loop_added l2 (value before ++ [fst (value q)]) (world q))
    as (added & -> & _).
  exists added. rewrite <- app_assoc. reflexivity.
Qed.

(** C8: the enumeration fails only when the device-class query fails, and
    then with the enumeration error.  A failure on one device never aborts it:
    a member with no detail or no path is passed over, a device that cannot be
    opened or gives no attributes is skipped, a failed string request leaves
    an empty string and a failed capability query zero fields, and in every
    case the loop goes on with the remaining members.  A descriptor that is
    delivered and passes the vendor filter is kept, degraded or not: it is
    appended in its turn and is in the result of the enumeration, whatever
    failed on the devices before it.  On a system where no device passes the
    vendor filter the result is the empty list and no error. *)
Theorem enumeration_failures w :
  (snd (value (EnumerateVaxeeDevices w)) <> None <->
   class_query_failed os uintptr_bits w = true) /\
  (forall err, snd (value (EnumerateVaxeeDevices w)) = Some err ->
               exists errno, err = ErrClassDevs errno) /\
  (forall i rest out w0,
      enum_r1 i <> 0 ->
      let q := queryDeviceInfo (DevicePath i) w0 in
      (detail_required i = 0 \/ detail_r2 i = 0 \/ DevicePath i = EmptyString ->
       enum_loop (i :: rest) out w0 = enum_loop rest out w0) /\
      (detail_required i <> 0 -> detail_r2 i <> 0 -> DevicePath i <> EmptyString ->
       (snd (value q) = false ->
        enum_loop (i :: rest) out w0 = enum_loop rest out (world q)) /\
       (snd (value q) = true -> Hid.vendor_match ToLower (fst (value q)) = false ->
        enum_loop (i :: rest) out w0 = enum_loop rest out (world q)) /\
       (snd (value q) = true -> Hid.vendor_match ToLower (fst (value q)) = true ->
        enum_loop (i :: rest) out w0 =
          enum_loop rest (out ++ [fst (value q)]) (world q) /\
        described os (DevicePath i) (fst (value q))))) /\
  (forall l1 l2 out w0,
      Forall (fun i => enum_r1 i <> 0) l1 ->
      enum_loop (l1 ++ l2) out w0 =
      enum_loop l2 (value (enum_loop l1 out w0)) (world (enum_loop l1 out w0))) /\
  (forall path w0,
      let o := openHIDPathForQuery path w0 in
      let h := fst (value o) in
      let a := HidD_GetAttributes os h (world o) in
      let m := Hid.hidGetString h (HidD_GetManufacturerString os) (snd a) in
      let p := Hid.hidGetString h (HidD_GetProductString os) (world m) in
      let c := Hid.queryCaps os h (world p) in
      let q := queryDeviceInfo path w0 in
      (snd (value o) <> None -> value q = (zeroDeviceInfo, false)) /\
      (snd (value o) = None -> fst (fst a) = 0 -> value q = (zeroDeviceInfo, false)) /\
      (snd (value o) = None -> fst (fst a) <> 0 ->
       snd (value q) = true /\
       (fst (fst (HidD_GetManufacturerString os h (snd a))) = 0 ->
        Manufacturer (fst (value q)) = EmptyString) /\
       (fst (fst (HidD_GetProductString os h (world m))) = 0 ->
        Product (fst (value q)) = EmptyString) /\
       (snd (value c) <> None ->
        UsagePage (fst (value q)) = 0 /\ Usage (fst (value q)) = 0 /\
        FeatureLen (fst (value q)) = 0))) /\
  (class_query_failed os uintptr_bits w = false ->
   value (EnumerateVaxeeDevices w) =
     (value (enum_loop (snd (fst (class_query os w))) [] (snd (class_query os w))),
      None)) /\
  (forall l1 i l2,
      class_query_failed os uintptr_bits w = false ->
      snd (fst (class_query os w)) = l1 ++ i :: l2 ->
      Forall (fun j => enum_r1 j <> 0) (l1 ++ [i]) ->
      detail_required i <> 0 -> detail_r2 i <> 0 -> DevicePath i <> EmptyString ->
      let before := enum_loop l1 [] (snd (class_query os w)) in
      let q := queryDeviceInfo (DevicePath i) (world before) in
      snd (value q) = true -> Hid.vendor_match ToLower (fst (value q)) = true ->
      value (EnumerateVaxeeDevices w) =
        (value (enum_loop l2 (value before ++ [fst (value q)]) (world q)), None) /\
      exists post,
        fst (value (EnumerateVaxeeDevices w)) =
        value before ++ fst (value q) :: post) /\
  (class_query_failed os uintptr_bits w = false ->
   (forall path w0,
       snd (value (queryDeviceInfo path w0)) = true ->
       Hid.vendor_match ToLower (fst (value (queryDeviceInfo path w0))) = false) ->
   value (EnumerateVaxeeDevices w) = ([], None)).
Proof.
  pose proof (EnumerateVaxeeDevices_cases w) as C.
  split.
  { destruct (class_query_failed os uintptr_bits w); rewrite C; cbn [snd].
    - split; [reflexivity | discriminate].
    - split; [intro N; now contradiction N | discriminate]. }
  split.
  { intros err E. destruct (EnumerateVaxeeDevices_error w E) as (_ & _ & H). exact H. }
  split.
  { intros i rest out w0 Hi. now apply enum_loop_turn_exact. }
  split; [intros; now apply enum_loop_app|].
  split.
  { intros path w0 o h a m p c q.
    destruct (queryDeviceInfo_steps path w0) as (S1 & S2 & S3).
    fold o in S1, S2, S3. fold h in S2, S3. fold a in S2, S3.
    fold m in S3. fold p in S3. fold c in S3. fold q in S1, S2, S3.
    split; [exact S1|]. split; [exact S2|].
    intros Ho Ha. destruct (S3 Ho Ha) as (Q1 & _ & Q3 & Q4 & Q5).
    split; [exact Q1|].
    split; [intro F; rewrite Q3; now apply hidGetString_failed|].
    split; [intro F; rewrite Q4; now apply hidGetString_failed|].
    exact Q5. }
  split.
  { intro Hc. rewrite Hc in C. exact C. }
  split.
  { intros l1 i l2. apply EnumerateVaxeeDevices_keeps. }
  intros Hc Hnone. rewrite Hc in C. rewrite C.
  now rewrite enum_loop_no_match.
Qed.

(** C9: every descriptor the vendor-filtered enumeration returns has a
    manufacturer string or a product string that, lower-cased, contains the
    vendor substring; a descriptor whose two strings both lack it is never
    returned. *)
Theorem enumerated_match_vendor w :
  Forall (fun d => Contains (ToLower (Manufacturer d)) "vaxee" = true \/
                   Contains (ToLower (Product d)) "vaxee" = true)
         (fst (value (EnumerateVaxeeDevices w))) /\
  Forall (fun d => exists pre post,
                     (ToLower (Manufacturer d) = pre ++ "vaxee" ++ post \/
                      ToLower (Product d) = pre ++ "vaxee" ++ post)%string)
         (fst (value (EnumerateVaxeeDevices w))) /\
  (forall d,
      Contains (ToLower (Manufacturer d)) "vaxee" = false ->
      Contains (ToLower (Product d)) "vaxee" = false ->
      ~ In d (fst (value (EnumerateVaxeeDevices w)))).
Proof.
  pose proof (EnumerateVaxeeDevices_members w) as H.
  split; [|split].
  - eapply Forall_impl; [|exact H]. cbn beta. intros d (V & _).
    unfold Hid.vendor_match in V. now apply orb_true_iff in V.
  - eapply Forall_impl; [|exact H]. cbn beta. intros d (V & _).
    unfold Hid.vendor_match in V. apply orb_true_iff in V.
    destruct V as [V | V]; apply Contains_iff in V;
      destruct V as (pre & post & V); exists pre, post; auto.
  - intros d Hm Hp I. rewrite Forall_forall in H.
    destruct (H d I) as (V & _). unfold Hid.vendor_match in V.
    rewrite Hm, Hp in V. discriminate.
Qed.

(** *** Applying a setting: what is sent, and when *)

Lemma sends_probes tried : sends (probes tried) = [].
Proof. induction tried as [|x tried IH]; [reflexivity | exact IH]. Qed.

(** Re-resolving the control path sends no report. *)
Lemma FindOneVaxeeDevice_sends w : sends (emitted (FindOneVaxeeDevice w)) = [].
Proof.
  unfold Hid.FindOneVaxeeDevice.
  pose proof (SelectVaxeeControlPath_cases w) as C. cbv zeta in C.
  destruct (snd (value (EnumerateVaxeeDevices w))); [now rewrite C|].
  destruct (fst (value (EnumerateVaxeeDevices w))) as [|d0 ds]; [now rewrite C|].
  rewrite C.
  destruct (probe_loop_spec (probe_order (d0 :: ds))
              (world (EnumerateVaxeeDevices w))) as (tried & _ & _ & -> & _).
  apply sends_probes.
Qed.

(** A failed resolution returns the zero descriptor and one of three errors. *)
Lemma FindOneVaxeeDevice_error w err :
  snd (value (FindOneVaxeeDevice w)) = Some err ->
  fst (value (FindOneVaxeeDevice w)) = zeroDeviceInfo /\
  (err = ErrNoDevice \/ err = ErrNoControlChannel \/
   exists errno, err = ErrClassDevs errno).
Proof.
  unfold Hid.FindOneVaxeeDevice.
  pose proof (SelectVaxeeControlPath_cases w) as C. cbv zeta in C.
  pose proof (EnumerateVaxeeDevices_error w) as EE.
  destruct (snd (value (EnumerateVaxeeDevices w))) as [e|].
  - rewrite C. cbn. intros [= <-].
    destruct (EE e eq_refl) as (_ & _ & H). auto.
  - destruct (fst (value (EnumerateVaxeeDevices w))) as [|d0 ds].
    + rewrite C. cbn. intros [= <-]. auto.
    + rewrite C.
      destruct (probe_loop_spec (probe_order (d0 :: ds))
                  (world (EnumerateVaxeeDevices w)))
        as (tried & rest & _ & _ & [(fails & d & _ & _ & ->) | (_ & _ & ->)]);
        cbn; [discriminate|]. intros [= <-]. auto.
Qed.

(** A resolved descriptor is an enumerated one, so its path is not empty. *)
Lemma FindOneVaxeeDevice_found w d :
  value (FindOneVaxeeDevice w) = (d, None) ->
  In d (fst (value (EnumerateVaxeeDevices w))) /\ Path d <> EmptyString.
Proof.
  unfold Hid.FindOneVaxeeDevice. intro Hv.
  assert (I : In d (fst (value (EnumerateVaxeeDevices w)))).
  { pose proof (SelectVaxeeControlPath_cases w) as C. cbv zeta in C.
    destruct (snd (value (EnumerateVaxeeDevices w))).
    - rewrite C in Hv. discriminate.
    - destruct (fst (value (EnumerateVaxeeDevices w))) as [|d0 ds].
      + rewrite C in Hv. discriminate.
      + rewrite C in Hv.
        destruct (probe_loop_spec (probe_order (d0 :: ds))
                    (world (EnumerateVaxeeDevices w)))
          as (tried & rest & Ho & _ & [(fails & d' & -> & _ & Hd) | (_ & _ & Hn)]).
        * rewrite Hv in Hd. injection Hd as <-.
          apply probe_order_In. rewrite Ho, map_app.
          apply in_or_app. left. apply in_or_app. right. now left.
        * rewrite Hv in Hn. discriminate. }
  split; [exact I|].
  pose proof (EnumerateVaxeeDevices_members w) as M.
  rewrite Forall_forall in M. now destruct (M d I).
Qed.

Lemma pollingToYY_error poll yy err :
  pollingToYY poll = (yy, Some err) -> err = ErrUnsupportedRate poll.
Proof.
  unfold pollingToYY.
  destruct (poll =? Poll1000); [discriminate|].
  destruct (poll =? Poll2000); [discriminate|].
  destruct (poll =? Poll4000); [discriminate|].
  now intros [= _ <-].
Qed.

(** C1, as the code has it: with a polling rate outside 1000, 2000 and 4000,
    [ApplyVaxeeSetting] first sends the performance-mode report.  When that
    send succeeds it waits the settling delay and then fails with the
    unsupported-rate error; when it fails the result is the performance-report
    failure.  Either way exactly one report send is recorded, and the
    polling-rate report is never sent. *)
Theorem apply_unsupported_rate path perf poll w :
  snd (pollingToYY poll) <> None ->
  let f := FindOneVaxeeDevice w in
  let dev := fst (value f) in
  let p := if is_nil (snd (value f)) && negb (String.eqb (Path dev) EmptyString)
           then Path dev else path in
  let flen := if FeatureLen dev <=? 0 then 64 else FeatureLen dev in
  let perf_report := EvSendFeatureReport p (buildReportSized flen x08 perf) in
  let r := ApplyVaxeeSetting path perf poll w in
  (exists o, sends (emitted r) = [perf_report o]) /\
  ((emitted r = emitted f ++ [perf_report None; EvSleep (25 * Millisecond)] /\
    value r = Some (ErrUnsupportedRate poll))
   \/
   (exists err, emitted r = emitted f ++ [perf_report (Some err)] /\
                value r = Some (ErrPerfReport err))).
Proof.
  intros Hbad f dev p flen perf_report r.
  destruct (ApplyVaxeeSetting_run path perf poll w) as (t & Ht & Hrun).
  fold f dev p flen r in Ht, Hrun.
  assert (S : sends (emitted r) = sends t).
  { rewrite Ht. unfold sends. rewrite filter_app.
    pose proof (FindOneVaxeeDevice_sends w) as F. unfold sends in F. fold f in F.
    now rewrite F. }
  inversion Hrun as [err Et Ev | yy err Y Et Ev | yy err Y Et Ev | yy Y Et Ev];
    subst t; try (rewrite Y in Hbad; now contradiction Hbad).
  - split; [exists (Some err); now rewrite S|].
    right. exists err. now rewrite Ht.
  - split; [exists None; now rewrite S|].
    left. apply pollingToYY_error in Y. subst err. now rewrite Ht.
Qed.

(** C3, as the code has it: with a supported rate and a control path resolved
    to a descriptor [d] that declares feature-report length [L > 0],
    [ApplyVaxeeSetting] sends to [d]'s path reports of length [max L 6] (so of
    length [L] from 6 on): first the performance-mode report (command 0x08,
    payload the mode), then, after the 25 ms settling delay, the polling-rate
    report (command 0x07, payload the rate's protocol byte).  When a send
    fails nothing more is sent and that failure is returned. *)
Theorem apply_resolved path perf poll w d :
  value (FindOneVaxeeDevice w) = (d, None) ->
  0 < FeatureLen d ->
  snd (pollingToYY poll) = None ->
  let yy := fst (pollingToYY poll) in
  let perf_report := buildReportSized (FeatureLen d) x08 perf in
  let poll_report := buildReportSized (FeatureLen d) x07 yy in
  let f := FindOneVaxeeDevice w in
  let r := ApplyVaxeeSetting path perf poll w in
  List.length perf_report = Z.to_nat (Z.max (FeatureLen d) 6) /\
  List.length poll_report = Z.to_nat (Z.max (FeatureLen d) 6) /\
  (6 <= FeatureLen d ->
   Z.of_nat (List.length perf_report) = FeatureLen d /\
   Z.of_nat (List.length poll_report) = FeatureLen d) /\
  nth_error perf_report 2 = Some x08 /\ nth_error perf_report 5 = Some perf /\
  nth_error poll_report 2 = Some x07 /\ nth_error poll_report 5 = Some yy /\
  ((emitted r = emitted f ++
                [EvSendFeatureReport (Path d) perf_report None;
                 EvSleep (25 * Millisecond);
                 EvSendFeatureReport (Path d) poll_report None] /\
    value r = None)
   \/
   (exists err,
       emitted r = emitted f ++ [EvSendFeatureReport (Path d) perf_report (Some err)] /\
       value r = Some (ErrPerfReport err))
   \/
   (exists err,
       emitted r = emitted f ++
                   [EvSendFeatureReport (Path d) perf_report None;
                    EvSleep (25 * Millisecond);
                    EvSendFeatureReport (Path d) poll_report (Some err)] /\
       value r = Some (ErrPollReport err))).
Proof.
  intros Hf HL Hok yy perf_report poll_report f r.
  split; [apply buildReportSized_length|].
  split; [apply buildReportSized_length|].
  split.
  { intro H6. unfold perf_report, poll_report.
    rewrite !buildReportSized_length. lia. }
  unfold perf_report, poll_report. rewrite !buildReportSized_eq.
  repeat (split; [reflexivity|]).
  rewrite <- !buildReportSized_eq. fold perf_report poll_report.
  destruct (ApplyVaxeeSetting_run path perf poll w) as (t & Ht & Hrun).
  destruct (FindOneVaxeeDevice_found w Hf) as (_ & Hp).
  rewrite Hf in Hrun. cbn [fst snd is_nil andb] in Hrun.
  apply String.eqb_neq in Hp. rewrite Hp in Hrun. cbn [negb] in Hrun.
  destruct (Z.leb_spec (FeatureLen d) 0) as [|_]; [lia|].
  fold f r in Ht, Hrun.
  inversion Hrun as [err Et Ev | y err Y Et Ev | y err Y Et Ev | y Y Et Ev];
    subst t.
  - right. left. exists err. now rewrite Ht.
  - rewrite Y in Hok. discriminate.
  - right. right. exists err. unfold poll_report, yy. rewrite Y, Ht. auto.
  - left. unfold poll_report, yy. rewrite Y, Ht. auto.
Qed.

(** C10, as the code has it: when the re-resolution of the control path
    fails, [ApplyVaxeeSetting] does not return that failure.  With a supported
    rate it sends to the caller's path the performance-mode report and, when
    that send succeeds and after the settling delay, the polling-rate report,
    both 64 bytes long; the result is success when both sends succeed and
    otherwise the failure of the send that failed. *)
Theorem apply_unresolved path perf poll w err :
  snd (value (FindOneVaxeeDevice w)) = Some err ->
  snd (pollingToYY poll) = None ->
  let yy := fst (pollingToYY poll) in
  let perf_report := buildReportSized 64 x08 perf in
  let poll_report := buildReportSized 64 x07 yy in
  let f := FindOneVaxeeDevice w in
  let r := ApplyVaxeeSetting path perf poll w in
  List.length perf_report = 64%nat /\
  List.length poll_report = 64%nat /\
  value r <> Some err /\
  ((emitted r = emitted f ++
                [EvSendFeatureReport path perf_report None;
                 EvSleep (25 * Millisecond);
                 EvSendFeatureReport path poll_report None] /\
    value r = None)
   \/
   (exists e1,
       emitted r = emitted f ++ [EvSendFeatureReport path perf_report (Some e1)] /\
       value r = Some (ErrPerfReport e1))
   \/
   (exists e2,
       emitted r = emitted f ++
                   [EvSendFeatureReport path perf_report None;
                    EvSleep (25 * Millisecond);
                    EvSendFeatureReport path poll_report (Some e2)] /\
       value r = Some (ErrPollReport e2))).
Proof.
  intros Hf Hok yy perf_report poll_report f r.
  split; [apply buildReportSized_length|].
  split; [apply buildReportSized_length|].
  destruct (FindOneVaxeeDevice_error w Hf) as (Hz & Herr).
  destruct (ApplyVaxeeSetting_run path perf poll w) as (t & Ht & Hrun).
  rewrite Hf, Hz in Hrun.
  cbn [is_nil andb FeatureLen zeroDeviceInfo Z.leb Z.compare] in Hrun.
  fold f r in Ht, Hrun.
  set (v := value r) in *. clearbody v.
  inversion Hrun as [e1 Et Ev | y e1 Y Et Ev | y e2 Y Et Ev | y Y Et Ev];
    subst t v.
  - split.
    + intros [= <-]. destruct Herr as [H | [H | [? H]]]; discriminate.
    + right. left. exists e1. now rewrite Ht.
  - rewrite Y in Hok. discriminate.
  - split.
    + intros [= <-]. destruct Herr as [H | [H | [? H]]]; discriminate.
    + right. right. exists e2. unfold poll_report, yy. rewrite Y, Ht. auto.
  - split; [discriminate|].
    left. unfold poll_report, yy. rewrite Y, Ht. auto.
Qed.

End Traces.

(** * The properties on concrete systems *)

(** ** Selection *)

(** Candidates A (refuses the probe), B and C (answer it): B is selected
    after two probes, and C is never probed. *)
Example select_abc :
  Sim.Select sys_abc 0%nat =
  Out (info_b, None) 0%nat
      [EvGetFeature "hid#vid_3057&col01" x0e 20 (Some (ErrGetFeature 1));
       EvGetFeature "hid#vid_3057&col02" x0e 20 None].
Proof. reflexivity. Qed.

Lemma keyboard_paths_probed_last_witness :
  emitted (Sim.Select sys_kbd_first 0%nat) =
    [EvGetFeature "hid#vid_3057&col01" x0e 20 (Some (ErrGetFeature 1))] ++
    EvGetFeature "hid#vid_3057&col04\KBD" x0e 64 None :: [] /\
  exists e',
    In (probe_event info_a e')
       [EvGetFeature "hid#vid_3057&col01" x0e 20 (Some (ErrGetFeature 1))].
Proof.
  split; [reflexivity|].
  apply (proj2 (@keyboard_paths_probed_last nat (Sim.os sys_kbd_first)
                  ascii_ToLower Sim.bits)
           0%nat _ [] "hid#vid_3057&col04\KBD"%string x0e 64 None).
  - reflexivity.
  - reflexivity.
  - right. left. reflexivity.
  - reflexivity.
Defined.

Lemma select_short_circuits_witness :
  value (Sim.Select sys_abc 0%nat) = (info_b, None) /\
  exists fails post,
    Hid.probe_order ascii_ToLower (fst (value (Sim.Enumerate sys_abc 0%nat))) =
      map fst fails ++ info_b :: post /\
    Forall failed fails /\
    emitted (Sim.Select sys_abc 0%nat) = probes fails ++ [probe_event info_b None].
Proof.
  split; [reflexivity|].
  apply (@select_short_circuits nat (Sim.os sys_abc) ascii_ToLower Sim.bits
           0%nat info_b).
  reflexivity.
Defined.

(** C7, as stated, fails when the device-class query fails: the enumeration
    yields no descriptor, yet selection neither fails with the no-device
    error, nor with the no-control-channel error, nor returns a descriptor. *)
Lemma select_enumeration_failure_counterexample :
  ~ ((fst (value (Sim.Enumerate sys_no_class 0%nat)) = [] ->
      snd (value (Sim.Select sys_no_class 0%nat)) = Some ErrNoDevice) /\
     (snd (value (Sim.Select sys_no_class 0%nat)) = Some ErrNoDevice \/
      snd (value (Sim.Select sys_no_class 0%nat)) = Some ErrNoControlChannel \/
      snd (value (Sim.Select sys_no_class 0%nat)) = None)).
Proof.
  intros [_ [H | [H | H]]]; vm_compute in H; discriminate.
Qed.

Lemma select_outcomes_witness :
  value (Sim.Select sys_no_class 0%nat) = (zeroDeviceInfo, Some (ErrClassDevs 1)) /\
  exists d,
    value (Sim.Select sys_abc 0%nat) = (d, None) /\
    In d (fst (value (Sim.Enumerate sys_abc 0%nat))) /\
    In (probe_event d None) (emitted (Sim.Select sys_abc 0%nat)).
Proof.
  split.
  - apply (proj1 (@select_outcomes nat (Sim.os sys_no_class) ascii_ToLower
                    Sim.bits 0%nat) (ErrClassDevs 1)).
    reflexivity.
  - apply (proj2 (proj2 (proj2 (@select_outcomes nat (Sim.os sys_abc)
                                  ascii_ToLower Sim.bits 0%nat)))).
    + reflexivity.
    + vm_compute. discriminate.
    + vm_compute. discriminate.
Defined.

(** ** Enumeration *)

(** A locked device is skipped; a device that answers neither its
    manufacturer string nor its capabilities is kept, with an empty string and
    zero usage and report length. *)
Example enumerate_degraded :
  value (Sim.Enumerate sys_degraded 0%nat) = ([info_degraded; info_b], None).
Proof. reflexivity. Qed.

Lemma foreign_never_matches path w0 :
  snd (value (Hid.queryDeviceInfo (Sim.os sys_foreign) Sim.bits path w0)) = true ->
  Hid.vendor_match ascii_ToLower
    (fst (value (Hid.queryDeviceInfo (Sim.os sys_foreign) Sim.bits path w0))) = false.
Proof.
  unfold Hid.queryDeviceInfo, Hid.openHIDPathForQuery.
  destruct (has_nul path); [cbn; discriminate|].
  rewrite !value_bind. cbn [call value world fst snd Sim.os CreateFileW].
  unfold Sim.create_file. cbn [Sim.devices sys_foreign Sim.system_of Sim.find_path].
  cbn [Sim.dev_path foreign dev_locked].
  destruct (String.eqb "hid#vid_046d&col01" path); [vm_compute; reflexivity|].
  destruct (String.eqb "hid#vid_045e&col01" path); [vm_compute; discriminate|].
  destruct (String.eqb "hid#vid_046d&col02" path); [vm_compute; reflexivity|].
  vm_compute. discriminate.
Qed.

Lemma enumeration_failures_witness :
  (class_query_failed (Sim.os sys_foreign) Sim.bits 0%nat = false /\
   value (Sim.Enumerate sys_foreign 0%nat) = ([], None)) /\
  (exists post,
      fst (value (Sim.Enumerate sys_degraded 0%nat)) = info_degraded :: post).
Proof.
  split.
  - split; [reflexivity|].
    apply (proj2 (proj2 (proj2 (proj2 (proj2 (proj2 (proj2
             (@enumeration_failures nat (Sim.os sys_foreign) ascii_ToLower
                Sim.bits 0%nat)))))))).
    + reflexivity.
    + exact foreign_never_matches.
  - destruct (@enumeration_failures nat (Sim.os sys_degraded) ascii_ToLower
                Sim.bits 0%nat) as (_ & _ & _ & _ & _ & _ & K & _).
    specialize (K [Sim.member "hid#vid_045e&col01"]
                  (Sim.member "hid#vid_3057&col07")
                  [Sim.member "hid#vid_3057&col02"]).
    cbv zeta in K.
    destruct K as (_ & post & E).
    + reflexivity.
    + reflexivity.
    + repeat constructor; vm_compute; discriminate.
    + vm_compute. discriminate.
    + vm_compute. discriminate.
    + vm_compute. discriminate.
    + vm_compute. reflexivity.
    + vm_compute. reflexivity.
    + exists post. exact E.
Defined.

(** With ASCII lower-casing, every enumerated descriptor has, in its
    manufacturer or its product string, a piece that is the vendor name up to
    letter case. *)
Lemma enumerated_match_vendor_ascii W (os : OSLayer W) bits w :
  Forall (fun d => exists pre u post,
                     ascii_ToLower u = "vaxee"%string /\
                     (Manufacturer d = pre ++ u ++ post \/
                      Product d = pre ++ u ++ post)%string)
         (fst (value (Hid.EnumerateVaxeeDevices os ascii_ToLower bits w))).
Proof.
  eapply Forall_impl; [|apply EnumerateVaxeeDevices_members].
  cbn beta. intros d (V & _). unfold Hid.vendor_match in V.
  apply orb_true_iff in V.
  destruct V as [V | V]; apply ascii_fold_Contains in V;
    destruct V as (pre & u & post & E & Hu); exists pre, u, post; auto.
Qed.

Lemma enumerated_match_vendor_witness :
  ~ In {| Path := "hid#vid_046d&col01"; VID := 0x046D; PID := 0xC52B;
          Manufacturer := "Logitech"; Product := "USB Receiver";
          UsagePage := 0; Usage := 0; FeatureLen := 0 |}
       (fst (value (Sim.Enumerate sys_degraded 0%nat))).
Proof.
  apply (proj2 (proj2 (@enumerated_match_vendor nat (Sim.os sys_degraded)
                         ascii_ToLower Sim.bits 0%nat))); reflexivity.
Defined.

(** ** Applying a setting *)

(** The scenario of a resolved collection with feature-report length 20:
    two reports of 20 bytes, commands 0x08 and 0x07, the delay between them. *)
Example apply_abc :
  Sim.Apply sys_abc "hid#stale" PerfCompetitiveMSOff Poll1000 0%nat =
  Out None 2%nat
      [EvGetFeature "hid#vid_3057&col01" x0e 20 (Some (ErrGetFeature 1));
       EvGetFeature "hid#vid_3057&col02" x0e 20 None;
       EvSendFeatureReport "hid#vid_3057&col02"
         ([x0e; xa5; x08; x02; x01; x01] ++ repeat x00 14) None;
       EvSleep 25000000;
       EvSendFeatureReport "hid#vid_3057&col02"
         ([x0e; xa5; x07; x02; x01; x02] ++ repeat x00 14) None].
Proof. reflexivity. Qed.

(** A device that accepts the first report and refuses the second: the
    failure of the second send is returned, the first report stays sent. *)
Example apply_once :
  value (Sim.Apply sys_once "hid#stale" PerfCompetitiveMSOff Poll1000 0%nat) =
    Some (ErrPollReport (ErrSetFeature 1)) /\
  sends (emitted (Sim.Apply sys_once "hid#stale" PerfCompetitiveMSOff Poll1000 0%nat)) =
    [EvSendFeatureReport "hid#vid_3057&col06"
       (buildReportSized 20 x08 x01) None;
     EvSendFeatureReport "hid#vid_3057&col06"
       (buildReportSized 20 x07 x02) (Some (ErrSetFeature 1))].
Proof. split; reflexivity. Qed.

(** C1, as stated, fails: with the rate 500 the performance-mode report has
    been sent, and accepted by the device, when the unsupported-rate error is
    returned. *)
Lemma apply_unsupported_rate_counterexample :
  ~ (snd (pollingToYY 500) <> None ->
     value (Sim.Apply sys_abc "hid#stale" PerfCompetitiveMSOff 500 0%nat) =
       Some (ErrUnsupportedRate 500) /\
     sends (emitted (Sim.Apply sys_abc "hid#stale" PerfCompetitiveMSOff 500 0%nat)) = []).
Proof.
  intro H. destruct H as [_ H]; [discriminate|].
  vm_compute in H. discriminate.
Qed.

Lemma apply_unsupported_rate_witness :
  snd (pollingToYY 500) <> None /\
  exists o,
    sends (emitted (Sim.Apply sys_abc "hid#stale" PerfCompetitiveMSOff 500 0%nat)) =
    [EvSendFeatureReport "hid#vid_3057&col02" (buildReportSized 20 x08 x01) o].
Proof.
  split; [discriminate|].
  apply (@apply_unsupported_rate nat (Sim.os sys_abc) ascii_ToLower Sim.bits
           "hid#stale"%string PerfCompetitiveMSOff 500 0%nat).
  discriminate.
Defined.

(** C3, as stated, fails for a declared length below 6: the collection
    declares 3 bytes, and both reports sent are 6 bytes long. *)
Lemma apply_resolved_length_counterexample :
  ~ (value (Sim.Select sys_short 0%nat) = (info_short, None) ->
     0 < FeatureLen info_short ->
     snd (pollingToYY Poll1000) = None ->
     report_lengths
       (emitted (Sim.Apply sys_short "hid#stale" PerfCompetitiveMSOff Poll1000 0%nat)) =
     [FeatureLen info_short; FeatureLen info_short]).
Proof.
  intro H. specialize (H eq_refl eq_refl eq_refl).
  vm_compute in H. discriminate.
Qed.

Lemma apply_resolved_witness :
  value (Sim.Select sys_abc 0%nat) = (info_b, None) /\
  Z.of_nat (List.length (buildReportSized (FeatureLen info_b) x08 PerfCompetitiveMSOff)) = 20 /\
  Z.of_nat (List.length (buildReportSized (FeatureLen info_b) x07 (fst (pollingToYY Poll1000)))) = 20.
Proof.
  split; [reflexivity|].
  apply (@apply_resolved nat (Sim.os sys_abc) ascii_ToLower Sim.bits
           "hid#stale"%string PerfCompetitiveMSOff Poll1000 0%nat info_b).
  - reflexivity.
  - reflexivity.
  - reflexivity.
  - discriminate.
Defined.

(** C10, as stated, fails for an unsupported rate: the resolution fails, the
    performance-mode report is sent to the caller's path and accepted, and
    the result is the unsupported-rate error, which no send decided. *)
Lemma apply_unresolved_counterexample :
  ~ (snd (value (Sim.Select sys_no_channel 0%nat)) = Some ErrNoControlChannel ->
     value (Sim.Apply sys_no_channel "hid#vid_3057&col01" PerfCompetitiveMSOff 500 0%nat) = None \/
     (exists e, value (Sim.Apply sys_no_channel "hid#vid_3057&col01" PerfCompetitiveMSOff 500 0%nat)
                = Some (ErrPerfReport e)) \/
     (exists e, value (Sim.Apply sys_no_channel "hid#vid_3057&col01" PerfCompetitiveMSOff 500 0%nat)
                = Some (ErrPollReport e))).
Proof.
  intro H. destruct (H eq_refl) as [N | [[e N] | [e N]]];
    vm_compute in N; discriminate.
Qed.

(** On that system a supported rate gets both 64-byte reports through. *)
Example apply_no_channel :
  value (Sim.Apply sys_no_channel "hid#vid_3057&col01" PerfCompetitiveMSOff Poll1000 0%nat) = None /\
  report_lengths
    (emitted (Sim.Apply sys_no_channel "hid#vid_3057&col01" PerfCompetitiveMSOff Poll1000 0%nat)) =
  [64; 64].
Proof. split; reflexivity. Qed.

Lemma apply_unresolved_witness :
  snd (value (Sim.Select sys_no_channel 0%nat)) = Some ErrNoControlChannel /\
  List.length (buildReportSized 64 x08 PerfCompetitiveMSOff) = 64%nat /\
  List.length (buildReportSized 64 x07 (fst (pollingToYY Poll1000))) = 64%nat /\
  value (Sim.Apply sys_no_channel "hid#vid_3057&col01" PerfCompetitiveMSOff Poll1000 0%nat)
  <> Some ErrNoControlChannel.
Proof.
  split; [reflexivity|].
  pose proof (@apply_unresolved nat (Sim.os sys_no_channel) ascii_ToLower Sim.bits
                "hid#vid_3057&col01"%string PerfCompetitiveMSOff Poll1000 0%nat
                ErrNoControlChannel eq_refl eq_refl) as H.
  cbv zeta in H. destruct H as (H1 & H2 & H3 & _).
  split; [exact H1|]. split; [exact H2|]. exact H3.
Defined.

(** * The configuration file *)

Section ParseFacts.
Variable TrimSpace : string -> string.
Variable ToLower : string -> string.
Variable Base : string -> string.
Variable int_bits : Z.

Abbreviation wrap_int := (Cfg.wrap_int int_bits).
Abbreviation parseInt := (Cfg.parseInt TrimSpace int_bits).
Abbreviation parsePerf := (Cfg.parsePerf TrimSpace ToLower).

(** ** [parseInt] *)

Lemma parseInt_loop_ok whole rest : forall n,
  snd (Cfg.parseInt_loop int_bits whole rest n) = None <-> digits_only rest = true.
Proof.
  clear TrimSpace ToLower Base.
  induction rest as [|ch rest IH]; intro n; cbn [Cfg.parseInt_loop digits_only].
  - tauto.
  - unfold Cfg.rune.
    destruct (Z.ltb_spec (Z.of_nat (nat_of_ascii ch)) 48) as [L|L];
      destruct (Z.ltb_spec 57 (Z.of_nat (nat_of_ascii ch))) as [H|H];
      destruct (Z.leb_spec 48 (Z.of_nat (nat_of_ascii ch)));
      destruct (Z.leb_spec (Z.of_nat (nat_of_ascii ch)) 57);
      cbn [orb andb snd]; try lia; try (split; discriminate).
    apply IH.
Qed.

Lemma parseInt_loop_error whole rest : forall n e,
  snd (Cfg.parseInt_loop int_bits whole rest n) = Some e -> e = ErrNotInt whole.
Proof.
  induction rest as [|ch rest IH]; intros n e; cbn [Cfg.parseInt_loop].
  - discriminate.
  - destruct ((Cfg.rune ch <? 48) || (57 <? Cfg.rune ch)).
    + now intros [= <-].
    + apply IH.
Qed.

Lemma parseInt_loop_fail whole rest : forall n,
  digits_only rest = false ->
  Cfg.parseInt_loop int_bits whole rest n = (0, Some (ErrNotInt whole)).
Proof.
  induction rest as [|ch rest IH]; intros n D;
    cbn [Cfg.parseInt_loop digits_only] in *; [discriminate|].
  unfold Cfg.rune.
  destruct (Z.ltb_spec (Z.of_nat (nat_of_ascii ch)) 48);
    destruct (Z.ltb_spec 57 (Z.of_nat (nat_of_ascii ch)));
    cbn [orb]; try reflexivity.
  apply IH.
  destruct (Z.leb_spec 48 (Z.of_nat (nat_of_ascii ch))); [|lia].
  destruct (Z.leb_spec (Z.of_nat (nat_of_ascii ch)) 57); [|lia].
  exact D.
Qed.

(** [parseInt] accepts exactly the strings that, trimmed, are a non-empty run
    of decimal digits: a sign, a space between digits, a hexadecimal or any
    other byte makes it fail.  It fails with "empty int" when nothing is left
    after trimming and with "not int" otherwise. *)
Theorem parseInt_accepts (s : string) :
  (snd (parseInt s) = None <->
   TrimSpace s <> EmptyString /\ digits_only (TrimSpace s) = true) /\
  (TrimSpace s = EmptyString -> parseInt s = (0, Some ErrEmptyInt)) /\
  (TrimSpace s <> EmptyString -> digits_only (TrimSpace s) = false ->
   parseInt s = (0, Some (ErrNotInt (TrimSpace s)))).
Proof.
  clear ToLower Base.
  unfold Cfg.parseInt.
  destruct (String.eqb_spec (TrimSpace s) EmptyString) as [E|N].
  - split; [split; [discriminate | tauto]|]. split; [reflexivity | contradiction].
  - split; [rewrite parseInt_loop_ok; tauto|]. split; [contradiction|].
    intros _ D.
    now apply parseInt_loop_fail.
Qed.

(** Wrap-around is a reduction modulo [2 ^ int_bits], so wrapping an
    intermediate result changes nothing. *)
Lemma wrap_int_mod (z : Z) : 0 < int_bits -> wrap_int z mod 2 ^ int_bits = z mod 2 ^ int_bits.
Proof.
  intro B. unfold Cfg.wrap_int.
  assert (P : 0 < 2 ^ int_bits) by (apply Z.pow_pos_nonneg; lia).
  rewrite Zminus_mod, Zmod_mod, <- Zminus_mod. f_equal. lia.
Qed.

Lemma wrap_int_eq (a b : Z) :
  0 < int_bits -> a mod 2 ^ int_bits = b mod 2 ^ int_bits -> wrap_int a = wrap_int b.
Proof.
  intros B H. unfold Cfg.wrap_int.
  rewrite (Zplus_mod a), (Zplus_mod b), H. reflexivity.
Qed.

Lemma wrap_int_small (z : Z) :
  0 < int_bits -> - 2 ^ (int_bits - 1) <= z < 2 ^ (int_bits - 1) -> wrap_int z = z.
Proof.
  intros B R. unfold Cfg.wrap_int.
  assert (E : 2 ^ int_bits = 2 * 2 ^ (int_bits - 1)).
  { rewrite <- Z.pow_succ_r by lia. f_equal. lia. }
  rewrite Z.mod_small; lia.
Qed.

Lemma parseInt_loop_value whole rest : forall n,
  0 < int_bits ->
  snd (Cfg.parseInt_loop int_bits whole rest n) = None ->
  fst (Cfg.parseInt_loop int_bits whole rest (wrap_int n)) =
  wrap_int (decimal_from rest n).
Proof.
  induction rest as [|ch rest IH]; intros n B; cbn [Cfg.parseInt_loop decimal_from].
  - reflexivity.
  - destruct ((Cfg.rune ch <? 48) || (57 <? Cfg.rune ch)); [discriminate|].
    intro O.
    assert (E : wrap_int (wrap_int (wrap_int n * 10) + (Cfg.rune ch - 48)) =
                wrap_int (n * 10 + (Cfg.rune ch - 48))).
    { apply wrap_int_eq; [assumption|].
      rewrite Zplus_mod, wrap_int_mod by assumption.
      rewrite (Zmult_mod (wrap_int n)), wrap_int_mod by assumption.
      rewrite <- Zmult_mod, <- Zplus_mod. reflexivity. }
    rewrite E. unfold Cfg.rune. apply IH; [assumption|].
    apply parseInt_loop_ok in O. now apply parseInt_loop_ok.
Qed.

Lemma decimal_from_bounds rest : forall n,
  0 <= n -> digits_only rest = true -> n <= decimal_from rest n.
Proof.
  induction rest as [|ch rest IH]; intros n N D; cbn [decimal_from digits_only] in *.
  - lia.
  - apply andb_true_iff in D. destruct D as [D1 D].
    apply andb_true_iff in D1. destruct D1 as [L H].
    apply Z.leb_le in L, H.
    etransitivity; [|apply IH; [lia | assumption]]. lia.
Qed.

(** What [parseInt] returns on success is the decimal value of the digits
    reduced to the range of [int] by two's-complement wrap-around: an
    overflow is never reported.  Below [2 ^ (int_bits - 1)] the value is
    exact. *)
Theorem parseInt_value (s : string) :
  0 < int_bits ->
  snd (parseInt s) = None ->
  fst (parseInt s) = wrap_int (decimal_value (TrimSpace s)) /\
  (decimal_value (TrimSpace s) < 2 ^ (int_bits - 1) ->
   fst (parseInt s) = decimal_value (TrimSpace s)).
Proof.
  intros B O.
  assert (V : fst (parseInt s) = wrap_int (decimal_value (TrimSpace s))).
  { revert O. unfold Cfg.parseInt.
    destruct (String.eqb (TrimSpace s) EmptyString); [discriminate|]. intro O.
    rewrite <- (@wrap_int_small 0) at 1.
    - now apply parseInt_loop_value.
    - assumption.
    - assert (0 < 2 ^ (int_bits - 1)) by (apply Z.pow_pos_nonneg; lia). lia. }
  split; [exact V|]. intro S. rewrite V.
  apply wrap_int_small; [assumption|].
  assert (D : digits_only (TrimSpace s) = true).
  { revert O. unfold Cfg.parseInt.
    destruct (String.eqb (TrimSpace s) EmptyString); [discriminate|].
    intro O. exact (proj1 (parseInt_loop_ok _ _ _) O). }
  pose proof (@decimal_from_bounds (TrimSpace s) 0 (Z.le_refl 0) D).
  assert (0 < 2 ^ (int_bits - 1)) by (apply Z.pow_pos_nonneg; lia).
  unfold decimal_value in *. lia.
Qed.


(** ** [parsePerf] and [perfName] *)

Lemma parsePerf_known (s : string) :
  snd (parsePerf s) = None -> known_mode (fst (parsePerf s)).
Proof.
  unfold Cfg.parsePerf, known_mode.
  repeat match goal with
         | |- context [if ?c then _ else _] => destruct c; [cbn; auto|]
         end.
  discriminate.
Qed.

(** [parsePerf] accepts exactly the four mode names, compared after trimming
    and lower-casing; the mode it returns is the one [perfName] prints under
    that name.  Anything else fails with "unknown perf mode", quoting the
    string as given. *)
Theorem parsePerf_names (s : string) :
  (snd (parsePerf s) = None <->
   In (ToLower (TrimSpace s))
      ["standard_ms_off"; "competitive_ms_off"; "competitive_ms_on";
       "standard_ms_on"]%string) /\
  (snd (parsePerf s) = None ->
   known_mode (fst (parsePerf s)) /\
   Cfg.perfName (fst (parsePerf s)) = ToLower (TrimSpace s)) /\
  (snd (parsePerf s) <> None -> parsePerf s = (x00, Some (ErrUnknownPerf s))).
Proof.
  clear Base.
  unfold Cfg.parsePerf, known_mode.
  destruct (String.eqb_spec (ToLower (TrimSpace s)) "standard_ms_off") as [E1|N1].
  { rewrite E1. cbn. intuition congruence. }
  destruct (String.eqb_spec (ToLower (TrimSpace s)) "competitive_ms_off") as [E2|N2].
  { rewrite E2. cbn. intuition congruence. }
  destruct (String.eqb_spec (ToLower (TrimSpace s)) "competitive_ms_on") as [E3|N3].
  { rewrite E3. cbn. intuition congruence. }
  destruct (String.eqb_spec (ToLower (TrimSpace s)) "standard_ms_on") as [E4|N4].
  { rewrite E4. cbn. intuition congruence. }
  cbn [fst snd In]. split; [|split]; try discriminate; [|reflexivity].
  split; [discriminate|]. intros [H|[H|[H|[H|[]]]]]; congruence.
Qed.

(** [perfName] never prints two modes alike, known or not; and a known
    mode's name parses back to that mode wherever trimming and lower-casing
    leave the four names alone. *)
Theorem perfName_parsePerf :
  (forall p q : PerfMode, Cfg.perfName p = Cfg.perfName q -> p = q) /\
  (forall m : PerfMode,
      known_mode m ->
      ToLower (TrimSpace (Cfg.perfName m)) = Cfg.perfName m ->
      parsePerf (Cfg.perfName m) = (m, None)).
Proof.
  split.
  - pose (hexval := fun c : ascii =>
                      let n := N_of_ascii c in
                      if (n <? 58)%N then (n - 48)%N else (n - 87)%N).
    pose (back := fun s : string =>
      if String.eqb s "standard_ms_off" then PerfStandardMSOff
      else if String.eqb s "competitive_ms_off" then PerfCompetitiveMSOff
      else if String.eqb s "competitive_ms_on" then PerfCompetitiveMSOn
      else if String.eqb s "standard_ms_on" then PerfStandardMSOn
      else match s with
           | String _ (String _ (String a (String b _))) =>
               match Byte.of_N (hexval a * 16 + hexval b) with
               | Some x => x
               | None => x00
               end
           | _ => x00
           end).
    assert (L : forall p, back (Cfg.perfName p) = p)
      by (intro p; destruct p; vm_compute; reflexivity).
    intros p q H. rewrite <- (L p), <- (L q), H. reflexivity.
  - intros m K T. unfold Cfg.parsePerf. rewrite T.
    destruct K as [-> | [-> | [-> | ->]]]; reflexivity.
Qed.

(** ** The scanning loop of [loadConfig] *)

Abbreviation config_key := (Cfg.config_key TrimSpace ToLower int_bits).
Abbreviation config_line := (Cfg.config_line TrimSpace ToLower Base int_bits).
Abbreviation config_lines := (Cfg.config_lines TrimSpace ToLower Base int_bits).
Abbreviation skipped_line := (Lines.skipped_line TrimSpace).
Abbreviation setting_of := (Lines.setting_of TrimSpace ToLower).
Abbreviation whitelist_line := (Lines.whitelist_line TrimSpace).
Abbreviation sets_key := (Lines.sets_key TrimSpace ToLower).
Abbreviation ignored := (ignored_line TrimSpace ToLower).

Lemma pollingToYY_supported (p : PollingRate) :
  snd (pollingToYY p) = None -> supported_rate p.
Proof.
  unfold pollingToYY, supported_rate, Poll1000, Poll2000, Poll4000.
  destruct (Z.eqb_spec p 1000); [auto|].
  destruct (Z.eqb_spec p 2000); [auto|].
  destruct (Z.eqb_spec p 4000); [auto|]. discriminate.
Qed.

Lemma supported_pollingToYY (p : PollingRate) :
  supported_rate p -> snd (pollingToYY p) = None.
Proof. intros [-> | [-> | ->]]; reflexivity. Qed.

(** The three kinds of line. *)
Lemma config_line_cases cfg text :
  (skipped_line text = true /\ whitelist_line text = false /\
   setting_of text = None /\ config_line cfg text = (cfg, None)) \/
  (exists k v, setting_of text = Some (k, v) /\
               skipped_line text = false /\ whitelist_line text = false /\
               config_line cfg text = config_key cfg k v) \/
  (whitelist_line text = true /\ skipped_line text = false /\
   setting_of text = None /\
   config_line cfg text =
   (Cfg.add_Whitelist cfg (ToLower (Base (TrimSpace text))), None)).
Proof.
  unfold Cfg.config_line, Lines.setting_of, Lines.whitelist_line,
    Lines.skipped_line.
  destruct (String.eqb (TrimSpace text) EmptyString || HasPrefix (TrimSpace text) "#").
  - left. auto.
  - right. destruct (0 <? IndexByte (TrimSpace text) "=").
    + left. eexists. eexists. auto.
    + right. auto.
Qed.

Lemma config_lines_app l1 : forall l2 cfg,
  config_lines (l1 ++ l2) cfg =
  match snd (config_lines l1 cfg) with
  | Some e => config_lines l1 cfg
  | None => config_lines l2 (fst (config_lines l1 cfg))
  end.
Proof.
  induction l1 as [|t l1 IH]; intros l2 cfg; cbn [app Cfg.config_lines].
  - reflexivity.
  - destruct (snd (config_line cfg t)) eqn:E; cbn [snd]; [reflexivity|].
    apply IH.
Qed.


Lemma map_insert_has k proc m :
  map_has k (map_insert proc m) = map_has k m || String.eqb k proc.
Proof.
  unfold map_insert, map_has.
  destruct (existsb (String.eqb proc) m) eqn:E.
  - destruct (String.eqb_spec k proc) as [->|N]; [|now rewrite orb_false_r].
    rewrite E. reflexivity.
  - rewrite existsb_app. cbn. now rewrite orb_false_r.
Qed.

Lemma add_Whitelist_valid cfg proc :
  valid_config cfg -> valid_config (Cfg.add_Whitelist cfg proc).
Proof.
  clear TrimSpace ToLower Base.
  intros (A & B & C & D & E).
  split; [exact A|]. split; [exact B|]. split; [exact C|]. split; [exact D|].
  intro k. cbn [Whitelist WhitelistSet Cfg.add_Whitelist].
  rewrite map_insert_has, orb_true_iff, in_app_iff, E, String.eqb_eq.
  cbn. intuition.
Qed.

Lemma config_key_valid cfg k v :
  valid_config cfg -> snd (config_key cfg k v) = None ->
  valid_config (fst (config_key cfg k v)).
Proof.
  intros (A & B & C & D & E). unfold Cfg.config_key.
  destruct (String.eqb k "interval_seconds").
  { match goal with |- context [if ?c then _ else _] => destruct c end;
      cbn; [discriminate|]. intros _. repeat apply conj; assumption. }
  destruct (String.eqb k "hit_mode").
  { pose proof (@parsePerf_known v) as P.
    destruct (snd (parsePerf v)); cbn; [discriminate|].
    intros _. repeat apply conj; try assumption. now apply P. }
  destruct (String.eqb k "hit_poll").
  { destruct (snd (parseInt v)); cbn; [discriminate|].
    pose proof (@pollingToYY_supported (fst (parseInt v))) as P.
    destruct (snd (pollingToYY (fst (parseInt v)))); cbn; [discriminate|].
    intros _. repeat apply conj; try assumption. now apply P. }
  destruct (String.eqb k "default_mode").
  { pose proof (@parsePerf_known v) as P.
    destruct (snd (parsePerf v)); cbn; [discriminate|].
    intros _. repeat apply conj; try assumption. now apply P. }
  destruct (String.eqb k "default_poll").
  { destruct (snd (parseInt v)); cbn; [discriminate|].
    pose proof (@pollingToYY_supported (fst (parseInt v))) as P.
    destruct (snd (pollingToYY (fst (parseInt v)))); cbn; [discriminate|].
    intros _. repeat apply conj; try assumption. now apply P. }
  cbn. intros _. repeat apply conj; assumption.
Qed.

Lemma config_line_valid cfg text :
  valid_config cfg -> snd (config_line cfg text) = None ->
  valid_config (fst (config_line cfg text)).
Proof.
  intros V.
  destruct (config_line_cases cfg text)
    as [(_ & _ & _ & ->) | [(k & v & _ & _ & _ & ->) | (_ & _ & _ & ->)]];
    cbn [fst snd].
  - auto.
  - now apply config_key_valid.
  - intros _. now apply add_Whitelist_valid.
Qed.

Lemma defaultConfig_valid path : valid_config (Cfg.defaultConfig path).
Proof.
  unfold valid_config, supported_rate, known_mode. cbn.
  repeat apply conj; auto. intro k. split; [discriminate | intros []].
Qed.

Lemma config_lines_keep_valid lines : forall cfg,
  valid_config cfg ->
  snd (config_lines lines cfg) = None ->
  valid_config (fst (config_lines lines cfg)).
Proof.
  induction lines as [|t lines IH]; intros cfg V; cbn [Cfg.config_lines].
  - auto.
  - pose proof (@config_line_valid cfg t V) as S.
    destruct (snd (config_line cfg t)); cbn [snd fst]; [discriminate|].
    apply IH. now apply S.
Qed.

(** Whatever the lines, the configuration the loop builds from the defaults,
    when it accepts them all, has supported polling rates and known modes for
    both the whitelisted and the default case, and a whitelist set with
    exactly the entries of the whitelist: a rate or a mode the device code
    does not know never leaves the loader.  The same holds from any valid
    configuration, and of every prefix of the lines. *)
Theorem config_lines_valid (lines : list string) (path : string) :
  (snd (config_lines lines (Cfg.defaultConfig path)) = None ->
   valid_config (fst (config_lines lines (Cfg.defaultConfig path)))) /\
  (forall cfg l1 l2,
      lines = l1 ++ l2 -> valid_config cfg ->
      snd (config_lines lines cfg) = None ->
      valid_config (fst (config_lines l1 cfg)) /\
      valid_config (fst (config_lines lines cfg))).
Proof.
  split.
  - apply config_lines_keep_valid, defaultConfig_valid.
  - intros cfg l1 l2 -> V O. split; [|now apply config_lines_keep_valid].
    rewrite config_lines_app in O.
    destruct (snd (config_lines l1 cfg)) eqn:E.
    + rewrite E in O. discriminate.
    + apply config_lines_keep_valid; assumption.
Qed.


Lemma config_key_whitelist cfg k v :
  Whitelist (fst (config_key cfg k v)) = Whitelist cfg /\
  WhitelistSet (fst (config_key cfg k v)) = WhitelistSet cfg /\
  ConfigPath (fst (config_key cfg k v)) = ConfigPath cfg.
Proof.
  unfold Cfg.config_key.
  repeat match goal with
         | |- context [if ?c then _ else _] => destruct c
         | |- context [match ?c with Some _ => _ | None => _ end] => destruct c
         end; cbn; auto.
Qed.

(** The whitelist is, in file order, the lower-cased base name of every line
    that is neither blank, nor a comment, nor has an [=] after its first
    byte; settings never touch it.  A line that begins with [=] is such a
    whitelist line, and a line such as [game=1.exe] is not. *)
Theorem config_lines_whitelist lines : forall cfg,
  snd (config_lines lines cfg) = None ->
  Whitelist (fst (config_lines lines cfg)) =
  Whitelist cfg ++
  map (fun text => ToLower (Base (TrimSpace text))) (filter whitelist_line lines).
Proof.
  induction lines as [|t lines IH]; intros cfg; cbn [Cfg.config_lines filter map].
  - intros _. now rewrite app_nil_r.
  - destruct (config_line_cases cfg t)
      as [(_ & Wl & _ & E) | [(k & v & _ & _ & Wl & E) | (Wl & _ & _ & E)]];
      rewrite E, Wl; clear E.
    + cbn [fst snd]. apply IH.
    + destruct (snd (config_key cfg k v)) eqn:S; [discriminate|].
      intro O. rewrite (IH _ O).
      now rewrite (proj1 (config_key_whitelist cfg k v)).
    + cbn [fst snd map]. intro O. rewrite (IH _ O). cbn.
      now rewrite <- app_assoc.
Qed.

Lemma config_line_ignored cfg text :
  ignored text = true -> config_line cfg text = (cfg, None).
Proof.
  unfold ignored_line. intro I.
  destruct (config_line_cases cfg text)
    as [(_ & _ & _ & E) | [(k & v & S & Sk & _ & E) | (_ & Sk & S & E)]].
  - exact E.
  - rewrite Sk, S in I. cbn in I. rewrite E.
    unfold known_key in I. apply negb_true_iff in I.
    repeat (apply orb_false_iff in I; destruct I as [I ?]).
    unfold Cfg.config_key.
    repeat match goal with H : String.eqb k _ = false |- _ => rewrite H; clear H end.
    reflexivity.
  - rewrite Sk, S in I. discriminate.
Qed.

(** Blank lines, comments and settings with an unknown key may be added to
    or removed from the file anywhere without changing what is loaded. *)
Theorem config_lines_ignored l1 text l2 cfg :
  ignored text = true ->
  config_lines (l1 ++ text :: l2) cfg = config_lines (l1 ++ l2) cfg.
Proof.
  intro I. rewrite !config_lines_app.
  destruct (snd (config_lines l1 cfg)); [reflexivity|].
  cbn [Cfg.config_lines]. now rewrite config_line_ignored.
Qed.

(** The loop stops at the first line it rejects and returns that line's
    error, whatever follows; while lines are accepted, each is read in the
    configuration the lines before it produced. *)
Theorem config_lines_sequence l1 l2 cfg :
  (forall e, snd (config_lines l1 cfg) = Some e ->
             snd (config_lines (l1 ++ l2) cfg) = Some e) /\
  (snd (config_lines l1 cfg) = None ->
   config_lines (l1 ++ l2) cfg = config_lines l2 (fst (config_lines l1 cfg))).
Proof.
  rewrite config_lines_app. split.
  - intros e E. now rewrite E.
  - intro E. now rewrite E.
Qed.

Lemma setting_key_inj st st' : setting_key st = setting_key st' -> st = st'.
Proof. destruct st, st'; cbn; intro H; try reflexivity; discriminate. Qed.

(** A line that does not set [st]'s key leaves [st]'s field alone, accepted
    or not. *)
Lemma config_line_keeps st cfg text :
  sets_key (setting_key st) text = false ->
  setting_field st (fst (config_line cfg text)) = setting_field st cfg.
Proof.
  unfold Lines.sets_key. intro Sk.
  destruct (config_line_cases cfg text)
    as [(_ & _ & _ & E) | [(k & v & S & _ & _ & E) | (_ & _ & _ & E)]];
    rewrite E; clear E.
  - reflexivity.
  - rewrite S in Sk. unfold Cfg.config_key.
    destruct st; cbn [setting_key] in Sk;
      repeat match goal with
             | |- context [if String.eqb k ?x then _ else _] =>
                 destruct (String.eqb_spec k x); [try (subst k; discriminate)|]
             end;
      repeat match goal with
             | |- context [if ?c then _ else _] => destruct c
             | |- context [match ?c with Some _ => _ | None => _ end] => destruct c
             end; reflexivity.
  - destruct st; reflexivity.
Qed.

Lemma config_lines_keeps st lines : forall cfg,
  (forall text, In text lines -> sets_key (setting_key st) text = false) ->
  setting_field st (fst (config_lines lines cfg)) = setting_field st cfg.
Proof.
  induction lines as [|t lines IH]; intros cfg H; cbn [Cfg.config_lines].
  - reflexivity.
  - assert (K : setting_field st (fst (config_line cfg t)) = setting_field st cfg)
      by (apply config_line_keeps, H; now left).
    destruct (snd (config_line cfg t)); cbn [fst]; [exact K|].
    rewrite IH; [exact K|]. intros text I. apply H. now right.
Qed.

(** An accepted line that sets [st]'s key stores the value read from it. *)
Lemma config_line_stores st cfg text v :
  setting_of text = Some (setting_key st, v) ->
  snd (config_line cfg text) = None ->
  setting_field st (fst (config_line cfg text)) =
  setting_stored TrimSpace ToLower int_bits st v.
Proof.
  intro S.
  destruct (config_line_cases cfg text)
    as [(_ & _ & S' & E) | [(k & v' & S' & _ & _ & E) | (_ & _ & S' & E)]];
    rewrite S in S'; try discriminate.
  injection S' as <- <-. rewrite E. clear E. unfold Cfg.config_key.
  destruct st; cbn [setting_key String.eqb Ascii.eqb Bool.eqb andb];
    repeat match goal with
           | |- context [if ?c then _ else _] => destruct c
           | |- context [match ?c with Some _ => _ | None => _ end] => destruct c
           end; cbn; try discriminate; reflexivity.
Qed.

(** Each setting is decided by the last line that sets it: in an accepted
    file the field holds the value of that line, and the default when no line
    sets it.  Earlier lines for the same key are overridden without notice. *)
Theorem config_lines_last_wins (st : setting) l1 text v l2 cfg :
  (snd (config_lines (l1 ++ text :: l2) cfg) = None ->
   setting_of text = Some (setting_key st, v) ->
   (forall t, In t l2 -> sets_key (setting_key st) t = false) ->
   setting_field st (fst (config_lines (l1 ++ text :: l2) cfg)) =
   setting_stored TrimSpace ToLower int_bits st v) /\
  ((forall t, In t l1 -> sets_key (setting_key st) t = false) ->
   setting_field st (fst (config_lines l1 cfg)) = setting_field st cfg).
Proof.
  split; [|now apply config_lines_keeps].
  rewrite config_lines_app.
  destruct (snd (config_lines l1 cfg)) eqn:E1; [now rewrite E1|].
  cbn [Cfg.config_lines].
  destruct (snd (config_line (fst (config_lines l1 cfg)) text)) eqn:E2;
    cbn [snd fst]; [discriminate|].
  intros _ S K. rewrite config_lines_keeps by exact K.
  now apply config_line_stores.
Qed.

End ParseFacts.


(** * The program around the device code *)

(** ** [u32ptrFromI32] and [handleError] *)

(** For an [int32] value, [u32ptrFromI32] is the 32-bit two's-complement
    pattern, not sign-extended: below [2 ^ 32], equal to the value when it is
    not negative and to the value plus [2 ^ 32] when it is; distinct values
    give distinct patterns. *)
Theorem u32ptrFromI32_pattern (v : Z) :
  - 2 ^ 31 <= v < 2 ^ 31 ->
  0 <= u32ptrFromI32 v < 2 ^ 32 /\
  (0 <= v -> u32ptrFromI32 v = v) /\
  (v < 0 -> u32ptrFromI32 v = v + 2 ^ 32) /\
  (forall v', - 2 ^ 31 <= v' < 2 ^ 31 ->
              u32ptrFromI32 v = u32ptrFromI32 v' -> v = v').
Proof.
  intro R. unfold u32ptrFromI32.
  assert (P : forall x, - 2 ^ 31 <= x < 2 ^ 31 ->
                        x mod 2 ^ 32 = if x <? 0 then x + 2 ^ 32 else x).
  { intros x Rx. destruct (Z.ltb_spec x 0).
    - symmetry. apply (Z.mod_unique x (2 ^ 32) (-1) (x + 2 ^ 32)); lia.
    - apply Z.mod_small. lia. }
  split; [apply Z.mod_pos_bound; lia|].
  split; [intro; rewrite P by assumption; destruct (Z.ltb_spec v 0); lia|].
  split; [intro; rewrite P by assumption; destruct (Z.ltb_spec v 0); lia|].
  intros v' R' E. rewrite !P in E by assumption.
  destruct (Z.ltb_spec v 0), (Z.ltb_spec v' 0); lia.
Qed.

Lemma u32ptrFromI32_pattern_witness :
  u32ptrFromI32 THREAD_PRIORITY_LOWEST = 4294967294 /\
  u32ptrFromI32 THREAD_PRIORITY_IDLE = THREAD_PRIORITY_IDLE + 2 ^ 32.
Proof.
  split; [vm_compute; reflexivity|].
  assert (R : - 2 ^ 31 <= THREAD_PRIORITY_IDLE < 2 ^ 31)
    by (unfold THREAD_PRIORITY_IDLE; lia).
  destruct (u32ptrFromI32_pattern R) as (_ & _ & H & _).
  apply H. unfold THREAD_PRIORITY_IDLE. lia.
Defined.

(** [handleError] leaves in [*lastErr] the error text of the turn just ended.
    It logs that text exactly when it is non-empty and differs from the one
    before: an error repeated on the next turn is logged once, and logged
    again when it comes back after a turn without error. *)
Theorem handleError_logs (lastErr errStr : string) :
  fst (handleError lastErr errStr) = errStr /\
  (forall line, snd (handleError lastErr errStr) = Some line ->
                line = errStr /\ errStr <> EmptyString /\ errStr <> lastErr) /\
  (errStr <> EmptyString -> errStr <> lastErr ->
   snd (handleError lastErr errStr) = Some errStr) /\
  snd (handleError (fst (handleError lastErr errStr)) errStr) = None /\
  (errStr <> EmptyString ->
   snd (handleError (fst (handleError errStr EmptyString)) errStr) = Some errStr).
Proof.
  assert (F : forall l e, fst (handleError l e) = e).
  { intros l e. unfold handleError.
    destruct (String.eqb_spec e EmptyString) as [E|N];
      destruct (String.eqb_spec e l) as [E'|N']; cbn [negb andb fst];
      congruence. }
  split; [apply F|]. rewrite !F.
  unfold handleError.
  destruct (String.eqb_spec errStr EmptyString) as [E|N];
    destruct (String.eqb_spec errStr lastErr) as [E'|N']; cbn [negb andb snd];
    rewrite ?String.eqb_refl; cbn [negb andb snd];
    repeat split; try discriminate; try congruence;
    try (intros line [= <-]; auto);
    try (destruct (String.eqb_spec errStr EmptyString); [contradiction|reflexivity]).
Qed.

Lemma handleError_logs_witness :
  snd (handleError EmptyString "device unplugged") = Some "device unplugged"%string /\
  snd (handleError (fst (handleError "device unplugged" EmptyString)) "device unplugged")
  = Some "device unplugged"%string.
Proof.
  destruct (handleError_logs EmptyString "device unplugged") as (_ & _ & A & _ & B).
  split; [apply A; discriminate | apply B; discriminate].
Defined.


Section AppFacts.
Variable W : Type.
Variable os : OSLayer W.
Variable fs : FSLayer W.
Variable user : UserLayer W.
Variable TrimSpace : string -> string.
Variable ToLower : string -> string.
Variable Base : string -> string.
Variable Error : error -> string.
Variable int_bits : Z.
Variable uintptr_bits : Z.

Abbreviation loadConfig := (App.loadConfig fs TrimSpace ToLower Base int_bits).
Abbreviation reloadConfigIfChanged :=
  (App.reloadConfigIfChanged fs TrimSpace ToLower Base int_bits).
Abbreviation ForegroundProcessName := (App.ForegroundProcessName user ToLower Base).
Abbreviation tickOnce := (App.tickOnce os user ToLower Base uintptr_bits).
Abbreviation mainTurn :=
  (App.mainTurn os fs user TrimSpace ToLower Base Error int_bits uintptr_bits).
Abbreviation FindOne := (Hid.FindOneVaxeeDevice os ToLower uintptr_bits).
Abbreviation Apply := (Hid.ApplyVaxeeSetting os ToLower uintptr_bits).

(** ** [loadConfig] and [reloadConfigIfChanged] *)

Lemma config_lines_path lines : forall cfg,
  ConfigPath (fst (Cfg.config_lines TrimSpace ToLower Base int_bits lines cfg)) =
  ConfigPath cfg.
Proof.
  induction lines as [|t lines IH]; intro cfg; cbn [Cfg.config_lines].
  - reflexivity.
  - assert (P : ConfigPath (fst (Cfg.config_line TrimSpace ToLower Base int_bits cfg t))
                = ConfigPath cfg).
    { destruct (config_line_cases TrimSpace ToLower Base int_bits cfg t)
        as [(_ & _ & _ & ->) | [(k & v & _ & _ & _ & ->) | (_ & _ & _ & ->)]].
      - reflexivity.
      - apply config_key_whitelist.
      - reflexivity. }
    destruct (snd (Cfg.config_line TrimSpace ToLower Base int_bits cfg t));
      cbn [fst]; [exact P|]. now rewrite IH.
Qed.

Lemma loadConfig_silent path : silent (loadConfig path).
Proof.
  unfold App.loadConfig. apply silent_bind; [apply silent_call|]. intro st.
  destruct (snd st); [apply silent_ret|].
  apply silent_bind; [apply silent_call|]. intro f.
  destruct (snd f); [apply silent_ret|].
  destruct (snd (Cfg.config_lines _ _ _ _ _ _)); [apply silent_ret|].
  destruct (snd (fst f)); apply silent_ret.
Qed.

(** The four ways [loadConfig] ends. *)
Lemma loadConfig_cases (path : string) (w : W) :
  let st := os_Stat fs path w in
  let f := os_Open_Scan fs path (snd st) in
  let res := Cfg.config_lines TrimSpace ToLower Base int_bits
               (fst (fst (fst f))) (Cfg.defaultConfig path) in
  match snd (fst st) with
  | Some code =>
      value (loadConfig path w) = (None, zeroTime, Some (ErrFile code)) /\
      world (loadConfig path w) = snd st
  | None =>
      world (loadConfig path w) = snd f /\
      match snd (fst f) with
      | Some code => value (loadConfig path w) = (None, zeroTime, Some (ErrFile code))
      | None =>
          match snd res with
          | Some e => value (loadConfig path w) = (None, zeroTime, Some e)
          | None =>
              match snd (fst (fst f)) with
              | Some code =>
                  value (loadConfig path w) = (None, zeroTime, Some (ErrFile code))
              | None =>
                  value (loadConfig path w) = (Some (fst res), fst (fst st), None)
              end
          end
      end
  end.
Proof.
  intros st f res. unfold App.loadConfig.
  rewrite value_bind, world_bind. cbn [call value world]. fold st.
  destruct (snd (fst st)) as [c|]; [split; reflexivity|].
  rewrite value_bind, world_bind. cbn [call value world]. fold f.
  destruct (snd (fst f)) as [c|]; [split; reflexivity|].
  fold res.
  destruct (snd res) as [e|]; [split; reflexivity|].
  destruct (snd (fst (fst f))) as [c|]; split; reflexivity.
Qed.

Lemma loadConfig_ok (path : string) (w : W) :
  snd (value (loadConfig path w)) = None ->
  exists cfg,
    value (loadConfig path w) = (Some cfg, fst (fst (os_Stat fs path w)), None) /\
    valid_config cfg /\ ConfigPath cfg = path.
Proof.
  pose proof (loadConfig_cases path w) as C. cbv zeta in C.
  destruct (snd (fst (os_Stat fs path w))); [destruct C as [-> _]; discriminate|].
  destruct C as [_ C].
  destruct (snd (fst (os_Open_Scan fs path (snd (os_Stat fs path w)))));
    [rewrite C; discriminate|].
  destruct (snd (Cfg.config_lines _ _ _ _ _ _)) eqn:R; [rewrite C; discriminate|].
  destruct (snd (fst (fst (os_Open_Scan fs path (snd (os_Stat fs path w))))));
    [rewrite C; discriminate|].
  intros _. eexists. split; [exact C|]. split.
  - apply config_lines_keep_valid; [apply defaultConfig_valid | exact R].
  - apply config_lines_path.
Qed.

Lemma loadConfig_failed (path : string) (w : W) :
  snd (value (loadConfig path w)) <> None ->
  fst (value (loadConfig path w)) = (None, zeroTime).
Proof.
  pose proof (loadConfig_cases path w) as C. cbv zeta in C.
  destruct (snd (fst (os_Stat fs path w))); [destruct C as [-> _]; reflexivity|].
  destruct C as [_ C].
  destruct (snd (fst (os_Open_Scan fs path (snd (os_Stat fs path w)))));
    [rewrite C; reflexivity|].
  destruct (snd (Cfg.config_lines _ _ _ _ _ _)); [rewrite C; reflexivity|].
  destruct (snd (fst (fst (os_Open_Scan fs path (snd (os_Stat fs path w))))));
    rewrite C; [reflexivity|]. intro N. now contradiction N.
Qed.

(** [loadConfig] returns either a configuration, the file's modification
    time and no error, or no configuration, the zero time and an error.  The
    configuration it returns is valid and records the path it was loaded
    from.  A file that cannot be stat'ed is not opened, and an error of the
    scanner fails the load even when every line read was accepted. *)
Theorem loadConfig_result (path : string) (w : W) :
  let r := value (loadConfig path w) in
  let st := os_Stat fs path w in
  let f := os_Open_Scan fs path (snd st) in
  (snd r = None ->
   exists cfg, fst (fst r) = Some cfg /\ valid_config cfg /\
               ConfigPath cfg = path /\ snd (fst r) = fst (fst st)) /\
  (snd r <> None -> fst (fst r) = None /\ snd (fst r) = zeroTime) /\
  (forall code, snd (fst st) = Some code ->
                r = (None, zeroTime, Some (ErrFile code)) /\
                world (loadConfig path w) = snd st) /\
  (forall code, snd (fst st) = None -> snd (fst f) = None ->
                snd (fst (fst f)) = Some code ->
                snd r <> None).
Proof.
  intros r st f. subst r.
  split.
  { intro O. destruct (loadConfig_ok path w O) as (cfg & E & V & P).
    exists cfg. rewrite E. auto. }
  split.
  { intro N. rewrite (loadConfig_failed path w N). auto. }
  pose proof (loadConfig_cases path w) as C. cbv zeta in C. fold st in C. fold f in C.
  split.
  - intros code S. rewrite S in C. exact C.
  - intros code S O Sc. rewrite S, O, Sc in C. destruct C as [_ C].
    destruct (snd (Cfg.config_lines _ _ _ _ _ _)); rewrite C; discriminate.
Qed.

(** After [reloadConfigIfChanged] the configuration in force is the one
    before, with its modification time, unless the file was newer and loaded
    without error; then it is the loaded one, which is valid.  So a file that
    fails to load never replaces a valid configuration, and, its time not
    being recorded, it is tried again at the next turn.  A file that is not
    newer, or cannot be stat'ed, is not read. *)
Theorem reloadConfigIfChanged_keeps_valid (cfgPath : string) (cfg : Config)
  (modTime : Z) (w : W) :
  let r := value (reloadConfigIfChanged cfgPath cfg modTime w) in
  let st := os_Stat fs cfgPath w in
  (valid_config cfg -> valid_config (fst (fst r))) /\
  (snd r <> Reloaded -> fst (fst r) = cfg /\ snd (fst r) = modTime) /\
  (snd r = Reloaded ->
   valid_config (fst (fst r)) /\ snd (fst st) = None /\ modTime < fst (fst st) /\
   value (loadConfig cfgPath (snd st)) = (Some (fst (fst r)), snd (fst r), None)) /\
  (snd (fst st) <> None \/ fst (fst st) <= modTime ->
   snd r = ReloadNone /\
   world (reloadConfigIfChanged cfgPath cfg modTime w) = snd st).
Proof.
  intros r st. subst r. unfold App.reloadConfigIfChanged.
  rewrite value_bind, world_bind. cbn [call value world]. fold st.
  destruct (snd (fst st)) as [c|] eqn:S; cbn [is_none andb].
  { cbn [ret value world fst snd].
    split; [auto|]. split; [auto|]. split; [discriminate|]. auto. }
  destruct (Z.ltb_spec modTime (fst (fst st))) as [L|L].
  2:{ cbn [ret value world fst snd].
      split; [auto|]. split; [auto|]. split; [discriminate|]. auto. }
  rewrite value_bind.
  pose proof (loadConfig_ok cfgPath (snd st)) as Ok.
  pose proof (loadConfig_failed cfgPath (snd st)) as Ko.
  destruct (value (loadConfig cfgPath (snd st))) as [[[nc|] mt] [e|]] eqn:V;
    cbn [ret value fst snd] in *.
  - discriminate Ko; discriminate.
  - destruct (Ok eq_refl) as (c & [= <- _] & Vc & _).
    split; [auto|]. split; [intro N; now contradiction N|].
    split; [auto|]. intros [N | N]; [now contradiction N | lia].
  - split; [auto|]. split; [auto|]. split; [discriminate|].
    intros [N | N]; [now contradiction N | lia].
  - destruct (Ok eq_refl) as (c & [=] & _).
Qed.


(** ** [tickOnce] *)

Lemma ForegroundProcessName_silent : silent ForegroundProcessName.
Proof.
  unfold App.ForegroundProcessName.
  apply silent_bind; [apply silent_call|]. intro hwnd.
  destruct (hwnd =? 0); [apply silent_ret|].
  apply silent_bind; [apply silent_call|]. intro pid.
  destruct (pid =? 0); [apply silent_ret|].
  apply silent_bind; [apply silent_call|]. intro p.
  destruct (fst p =? 0); [apply silent_ret|].
  apply silent_bind; [apply silent_call|]. intro q.
  apply silent_bind; [apply silent_call_|]. intro u. apply silent_ret.
Qed.

(** The ways [tickOnce] ends. *)
Lemma tickOnce_cases (cfg : Config) (last : Applied) (w : W) :
  let fg := ForegroundProcessName w in
  let proc := ToLower (Base (fst (value fg))) in
  let want := wanted cfg proc in
  let d := FindOne (world fg) in
  let a := Apply (Path (fst (value d))) (fst want) (snd want) (world d) in
  match snd (value fg) with
  | Some _ => tickOnce cfg last w = Out (TickIdle, last) (world fg) []
  | None =>
      if ok last && Byte.eqb (perf last) (fst want) && (poll last =? snd want)
      then tickOnce cfg last w = Out (TickIdle, last) (world fg) []
      else
        match snd (value d) with
        | Some e =>
            value (tickOnce cfg last w) = (TickFindFailed e, last) /\
            world (tickOnce cfg last w) = world d /\
            emitted (tickOnce cfg last w) = emitted d
        | None =>
            value (tickOnce cfg last w) =
              match value a with
              | Some err => (TickApplyFailed err, last)
              | None => (TickSwitched (map_has proc (WhitelistSet cfg)) proc
                           (fst want) (snd want),
                         {| perf := fst want; poll := snd want; ok := true |})
              end /\
            world (tickOnce cfg last w) = world a /\
            emitted (tickOnce cfg last w) = emitted d ++ emitted a
        end
  end.
Proof.
  intros fg proc want d a. unfold App.tickOnce.
  rewrite bind_silent by apply ForegroundProcessName_silent. fold fg.
  destruct (snd (value fg)); [reflexivity|]. fold proc.
  assert (Wp : (if map_has proc (WhitelistSet cfg) then HitMode cfg else DefaultMode cfg)
               = fst want)
    by (unfold want, wanted; destruct (map_has proc (WhitelistSet cfg)); reflexivity).
  assert (Wq : (if map_has proc (WhitelistSet cfg) then HitPoll cfg else DefaultPoll cfg)
               = snd want)
    by (unfold want, wanted; destruct (map_has proc (WhitelistSet cfg)); reflexivity).
  rewrite Wp, Wq.
  destruct (ok last && Byte.eqb (perf last) (fst want) && (poll last =? snd want));
    [reflexivity|].
  rewrite value_bind, world_bind, emitted_bind. fold d.
  destruct (snd (value d)); [cbn; rewrite app_nil_r; auto|].
  rewrite value_bind, world_bind, emitted_bind. fold a.
  destruct (value a); cbn [ret value world emitted]; rewrite app_nil_r; auto.
Qed.

(** [tickOnce] does nothing at all when the foreground process cannot be
    named, or when the settings it wants are the ones recorded as applied:
    it records no event, leaves the record of what is applied alone and
    leaves the OS in the state the foreground query left it in.  This holds
    of every OS layer, a recording one included, so no device call is made. *)
Theorem tickOnce_idle (cfg : Config) (last : Applied) (w : W) :
  let fg := ForegroundProcessName w in
  let want := wanted cfg (ToLower (Base (fst (value fg)))) in
  snd (value fg) <> None \/
  (ok last = true /\ perf last = fst want /\ poll last = snd want) ->
  tickOnce cfg last w = Out (TickIdle, last) (world fg) [].
Proof.
  intros fg want H.
  pose proof (tickOnce_cases cfg last w) as C. cbv zeta in C.
  fold fg in C. fold want in C.
  destruct (snd (value fg)); [exact C|].
  destruct H as [N | (O & P & Q)]; [now contradiction N|].
  rewrite O, P, Q, Z.eqb_refl in C.
  assert (E : Byte.eqb (fst want) (fst want) = true) by (now apply Byte.byte_dec_lb).
  rewrite E in C. exact C.
Qed.


(** The record of what is applied changes only on a switch, and then to the
    settings just applied: those of the whitelist when the lower-cased base
    name of the foreground process is in it, the default ones otherwise.
    When the device is not found or a report fails, the record stays as it
    was, so the switch is tried again on the next turn. *)
Theorem tickOnce_record (cfg : Config) (last : Applied) (w : W) :
  let r := value (tickOnce cfg last w) in
  let name := fst (value (ForegroundProcessName w)) in
  (forall hit proc p q,
      fst r = TickSwitched hit proc p q ->
      snd r = {| perf := p; poll := q; ok := true |} /\
      proc = ToLower (Base name) /\
      hit = map_has proc (WhitelistSet cfg) /\
      (p, q) = (if hit then (HitMode cfg, HitPoll cfg)
                else (DefaultMode cfg, DefaultPoll cfg))) /\
  ((forall hit proc p q, fst r <> TickSwitched hit proc p q) -> snd r = last).
Proof.
  intros r name. subst r.
  pose proof (tickOnce_cases cfg last w) as C. cbv zeta in C. fold name in C.
  destruct (snd (value (ForegroundProcessName w))).
  { rewrite C. cbn. split; [discriminate | reflexivity]. }
  destruct (ok last && _ && _).
  { rewrite C. cbn. split; [discriminate | reflexivity]. }
  destruct (snd (value (FindOne _))).
  { destruct C as (-> & _). cbn. split; [discriminate | reflexivity]. }
  destruct C as (-> & _).
  destruct (value (Apply _ _ _ _)).
  { cbn. split; [discriminate | reflexivity]. }
  cbn [fst snd]. split.
  - intros hit proc p q [= <- <- <- <-].
    repeat split. unfold wanted.
    now destruct (map_has (ToLower (Base name)) (WhitelistSet cfg)).
  - intro N. exfalso. eapply N. reflexivity.
Qed.

Lemma wanted_supported (cfg : Config) (proc : string) :
  valid_config cfg -> snd (pollingToYY (snd (wanted cfg proc))) = None.
Proof.
  intros (A & B & _). unfold wanted.
  destruct (map_has proc (WhitelistSet cfg)); now apply supported_pollingToYY.
Qed.

(** With a configuration from [loadConfig], a switch never fails on the
    polling rate: a failure of [ApplyVaxeeSetting] is the failure of one of
    the two sends.  A completed switch has sent, and the device has accepted,
    exactly two reports to one path: command 0x08 with the wanted mode, then
    command 0x07 with the byte of the wanted rate.  When the second send
    fails the first report stays sent while the record of what is applied
    still holds the old settings. *)
Theorem tickOnce_valid_config (cfg : Config) (last : Applied) (w : W) :
  valid_config cfg ->
  let r := value (tickOnce cfg last w) in
  let t := emitted (tickOnce cfg last w) in
  (forall e, fst r = TickFindFailed e -> sends t = [] /\ snd r = last) /\
  (forall e, fst r = TickApplyFailed e ->
             snd r = last /\
             ((exists c path rep1,
                  e = ErrPerfReport c /\
                  sends t = [EvSendFeatureReport path rep1 (Some c)]) \/
              (exists c path rep1 rep2,
                  e = ErrPollReport c /\
                  sends t = [EvSendFeatureReport path rep1 None;
                             EvSendFeatureReport path rep2 (Some c)]))) /\
  (forall hit proc p q,
      fst r = TickSwitched hit proc p q ->
      exists path rep1 rep2,
        sends t = [EvSendFeatureReport path rep1 None;
                   EvSendFeatureReport path rep2 None] /\
        nth_error rep1 2 = Some x08 /\ nth_error rep1 5 = Some p /\
        nth_error rep2 2 = Some x07 /\
        nth_error rep2 5 = Some (fst (pollingToYY q))).
Proof.
  intros V r t. subst r t.
  pose proof (tickOnce_cases cfg last w) as C. cbv zeta in C.
  set (fg := ForegroundProcessName w) in *.
  set (want := wanted cfg (ToLower (Base (fst (value fg))))) in *.
  pose proof (@wanted_supported cfg (ToLower (Base (fst (value fg)))) V) as Sup.
  fold want in Sup.
  destruct (snd (value fg)).
  { rewrite C. cbn. repeat split; discriminate. }
  destruct (ok last && _ && _).
  { rewrite C. cbn. repeat split; discriminate. }
  set (d := FindOne (world fg)) in *.
  pose proof (FindOneVaxeeDevice_sends os ToLower uintptr_bits (world fg)) as Sd.
  fold d in Sd.
  destruct (snd (value d)).
  { destruct C as (-> & _ & ->). cbn [fst snd].
    split; [intros e0 _; auto|]. split; discriminate. }
  destruct C as (-> & _ & ->).
  destruct (ApplyVaxeeSetting_run os ToLower uintptr_bits
              (Path (fst (value d))) (fst want) (snd want) (world d))
    as (tr & Et & Run).
  pose proof (FindOneVaxeeDevice_sends os ToLower uintptr_bits (world d)) as Sf.
  assert (S : sends (emitted d ++
                     emitted (Apply (Path (fst (value d))) (fst want) (snd want) (world d)))
              = sends tr).
  { rewrite Et. unfold sends in *. now rewrite !filter_app, Sd, Sf. }
  rewrite S. clear S Et.
  set (v := value (Apply (Path (fst (value d))) (fst want) (snd want) (world d))) in *.
  clearbody v.
  inversion Run as [c Etr Ev | yy c Y Etr Ev | yy c Y Etr Ev | yy Y Etr Ev];
    subst tr v; cbn [fst snd].
  - split; [discriminate|]. split; [|discriminate].
    intros e [= <-]. split; [reflexivity|]. left. eexists. eexists. eexists.
    split; reflexivity.
  - rewrite Y in Sup. discriminate.
  - split; [discriminate|]. split; [|discriminate].
    intros e [= <-]. split; [reflexivity|]. right.
    eexists. eexists. eexists. eexists. split; reflexivity.
  - split; [discriminate|]. split; [discriminate|].
    intros hit proc p q [= _ _ <- <-].
    eexists. eexists. eexists. split; [reflexivity|].
    rewrite Y. cbn [fst]. rewrite !buildReportSized_eq. repeat split.
Qed.

(** ** One turn of the main loop *)

(** A turn of the loop is a reload followed by a tick in the configuration
    the reload left.  It keeps the configuration valid, leaves in [lastErr]
    the error text of its tick (empty when the tick did not fail), ends by
    sleeping for the interval of the configuration then in force, and changes
    the record of what is applied only by a switch. *)
Theorem mainTurn_invariant (cfgPath : string) (s : App.MainState) (w : W) :
  valid_config (App.st_cfg s) ->
  let r := reloadConfigIfChanged cfgPath (App.st_cfg s) (App.st_modTime s) w in
  let t := tickOnce (fst (fst (value r))) (App.st_last s) (world r) in
  let s' := value (mainTurn cfgPath s w) in
  valid_config (App.st_cfg s') /\
  App.st_cfg s' = fst (fst (value r)) /\
  App.st_last s' = snd (value t) /\
  App.st_lastErr s' = App.errStr Error (fst (value t)) /\
  (App.st_last s' <> App.st_last s ->
   exists hit proc p q, fst (value t) = TickSwitched hit proc p q) /\
  (exists evs, emitted (mainTurn cfgPath s w) =
               evs ++ [EvSleep (Interval (App.st_cfg s'))]).
Proof.
  intros V r t s'. subst s'. unfold App.mainTurn.
  rewrite !value_bind, !emitted_bind.
  fold r. fold t.
  cbn [ret value emitted App.st_cfg App.st_last App.st_lastErr].
  split; [|split; [reflexivity|split; [reflexivity|split; [|split]]]].
  - unfold r, App.reloadConfigIfChanged.
    rewrite value_bind. cbn [call value world].
    destruct (is_none _ && _); [|exact V].
    rewrite value_bind.
    pose proof (loadConfig_ok cfgPath (snd (os_Stat fs cfgPath w))) as Ok.
    destruct (value (loadConfig cfgPath (snd (os_Stat fs cfgPath w))))
      as [[[nc|] mt] [e|]]; cbn [ret value fst snd] in *; try exact V.
    destruct (Ok eq_refl) as (c & [= <- _] & Vc & _). exact Vc.
  - unfold handleError.
    destruct (String.eqb_spec (App.errStr Error (fst (value t))) EmptyString) as [E|N];
      destruct (String.eqb_spec (App.errStr Error (fst (value t))) (App.st_lastErr s));
      cbn [negb andb fst]; congruence.
  - intro N.
    pose proof (tickOnce_cases (fst (fst (value r))) (App.st_last s) (world r)) as C.
    cbv zeta in C. fold t in C.
    destruct (snd (value (ForegroundProcessName (world r)))).
    { rewrite C in N. now contradiction N. }
    destruct (ok (App.st_last s) && _ && _).
    { rewrite C in N. now contradiction N. }
    destruct (snd (value (FindOne _))).
    { destruct C as (C & _). rewrite C in N. now contradiction N. }
    destruct C as (C & _). rewrite C in *.
    destruct (value (Apply _ _ _ _)).
    { now contradiction N. }
    cbn [fst]. eauto.
  - rewrite sleep_emitted, app_nil_r. rewrite app_assoc. eexists. reflexivity.
Qed.

End AppFacts.

(** * The calls into the OS *)

Section Calls.
Variable W : Type.
Variable os : OSLayer W.
Variable ToLower : string -> string.
Variable uintptr_bits : Z.

Lemma makes_ret {A} (a : A) (P : A -> list oscall -> Prop) :
  P a [] -> makes (ret (W := W * list oscall) a) P.
Proof. intros H s. exists []. cbn. now rewrite app_nil_r. Qed.

Lemma makes_bind {A B} (m : M (W * list oscall) A) (k : A -> M (W * list oscall) B)
  (P1 : A -> list oscall -> Prop) (P2 : A -> B -> list oscall -> Prop)
  (P : B -> list oscall -> Prop) :
  makes m P1 -> (forall a, makes (k a) (P2 a)) ->
  (forall a l1 b l2, P1 a l1 -> P2 a b l2 -> P b (l1 ++ l2)) ->
  makes (bind m k) P.
Proof.
  intros Hm Hk HP s.
  destruct (Hm s) as (l1 & E1 & H1).
  destruct (Hk (value (m s)) (world (m s))) as (l2 & E2 & H2).
  exists (l1 ++ l2). rewrite world_bind, value_bind, E2, E1, app_assoc.
  split; [reflexivity|]. eapply HP; eassumption.
Qed.

Lemma makes_weaken {A} (m : M (W * list oscall) A) (P Q : A -> list oscall -> Prop) :
  makes m P -> (forall a l, P a l -> Q a l) -> makes m Q.
Proof.
  intros Hm H s. destruct (Hm s) as (l & E & Hl). exists l. auto.
Qed.

Lemma makes_record {A} (f : W -> A * W) (c : A -> oscall) :
  makes (call (record f c)) (fun a l => l = [c a]).
Proof. intro s. eexists. split; reflexivity. Qed.

Lemma makes_record_ (f : W -> W) (c : oscall) :
  makes (call_ (record_ f c)) (fun _ l => l = [c]).
Proof. intro s. eexists. split; reflexivity. Qed.

(** *** Properties that hold of the empty list and of concatenations *)

Section Invariant.
Variable I : list oscall -> Prop.
Hypothesis I_nil : I [].
Hypothesis I_app : forall l1 l2, I l1 -> I l2 -> I (l1 ++ l2).

Lemma keeps_ret {A} (a : A) : keeps I (ret (W := W * list oscall) a).
Proof using I_nil. now apply makes_ret. Qed.

Lemma keeps_bind {A B} (m : M (W * list oscall) A) (k : A -> M (W * list oscall) B) :
  keeps I m -> (forall a, keeps I (k a)) -> keeps I (bind m k).
Proof using I_app.
  intros Hm Hk.
  apply makes_bind with (P1 := fun _ l => I l) (P2 := fun _ _ l => I l); auto.
Qed.

Lemma keeps_record {A} (f : W -> A * W) (c : A -> oscall) :
  (forall a, I [c a]) -> keeps I (call (record f c)).
Proof.
  intro H. eapply makes_weaken; [apply makes_record|].
  intros a l ->. apply H.
Qed.

Lemma keeps_record_ (f : W -> W) (c : oscall) :
  I [c] -> keeps I (call_ (record_ f c)).
Proof.
  intro H. eapply makes_weaken; [apply makes_record_|].
  intros a l ->. apply H.
Qed.

Lemma keeps_makes {A} (m : M (W * list oscall) A) (P : A -> list oscall -> Prop) :
  makes m P -> (forall a l, P a l -> I l) -> keeps I m.
Proof. intros. eapply makes_weaken; eauto. Qed.
End Invariant.
End Calls.

Ltac keep_step nil app :=
  first
    [ apply (keeps_ret _ nil)
    | apply keeps_record_
    | apply keeps_record; intro
    | apply (keeps_bind app); [ | intro ]
    | match goal with
      | |- keeps _ (if ?c then _ else _) => destruct c
      | |- keeps _ (match ?c with Some _ => _ | None => _ end) => destruct c
      end ].

Section CallFacts.
Variable W : Type.
Variable os : OSLayer W.
Variable ToLower : string -> string.
Variable uintptr_bits : Z.

Abbreviation tos := (traced os).

(** ** The enumeration only queries *)

Lemma query_only_nil : Forall query_only [].
Proof. constructor. Qed.

Lemma query_only_app l1 l2 :
  Forall query_only l1 -> Forall query_only l2 -> Forall query_only (l1 ++ l2).
Proof. intros. apply Forall_app. auto. Qed.

Ltac query_step :=
  keep_step query_only_nil query_only_app;
  try (repeat constructor; cbn; auto; fail).

Lemma queryDeviceInfo_query_only path :
  keeps (Forall query_only) (Hid.queryDeviceInfo tos uintptr_bits path).
Proof.
  unfold Hid.queryDeviceInfo, Hid.openHIDPathForQuery, Hid.hidGetString,
    Hid.queryCaps, Hid.lastErrno, Hid.closeHandle.
  cbn [traced CreateFileW CloseHandle GetLastError HidD_GetAttributes
       HidD_GetManufacturerString HidD_GetProductString HidD_GetPreparsedData
       HidD_FreePreparsedData HidP_GetCaps].
  repeat query_step.
Qed.

Lemma enum_loop_query_only rest : forall out,
  keeps (Forall query_only) (Hid.enum_loop tos ToLower uintptr_bits rest out).
Proof.
  induction rest as [|i rest IH]; intro out; cbn [Hid.enum_loop].
  - query_step.
  - pose proof (queryDeviceInfo_query_only (DevicePath i)) as Q.
    repeat first [apply IH | exact Q | query_step].
Qed.

Lemma enum_all_loop_query_only rest : forall out,
  keeps (Forall query_only) (App.enum_all_loop tos uintptr_bits rest out).
Proof.
  induction rest as [|i rest IH]; intro out; cbn [App.enum_all_loop].
  - query_step.
  - pose proof (queryDeviceInfo_query_only (DevicePath i)) as Q.
    repeat first [apply IH | exact Q | query_step].
Qed.

Lemma enumeration_query_only_loop :
  keeps (Forall query_only) (Hid.EnumerateVaxeeDevices tos ToLower uintptr_bits).
Proof.
  unfold Hid.EnumerateVaxeeDevices, Hid.lastErrno.
  cbn [traced HidD_GetHidGuid SetupDiGetClassDevsW GetLastError
       SetupDiDestroyDeviceInfoList].
  repeat first [apply enum_loop_query_only | query_step].
Qed.

(** While enumerating, with the vendor filter or without, the program opens
    devices with no access right (neither read nor write) and never reads or
    writes a feature report: an enumeration cannot change a device. *)
Theorem enumeration_query_only :
  keeps (Forall query_only) (Hid.EnumerateVaxeeDevices tos ToLower uintptr_bits) /\
  keeps (Forall query_only) (App.EnumerateAllHidDevices tos uintptr_bits).
Proof.
  split.
  - exact enumeration_query_only_loop.
  - unfold App.EnumerateAllHidDevices, Hid.lastErrno.
    cbn [traced HidD_GetHidGuid SetupDiGetClassDevsW GetLastError
         SetupDiDestroyDeviceInfoList].
    repeat first [apply enum_all_loop_query_only | query_step].
Qed.


(** ** Selecting the control path never writes to a device *)

Lemma no_write_nil : Forall no_write [].
Proof. constructor. Qed.

Lemma no_write_app l1 l2 :
  Forall no_write l1 -> Forall no_write l2 -> Forall no_write (l1 ++ l2).
Proof. intros. apply Forall_app. auto. Qed.

Lemma query_only_no_write l : Forall query_only l -> Forall no_write l.
Proof.
  apply Forall_impl. intros c. destruct c; cbn; auto.
Qed.

Ltac write_step :=
  keep_step no_write_nil no_write_app;
  try (repeat constructor; cbn; auto; fail).

Lemma getFeature_no_write path rid len :
  keeps (Forall no_write) (Hid.getFeature tos uintptr_bits path rid len).
Proof.
  unfold Hid.getFeature, Hid.getFeature_body, Hid.openHIDPath, Hid.lastErrno,
    Hid.closeHandle, emit.
  cbn [traced CreateFileW CloseHandle GetLastError HidD_GetFeature].
  repeat write_step.
Qed.

Lemma probe_loop_no_write order :
  keeps (Forall no_write) (Hid.probe_loop tos uintptr_bits order).
Proof.
  induction order as [|d order IH]; cbn [Hid.probe_loop].
  - write_step.
  - pose proof (getFeature_no_write (Path d) ReportID (Hid.probe_length d)) as G.
    repeat first [exact IH | exact G | write_step].
Qed.

(** Selecting the control path, which [FindOneVaxeeDevice] does too, never
    calls [HidD_SetFeature]: probing reads from the candidates and writes to
    none of them. *)
Theorem selection_never_writes :
  keeps (Forall no_write) (Hid.SelectVaxeeControlPath tos ToLower uintptr_bits) /\
  keeps (Forall no_write) (Hid.FindOneVaxeeDevice tos ToLower uintptr_bits).
Proof.
  assert (S : keeps (Forall no_write)
                (Hid.SelectVaxeeControlPath tos ToLower uintptr_bits)).
  { unfold Hid.SelectVaxeeControlPath.
    apply (keeps_bind no_write_app).
    - eapply makes_weaken; [apply enumeration_query_only_loop|].
      intros a l. apply query_only_no_write.
    - intro r. repeat first [apply probe_loop_no_write | write_step]. }
  split; exact S.
Qed.


(** ** Everything acquired is released *)

Abbreviation balanced := (balanced uintptr_bits).

Lemma balanced_nil : balanced [].
Proof. intro k. reflexivity. Qed.

Lemma balanced_app l1 l2 : balanced l1 -> balanced l2 -> balanced (l1 ++ l2).
Proof.
  intros B1 B2 k. pose proof (B1 k) as E1. pose proof (B2 k) as E2.
  unfold acquired, released in *.
  rewrite !flat_map_app. now rewrite E1, E2.
Qed.

Ltac balance_step :=
  keep_step balanced_nil balanced_app;
  try (intros [| |]; reflexivity).

(** Decide [balanced] on an explicit list of calls, given what is known of
    the handles in it. *)
Ltac balance_list :=
  intros [| |]; cbn [acquired released flat_map acquires releases app];
  repeat match goal with H : _ = _ |- _ => rewrite <- H end;
  reflexivity.

(** Run a computation that has no loop call by call, case by case. *)
Ltac run_calls :=
  cbn [bind call call_ ret emit value world emitted traced record record_
       CreateFileW CloseHandle GetLastError HidD_SetFeature HidD_GetFeature
       HidD_GetAttributes HidD_GetManufacturerString HidD_GetProductString
       HidD_GetPreparsedData HidD_FreePreparsedData HidP_GetCaps fst snd].

Ltac run_calls_in E :=
  cbn [bind call call_ ret emit value world emitted traced record record_
       CreateFileW CloseHandle GetLastError HidD_SetFeature HidD_GetFeature
       HidD_GetAttributes HidD_GetManufacturerString HidD_GetProductString
       HidD_GetPreparsedData HidD_FreePreparsedData HidP_GetCaps fst snd] in E.

Ltac balance_run fin :=
  run_calls;
  repeat match goal with
         | |- context [if ?c then _ else _] =>
             let b := fresh "b" in
             let E := fresh "E" in
             remember c as b eqn:E in *; destruct b; run_calls
         end;
  repeat match goal with E : _ = _ |- _ => progress run_calls_in E end;
  try (match goal with E : _ = _ |- _ => discriminate E end);
  rewrite <- ?app_assoc; cbn [app];
  (eexists; split; [reflexivity | fin]).

Lemma sendFeatureReport_balanced path report :
  keeps balanced (Hid.sendFeatureReport tos uintptr_bits path report).
Proof.
  intro s. unfold Hid.sendFeatureReport, Hid.sendFeatureReport_body, Hid.openHIDPath,
    Hid.lastErrno, Hid.closeHandle.
  destruct (List.length report =? 0)%nat; [apply (keeps_ret _ balanced_nil)|].
  destruct (has_nul path); [apply (keeps_ret _ balanced_nil)|].
  balance_run balance_list.
Qed.

Lemma getFeature_balanced path rid len :
  keeps balanced (Hid.getFeature tos uintptr_bits path rid len).
Proof.
  intro s. unfold Hid.getFeature, Hid.getFeature_body, Hid.openHIDPath,
    Hid.lastErrno, Hid.closeHandle.
  destruct (len <=? 0); [apply (keeps_ret _ balanced_nil)|].
  destruct (has_nul path); [apply (keeps_ret _ balanced_nil)|].
  balance_run balance_list.
Qed.

Abbreviation balanced_inside := (balanced_inside uintptr_bits).

Lemma inside_nil : balanced_inside [].
Proof. split; [apply balanced_nil | reflexivity]. Qed.

Lemma inside_app l1 l2 :
  balanced_inside l1 -> balanced_inside l2 -> balanced_inside (l1 ++ l2).
Proof.
  intros [B1 D1] [B2 D2]. split; [now apply balanced_app|].
  unfold acquired in *. now rewrite flat_map_app, D1, D2.
Qed.

Lemma queryDeviceInfo_inside path :
  keeps balanced_inside (Hid.queryDeviceInfo tos uintptr_bits path).
Proof.
  intro s. unfold Hid.queryDeviceInfo, Hid.openHIDPathForQuery, Hid.hidGetString,
    Hid.queryCaps, Hid.lastErrno, Hid.closeHandle.
  destruct (has_nul path); [apply (keeps_ret _ inside_nil)|].
  balance_run ltac:(split; [balance_list | reflexivity]).
Qed.

Ltac inside_step := keep_step inside_nil inside_app.

Lemma enum_loop_inside rest : forall out,
  keeps balanced_inside (Hid.enum_loop tos ToLower uintptr_bits rest out).
Proof.
  induction rest as [|i rest IH]; intro out; cbn [Hid.enum_loop].
  - inside_step.
  - pose proof (queryDeviceInfo_inside (DevicePath i)) as Q.
    repeat first [apply IH | exact Q | inside_step].
Qed.

Lemma enum_all_loop_inside rest : forall out,
  keeps balanced_inside (App.enum_all_loop tos uintptr_bits rest out).
Proof.
  induction rest as [|i rest IH]; intro out; cbn [App.enum_all_loop].
  - inside_step.
  - pose proof (queryDeviceInfo_inside (DevicePath i)) as Q.
    repeat first [apply IH | exact Q | inside_step].
Qed.

(** A balanced run between acquiring a device-information set and
    destroying it. *)
Lemma balanced_bracket h l :
  balanced_inside l ->
  ((h =? 0) || (h =? Hid.InvalidHandle uintptr_bits)) = false ->
  balanced ([CallGetHidGuid; CallGetClassDevs h] ++ l ++ [CallDestroyDeviceInfoList h]).
Proof.
  intros [B D] E k. pose proof (B k) as Bk.
  unfold acquired, released in *.
  rewrite !flat_map_app, <- Bk.
  destruct k; cbn [flat_map acquires releases app]; rewrite ?E, ?D, ?app_nil_r;
    reflexivity.
Qed.

Lemma EnumerateVaxeeDevices_balanced :
  keeps balanced (Hid.EnumerateVaxeeDevices tos ToLower uintptr_bits).
Proof.
  intro s. unfold Hid.EnumerateVaxeeDevices, Hid.lastErrno.
  cbn [bind call traced HidD_GetHidGuid SetupDiGetClassDevsW record value world fst snd].
  match goal with |- context [if ?c then _ else _] => destruct c eqn:E end.
  - cbn [bind call call_ ret value world traced record GetLastError fst snd].
    rewrite <- ?app_assoc. cbn [app].
    eexists; split; [reflexivity|].
    intros [| |]; cbn [acquired released flat_map acquires releases app];
      rewrite ?E; reflexivity.
  - cbn [bind call_ ret value world traced record_ SetupDiDestroyDeviceInfoList
         fst snd].
    match goal with |- context [Hid.enum_loop ?o ?t ?u ?r ?out ?st] =>
      destruct (enum_loop_inside r out st) as (l & El & Hl)
    end.
    cbn [snd] in El.
    rewrite El. rewrite <- !app_assoc. cbn [app].
    eexists; split; [reflexivity|].
    apply balanced_bracket; assumption.
Qed.

Lemma EnumerateAllHidDevices_balanced :
  keeps balanced (App.EnumerateAllHidDevices tos uintptr_bits).
Proof.
  intro s. unfold App.EnumerateAllHidDevices, Hid.lastErrno.
  cbn [bind call traced HidD_GetHidGuid SetupDiGetClassDevsW record value world fst snd].
  match goal with |- context [if ?c then _ else _] => destruct c eqn:E end.
  - cbn [bind call call_ ret value world traced record GetLastError fst snd].
    rewrite <- ?app_assoc. cbn [app].
    eexists; split; [reflexivity|].
    intros [| |]; cbn [acquired released flat_map acquires releases app];
      rewrite ?E; reflexivity.
  - cbn [bind call_ ret value world traced record_ SetupDiDestroyDeviceInfoList
         fst snd].
    match goal with |- context [App.enum_all_loop ?o ?u ?r ?out ?st] =>
      destruct (enum_all_loop_inside r out st) as (l & El & Hl)
    end.
    cbn [snd] in El.
    rewrite El. rewrite <- !app_assoc. cbn [app].
    eexists; split; [reflexivity|].
    apply balanced_bracket; assumption.
Qed.

Lemma probe_loop_balanced order :
  keeps balanced (Hid.probe_loop tos uintptr_bits order).
Proof.
  induction order as [|d order IH]; cbn [Hid.probe_loop].
  - balance_step.
  - pose proof (getFeature_balanced (Path d) ReportID (Hid.probe_length d)) as G.
    repeat first [exact IH | exact G | balance_step].
Qed.

Lemma SelectVaxeeControlPath_balanced :
  keeps balanced (Hid.SelectVaxeeControlPath tos ToLower uintptr_bits).
Proof.
  unfold Hid.SelectVaxeeControlPath.
  repeat first [apply EnumerateVaxeeDevices_balanced | apply probe_loop_balanced
               | balance_step].
Qed.

Lemma ApplyVaxeeSetting_balanced path perf poll :
  keeps balanced (Hid.ApplyVaxeeSetting tos ToLower uintptr_bits path perf poll).
Proof.
  unfold Hid.ApplyVaxeeSetting, Hid.FindOneVaxeeDevice, Hid.sleep, emit.
  cbn [traced Sleep].
  repeat first [apply SelectVaxeeControlPath_balanced
               | apply sendFeatureReport_balanced | balance_step].
Qed.

(** Whatever the OS answers, each operation of the HID layer releases what
    it acquired, in the order it acquired it: every device handle it accepted
    from [CreateFileW] is closed, every preparsed data it accepted is freed,
    every device-information set it accepted is destroyed, and nothing is
    released that was not acquired. *)
Theorem hid_operations_balanced path perf poll :
  keeps balanced (Hid.ApplyVaxeeSetting tos ToLower uintptr_bits path perf poll) /\
  keeps balanced (Hid.SelectVaxeeControlPath tos ToLower uintptr_bits) /\
  keeps balanced (Hid.EnumerateVaxeeDevices tos ToLower uintptr_bits) /\
  keeps balanced (App.EnumerateAllHidDevices tos uintptr_bits).
Proof.
  repeat apply conj.
  - apply ApplyVaxeeSetting_balanced.
  - apply SelectVaxeeControlPath_balanced.
  - apply EnumerateVaxeeDevices_balanced.
  - apply EnumerateAllHidDevices_balanced.
Qed.

End CallFacts.

(** ** The two enumerations *)

Section EnumFacts.
Variable W : Type.
Variable os : OSLayer W.
Variable ToLower : string -> string.
Variable uintptr_bits : Z.

Abbreviation vendor_match := (Hid.vendor_match ToLower).

Lemma enum_loops_agree rest : forall acc w,
  value (Hid.enum_loop os ToLower uintptr_bits rest (filter vendor_match acc) w)
  = filter vendor_match (value (App.enum_all_loop os uintptr_bits rest acc w)) /\
  world (Hid.enum_loop os ToLower uintptr_bits rest (filter vendor_match acc) w)
  = world (App.enum_all_loop os uintptr_bits rest acc w).
Proof.
  induction rest as [|i rest IH]; intros acc w;
    cbn [Hid.enum_loop App.enum_all_loop].
  - split; reflexivity.
  - destruct (enum_r1 i =? 0); [split; reflexivity|].
    destruct (detail_required i =? 0); [apply IH|].
    destruct (detail_r2 i =? 0); [apply IH|].
    destruct (String.eqb (DevicePath i) EmptyString); [apply IH|].
    rewrite !value_bind, !world_bind.
    set (q := Hid.queryDeviceInfo os uintptr_bits (DevicePath i) w).
    destruct (snd (value q)); cbn [negb]; [|apply IH].
    specialize (IH (acc ++ [fst (value q)]) (world q)).
    rewrite filter_app in IH. cbn [filter] in IH.
    destruct (vendor_match (fst (value q))).
    + exact IH.
    + rewrite app_nil_r in IH. exact IH.
Qed.

(** [EnumerateVaxeeDevices] is [EnumerateAllHidDevices] followed by the vendor
    filter: from the same state of the OS it returns, in the same order, the
    devices of the full list whose manufacturer or product string contains
    "vaxee" when lowered, with the same error, and leaves the OS in the same
    state. *)
Theorem EnumerateVaxeeDevices_filters (w : W) :
  let v := Hid.EnumerateVaxeeDevices os ToLower uintptr_bits w in
  let a := App.EnumerateAllHidDevices os uintptr_bits w in
  fst (value v) = filter vendor_match (fst (value a)) /\
  snd (value v) = snd (value a) /\
  world v = world a.
Proof.
  unfold Hid.EnumerateVaxeeDevices, App.EnumerateAllHidDevices.
  cbn zeta. rewrite !value_bind, !world_bind.
  set (g := call (HidD_GetHidGuid os) w).
  set (c := call (SetupDiGetClassDevsW os (value g)
                    (Z.lor DIGCF_PRESENT DIGCF_DEVICEINTERFACE)) (world g)).
  destruct ((fst (value c) =? 0) || (fst (value c) =? Hid.InvalidHandle uintptr_bits)).
  - repeat apply conj; reflexivity.
  - rewrite !value_bind, !world_bind.
    destruct (enum_loops_agree (snd (value c)) [] (world c)) as [V Wd].
    cbn [filter] in V, Wd.
    cbn [bind call_ ret value world fst snd].
    rewrite V, Wd. repeat apply conj; reflexivity.
Qed.

End EnumFacts.

(** * Runs on the simulated desktop *)

Lemma conf_valid : valid_config SimApp.conf.
Proof.
  change (valid_config
            (fst (Cfg.config_lines ascii_TrimSpace ascii_ToLower win_Base
                    SimApp.int_bits SimApp.conf_lines
                    (Cfg.defaultConfig SimApp.conf_path)))).
  apply config_lines_keep_valid.
  - apply defaultConfig_valid.
  - vm_compute. reflexivity.
Qed.

Lemma parseInt_accepts_witness :
  snd (SimApp.parseInt " 4000 ") = None /\
  SimApp.parseInt "+5" = (0, Some (ErrNotInt (ascii_TrimSpace "+5"))).
Proof.
  split.
  - apply (proj1 (parseInt_accepts ascii_TrimSpace SimApp.int_bits " 4000 ")).
    split; [vm_compute; discriminate | vm_compute; reflexivity].
  - apply (proj2 (proj2 (parseInt_accepts ascii_TrimSpace SimApp.int_bits "+5"))).
    + vm_compute. discriminate.
    + vm_compute. reflexivity.
Defined.

Lemma parseInt_value_witness :
  fst (SimApp.parseInt " 4000 ") = decimal_value (ascii_TrimSpace " 4000 ") /\
  decimal_value (ascii_TrimSpace " 4000 ") = 4000.
Proof.
  split; [|vm_compute; reflexivity].
  assert (B : 0 < SimApp.int_bits) by reflexivity.
  assert (O : snd (Cfg.parseInt ascii_TrimSpace SimApp.int_bits " 4000 ") = None)
    by (vm_compute; reflexivity).
  destruct (@parseInt_value ascii_TrimSpace SimApp.int_bits " 4000 " B O) as [_ H].
  apply H. vm_compute. reflexivity.
Defined.

Lemma parsePerf_names_witness :
  Cfg.perfName (fst (SimApp.parsePerf " Competitive_MS_On "))
  = ascii_ToLower (ascii_TrimSpace " Competitive_MS_On ") /\
  SimApp.parsePerf "turbo" = (x00, Some (ErrUnknownPerf "turbo")).
Proof.
  destruct (parsePerf_names ascii_TrimSpace ascii_ToLower " Competitive_MS_On ")
    as (_ & A & _).
  destruct (parsePerf_names ascii_TrimSpace ascii_ToLower "turbo") as (_ & _ & B).
  split.
  - apply A. vm_compute. reflexivity.
  - apply B. vm_compute. discriminate.
Defined.

Lemma perfName_parsePerf_witness :
  SimApp.parsePerf (Cfg.perfName PerfStandardMSOn) = (PerfStandardMSOn, None).
Proof.
  apply (proj2 (perfName_parsePerf ascii_TrimSpace ascii_ToLower)).
  - right; right; right; reflexivity.
  - vm_compute. reflexivity.
Defined.

Lemma config_lines_valid_witness :
  valid_config
    (fst (SimApp.config_lines SimApp.conf_lines (Cfg.defaultConfig SimApp.conf_path))).
Proof.
  apply (proj1 (config_lines_valid ascii_TrimSpace ascii_ToLower win_Base
                  SimApp.int_bits SimApp.conf_lines SimApp.conf_path)).
  vm_compute. reflexivity.
Defined.

Lemma config_lines_whitelist_witness :
  Whitelist (fst (SimApp.config_lines SimApp.conf_lines
                    (Cfg.defaultConfig SimApp.conf_path)))
  = ["cs2.exe"; "valorant.exe"]%string.
Proof.
  unfold SimApp.config_lines.
  rewrite (@config_lines_whitelist ascii_TrimSpace ascii_ToLower win_Base
             SimApp.int_bits SimApp.conf_lines (Cfg.defaultConfig SimApp.conf_path)).
  - vm_compute. reflexivity.
  - vm_compute. reflexivity.
Defined.

Lemma config_lines_ignored_witness :
  SimApp.config_lines (["hit_poll=2000"%string] ++ "volume=11"%string :: ["cs2.exe"%string]) SimApp.conf
  = SimApp.config_lines (["hit_poll=2000"%string] ++ ["cs2.exe"%string]) SimApp.conf.
Proof.
  apply (@config_lines_ignored ascii_TrimSpace ascii_ToLower win_Base SimApp.int_bits).
  vm_compute. reflexivity.
Defined.

Lemma config_lines_sequence_witness :
  snd (SimApp.config_lines (["hit_poll=500"%string] ++ ["cs2.exe"%string]) SimApp.conf)
  = Some (ErrPolling (ErrUnsupportedRate 500)) /\
  SimApp.config_lines (["hit_poll=2000"%string] ++ ["cs2.exe"%string]) SimApp.conf
  = SimApp.config_lines ["cs2.exe"%string]
      (fst (SimApp.config_lines ["hit_poll=2000"%string] SimApp.conf)).
Proof.
  split.
  - apply (proj1 (config_lines_sequence ascii_TrimSpace ascii_ToLower win_Base
                    SimApp.int_bits ["hit_poll=500"%string] ["cs2.exe"%string]
                    SimApp.conf)).
    vm_compute. reflexivity.
  - apply (proj2 (config_lines_sequence ascii_TrimSpace ascii_ToLower win_Base
                    SimApp.int_bits ["hit_poll=2000"%string] ["cs2.exe"%string]
                    SimApp.conf)).
    vm_compute. reflexivity.
Defined.

Lemma config_lines_last_wins_witness :
  setting_field SHitPoll
    (fst (SimApp.config_lines
            (["hit_poll=2000"%string] ++
             "hit_poll=4000"%string :: ["volume=11"%string; "cs2.exe"%string])
            SimApp.conf))
  = setting_stored ascii_TrimSpace ascii_ToLower SimApp.int_bits SHitPoll "4000".
Proof.
  apply (proj1 (config_lines_last_wins ascii_TrimSpace ascii_ToLower win_Base
                  SimApp.int_bits SHitPoll ["hit_poll=2000"%string] "hit_poll=4000"
                  "4000" ["volume=11"; "cs2.exe"]%string SimApp.conf)).
  - vm_compute. reflexivity.
  - vm_compute. reflexivity.
  - intros t [<-|[<-|[]]]; vm_compute; reflexivity.
Defined.

Lemma loadConfig_result_witness :
  (exists cfg,
      fst (fst (value (SimApp.loadConfig SimApp.desk_game SimApp.conf_path 0%nat)))
      = Some cfg /\ valid_config cfg) /\
  value (SimApp.loadConfig SimApp.desk_game "C:\nowhere.conf" 0%nat)
  = (None, zeroTime, Some (ErrFile SimApp.ENOENT)).
Proof.
  split.
  - pose proof (loadConfig_result (SimApp.fs SimApp.desk_game) ascii_TrimSpace
                  ascii_ToLower win_Base SimApp.int_bits SimApp.conf_path 0%nat) as H.
    cbv zeta in H. destruct H as (H & _).
    destruct H as (cfg & E & V & _); [vm_compute; reflexivity|].
    exists cfg. split; assumption.
  - pose proof (loadConfig_result (SimApp.fs SimApp.desk_game) ascii_TrimSpace
                  ascii_ToLower win_Base SimApp.int_bits "C:\nowhere.conf" 0%nat) as H.
    cbv zeta in H. destruct H as (_ & _ & H & _).
    apply (H SimApp.ENOENT). vm_compute. reflexivity.
Defined.

Lemma reloadConfigIfChanged_keeps_valid_witness :
  valid_config
    (fst (fst (value (SimApp.reloadConfigIfChanged SimApp.desk_bad SimApp.conf_path
                        SimApp.conf 1700 0%nat)))) /\
  fst (fst (value (SimApp.reloadConfigIfChanged SimApp.desk_bad SimApp.conf_path
                     SimApp.conf 1700 0%nat))) = SimApp.conf.
Proof.
  pose proof (reloadConfigIfChanged_keeps_valid (SimApp.fs SimApp.desk_bad)
                ascii_TrimSpace ascii_ToLower win_Base SimApp.int_bits
                SimApp.conf_path SimApp.conf 1700 0%nat) as H.
  cbv zeta in H. destruct H as (A & B & _).
  split.
  - apply A. exact conf_valid.
  - apply B. vm_compute. discriminate.
Defined.

Lemma tickOnce_idle_witness :
  SimApp.tickOnce sys_abc SimApp.desk_idle SimApp.conf zeroApplied 0%nat
  = Out (TickIdle, zeroApplied)
        (world (App.ForegroundProcessName (SimApp.user SimApp.desk_idle)
                  ascii_ToLower win_Base 0%nat)) [].
Proof.
  apply (tickOnce_idle (Sim.os sys_abc) (SimApp.user SimApp.desk_idle) ascii_ToLower
           win_Base Sim.bits SimApp.conf zeroApplied 0%nat).
  left. vm_compute. discriminate.
Defined.

Lemma tickOnce_record_witness :
  snd (value (SimApp.tickOnce sys_abc SimApp.desk_game SimApp.conf zeroApplied 0%nat))
  = {| perf := PerfCompetitiveMSOn; poll := 4000; ok := true |}.
Proof.
  pose proof (tickOnce_record (Sim.os sys_abc) (SimApp.user SimApp.desk_game)
                ascii_ToLower win_Base Sim.bits SimApp.conf zeroApplied 0%nat) as H.
  cbv zeta in H. destruct H as (H & _).
  apply (H true "cs2.exe"%string). vm_compute. reflexivity.
Defined.

Lemma tickOnce_valid_config_witness :
  exists path rep1 rep2,
    sends (emitted (SimApp.tickOnce sys_abc SimApp.desk_game SimApp.conf
                      zeroApplied 0%nat))
    = [EvSendFeatureReport path rep1 None; EvSendFeatureReport path rep2 None] /\
    nth_error rep1 5 = Some PerfCompetitiveMSOn /\
    nth_error rep2 5 = Some (fst (pollingToYY 4000)).
Proof.
  pose proof (tickOnce_valid_config (Sim.os sys_abc) (SimApp.user SimApp.desk_game)
                ascii_ToLower win_Base Sim.bits zeroApplied 0%nat conf_valid) as H.
  cbv zeta in H. destruct H as (_ & _ & H).
  destruct (H true "cs2.exe"%string PerfCompetitiveMSOn 4000)
    as (path & rep1 & rep2 & S & _ & P & _ & Q); [vm_compute; reflexivity|].
  exists path, rep1, rep2. repeat split; assumption.
Defined.

Lemma mainTurn_invariant_witness :
  valid_config
    (App.st_cfg
       (value (SimApp.mainTurn sys_abc SimApp.desk_game SimApp.conf_path
                 {| App.st_cfg := SimApp.conf; App.st_modTime := 1700;
                    App.st_last := zeroApplied; App.st_lastErr := EmptyString |}
                 0%nat))).
Proof.
  pose proof (@mainTurn_invariant _ (Sim.os sys_abc) (SimApp.fs SimApp.desk_game)
                (SimApp.user SimApp.desk_game) ascii_TrimSpace ascii_ToLower win_Base
                SimApp.Error SimApp.int_bits Sim.bits SimApp.conf_path
                {| App.st_cfg := SimApp.conf; App.st_modTime := 1700;
                   App.st_last := zeroApplied; App.st_lastErr := EmptyString |}
                0%nat conf_valid) as H.
  cbv zeta in H. destruct H as (H & _). exact H.
Defined.
